(** * rungine: the UCI engine-control subsystem

    A shallow embedding of [internal/uci]: the line codec ([parser.go]),
    the value types ([types.go]), the per-engine session ([engine.go]) and
    the multi-engine manager ([manager.go]), with the parameters of an
    analysis from [app.go], followed by the properties the specification
    states about them (Part II) and by further properties of the code
    (Part III).

    Conventions.
    - Go [int], [int64] and [time.Duration] are 64-bit two's complement;
      they are embedded as [Z], with clamping or wrap-around written out
      where the code can leave the range.
    - Go strings are byte sequences; they are embedded as [string]
      (a list of 8-bit [ascii]).
    - A nil pointer ([*int]) is [None].
    - Slice indexing and slicing panic out of range in Go; the codec is
      embedded in the [outcome] monad, where such an access is [Panicked].
    - Goroutines, the OS and the clock enter the embedding as explicit
      oracle arguments (event lists, booleans, time stamps). *)

From Stdlib Require Import ZArith Lia Bool Ascii String List.
From Stdlib Require Import DecimalString.
From stdpp Require Import base option list gmap strings.

Local Open Scope Z_scope.
Local Open Scope string_scope.

(* ================================================================== *)
(** * Part I. The embedding                                            *)
(* ================================================================== *)

(** ** Machine integers *)

Definition minInt64 : Z := - 2 ^ 63.
Definition maxInt64 : Z := 2 ^ 63 - 1.

(** Saturation into the [int64] range ([time.Time.Sub] on overflow). *)
Definition clamp64 (z : Z) : Z := Z.max minInt64 (Z.min maxInt64 z).

(** Two's-complement wrap-around of an [int64] result. *)
Definition wrap64 (z : Z) : Z := (z + 2 ^ 63) mod 2 ^ 64 - 2 ^ 63.

(** ** Library functions of the Go runtime used by the codec *)

(** The ASCII part of [unicode.IsSpace]: tab, newline, vertical tab,
    form feed, carriage return, space.  (Multi-byte UTF-8 white space is
    not decoded by this embedding; the theorems on the scanners below are
    stated for every token list, so they do not depend on it.) *)
Definition isSpace (c : ascii) : bool :=
  let n := nat_of_ascii c in
  ((9 <=? n)%nat && (n <=? 13)%nat) || (n =? 32)%nat.

Definition isEmpty (s : string) : bool :=
  match s with EmptyString => true | String _ _ => false end.

Fixpoint trimLeft (s : string) : string :=
  match s with
  | EmptyString => EmptyString
  | String c t => if isSpace c then trimLeft t else s
  end.

Fixpoint trimRight (s : string) : string :=
  match s with
  | EmptyString => EmptyString
  | String c t =>
      let t' := trimRight t in
      if isSpace c && isEmpty t' then EmptyString else String c t'
  end.

(** [strings.TrimSpace] *)
Definition TrimSpace (s : string) : string := trimRight (trimLeft s).

(** [strings.Fields]: maximal runs of non-space bytes, in order. [cur] is
    the field being accumulated. *)
Fixpoint fieldsFrom (s : string) (cur : string) : list string :=
  match s with
  | EmptyString => if isEmpty cur then [] else [cur]
  | String c t =>
      if isSpace c
      then (if isEmpty cur then fieldsFrom t EmptyString
            else cur :: fieldsFrom t EmptyString)
      else fieldsFrom t (cur ++ String c EmptyString)
  end.

Definition Fields (s : string) : list string := fieldsFrom s EmptyString.

(** [strings.Join] *)
Fixpoint Join (elems : list string) (sep : string) : string :=
  match elems with
  | [] => EmptyString
  | [e] => e
  | e :: rest => e ++ sep ++ Join rest sep
  end.

Definition isDigit (c : ascii) : bool :=
  let n := nat_of_ascii c in (48 <=? n)%nat && (n <=? 57)%nat.

Definition digitVal (c : ascii) : Z := Z.of_nat (nat_of_ascii c) - 48.

(** The two kinds of [strconv.NumError] met in base 10. *)
Inductive NumError : Type := ErrSyntax | ErrRange.

Definition maxUint64 : Z := 2 ^ 64 - 1.

(** The digit loop of [strconv.ParseUint(s, 10, 64)], [n] being the
    value read so far.  A byte that is not a digit is a syntax error;
    an overflow is a range error, reported as soon as it is met, with
    the largest value. *)
Fixpoint parseUintLoop (s : string) (n : Z) : Z * option NumError :=
  match s with
  | EmptyString => (n, None)
  | String c t =>
      if negb (isDigit c) then (0, Some ErrSyntax)
      else if (maxUint64 / 10 + 1 <=? n)%Z then (maxUint64, Some ErrRange)
      else
        let n1 := n * 10 + digitVal c in
        if (maxUint64 <? n1)%Z then (maxUint64, Some ErrRange)
        else parseUintLoop t n1
  end.

Definition ParseUint (s : string) : Z * option NumError :=
  if isEmpty s then (0, Some ErrSyntax) else parseUintLoop s 0.

(** [strconv.ParseInt(s, 10, 64)]: the value and the error. *)
Definition ParseInt (s : string) : Z * option NumError :=
  match s with
  | EmptyString => (0, Some ErrSyntax)
  | String c t =>
      let neg := Ascii.eqb c "-" in
      let s := if Ascii.eqb c "+" || neg then t else s in
      let '(un, err) := ParseUint s in
      match err with
      | Some ErrSyntax => (0, err)
      | _ =>
          if negb neg && (2 ^ 63 <=? un)%Z then (2 ^ 63 - 1, Some ErrRange)
          else if neg && (2 ^ 63 <? un)%Z then (- 2 ^ 63, Some ErrRange)
          else (if neg then - un else un, None)
      end
  end.

(** [n, _ := strconv.ParseInt(s, 10, 64)]: the error is discarded. *)
Definition ParseInt64 (s : string) : Z := fst (ParseInt s).

(** [n, _ := strconv.Atoi(s)]; [int] is 64 bits wide, and the fast path
    of [Atoi] for short strings agrees with [ParseInt]. *)
Definition Atoi (s : string) : Z := ParseInt64 s.

(** [strconv.Itoa] / [strconv.FormatInt(_, 10)] *)
Definition FormatInt (z : Z) : string := NilZero.string_of_int (Z.to_int z).
Definition Itoa (z : Z) : string := FormatInt z.

(** ** Time *)

(** [time.Duration]: nanoseconds as an [int64]. *)
Definition Duration : Type := Z.
Definition Millisecond : Duration := 1000000.
Definition Second : Duration := 1000000000.

(** [Duration.Milliseconds]: integer division truncated towards zero. *)
Definition Milliseconds (d : Duration) : Z := Z.quot d 1000000.

(** [time.Time]: an instant, in nanoseconds on the process clock. *)
Definition GoTime : Type := Z.

(** [t.Sub(u)]: the difference, saturated to the [Duration] range. *)
Definition Sub (t u : GoTime) : Duration := clamp64 (t - u).

(** ** types.go *)

Inductive EngineState : Type :=
| EngineStateNone
| EngineStateStarting
| EngineStateReady
| EngineStateThinking
| EngineStatePondering
| EngineStateStopped
| EngineStateError.

#[global] Instance EngineState_eq_dec : EqDecision EngineState.
Proof. solve_decision. Defined.

Definition EngineState_String (s : EngineState) : string :=
  match s with
  | EngineStateNone => "none"
  | EngineStateStarting => "starting"
  | EngineStateReady => "ready"
  | EngineStateThinking => "thinking"
  | EngineStatePondering => "pondering"
  | EngineStateStopped => "stopped"
  | EngineStateError => "error"
  end.

(** [UCIOptionType] is a string in the source. *)
Definition UCIOptionType : Type := string.
Definition OptionTypeSpin : UCIOptionType := "spin".
Definition OptionTypeCheck : UCIOptionType := "check".
Definition OptionTypeCombo : UCIOptionType := "combo".
Definition OptionTypeString : UCIOptionType := "string".
Definition OptionTypeButton : UCIOptionType := "button".

Module UCIOption.
Record t : Type := mk {
  Name : string;
  Type_ : UCIOptionType;
  Default : string;
  Min : option Z;
  Max : option Z;
  Vars : list string;
  Value : string
}.
Definition zero : t := mk "" "" "" None None [] "".
Definition set_Name v o := mk v (Type_ o) (Default o) (Min o) (Max o) (Vars o) (Value o).
Definition set_Type v o := mk (Name o) v (Default o) (Min o) (Max o) (Vars o) (Value o).
Definition set_Default v o := mk (Name o) (Type_ o) v (Min o) (Max o) (Vars o) (Value o).
Definition set_Min v o := mk (Name o) (Type_ o) (Default o) v (Max o) (Vars o) (Value o).
Definition set_Max v o := mk (Name o) (Type_ o) (Default o) (Min o) v (Vars o) (Value o).
Definition set_Vars v o := mk (Name o) (Type_ o) (Default o) (Min o) (Max o) v (Value o).
Definition set_Value v o := mk (Name o) (Type_ o) (Default o) (Min o) (Max o) (Vars o) v.
End UCIOption.

Module Score.
Record t : Type := mk {
  Centipawns : option Z;
  Mate : option Z;
  LowerBound : bool;
  UpperBound : bool
}.
Definition zero : t := mk None None false false.
Definition set_Centipawns v s := mk v (Mate s) (LowerBound s) (UpperBound s).
Definition set_Mate v s := mk (Centipawns s) v (LowerBound s) (UpperBound s).
Definition set_LowerBound v s := mk (Centipawns s) (Mate s) v (UpperBound s).
Definition set_UpperBound v s := mk (Centipawns s) (Mate s) (LowerBound s) v.
  (** [IsMate] *)
Definition IsMate (s : t) : bool := bool_decide (Mate s ≠ None).
End Score.

Module AnalysisInfo.
Record t : Type := mk {
  EngineID : string;
  Depth : Z;
  SelDepth : Z;
  Score : Score.t;
  Nodes : Z;
  NPS : Z;
  Time : Duration;
  PV : list string;
  MultiPV : Z;
  CurrMove : string;
  CurrMoveNumber : Z;
  HashFull : Z;
  TBHits : Z;
  Timestamp : GoTime
}.
Definition zero : t := mk "" 0 0 Score.zero 0 0 0 [] 0 "" 0 0 0 0.
Definition set_EngineID v i :=
    mk v (Depth i) (SelDepth i) (Score i) (Nodes i) (NPS i) (Time i) (PV i)
       (MultiPV i) (CurrMove i) (CurrMoveNumber i) (HashFull i) (TBHits i) (Timestamp i).
Definition set_Depth v i :=
    mk (EngineID i) v (SelDepth i) (Score i) (Nodes i) (NPS i) (Time i) (PV i)
       (MultiPV i) (CurrMove i) (CurrMoveNumber i) (HashFull i) (TBHits i) (Timestamp i).
Definition set_SelDepth v i :=
    mk (EngineID i) (Depth i) v (Score i) (Nodes i) (NPS i) (Time i) (PV i)
       (MultiPV i) (CurrMove i) (CurrMoveNumber i) (HashFull i) (TBHits i) (Timestamp i).
Definition set_Score v i :=
    mk (EngineID i) (Depth i) (SelDepth i) v (Nodes i) (NPS i) (Time i) (PV i)
       (MultiPV i) (CurrMove i) (CurrMoveNumber i) (HashFull i) (TBHits i) (Timestamp i).
Definition set_Nodes v i :=
    mk (EngineID i) (Depth i) (SelDepth i) (Score i) v (NPS i) (Time i) (PV i)
       (MultiPV i) (CurrMove i) (CurrMoveNumber i) (HashFull i) (TBHits i) (Timestamp i).
Definition set_NPS v i :=
    mk (EngineID i) (Depth i) (SelDepth i) (Score i) (Nodes i) v (Time i) (PV i)
       (MultiPV i) (CurrMove i) (CurrMoveNumber i) (HashFull i) (TBHits i) (Timestamp i).
Definition set_Time v i :=
    mk (EngineID i) (Depth i) (SelDepth i) (Score i) (Nodes i) (NPS i) v (PV i)
       (MultiPV i) (CurrMove i) (CurrMoveNumber i) (HashFull i) (TBHits i) (Timestamp i).
Definition set_PV v i :=
    mk (EngineID i) (Depth i) (SelDepth i) (Score i) (Nodes i) (NPS i) (Time i) v
       (MultiPV i) (CurrMove i) (CurrMoveNumber i) (HashFull i) (TBHits i) (Timestamp i).
Definition set_MultiPV v i :=
    mk (EngineID i) (Depth i) (SelDepth i) (Score i) (Nodes i) (NPS i) (Time i) (PV i)
       v (CurrMove i) (CurrMoveNumber i) (HashFull i) (TBHits i) (Timestamp i).
Definition set_CurrMove v i :=
    mk (EngineID i) (Depth i) (SelDepth i) (Score i) (Nodes i) (NPS i) (Time i) (PV i)
       (MultiPV i) v (CurrMoveNumber i) (HashFull i) (TBHits i) (Timestamp i).
Definition set_CurrMoveNumber v i :=
    mk (EngineID i) (Depth i) (SelDepth i) (Score i) (Nodes i) (NPS i) (Time i) (PV i)
       (MultiPV i) (CurrMove i) v (HashFull i) (TBHits i) (Timestamp i).
Definition set_HashFull v i :=
    mk (EngineID i) (Depth i) (SelDepth i) (Score i) (Nodes i) (NPS i) (Time i) (PV i)
       (MultiPV i) (CurrMove i) (CurrMoveNumber i) v (TBHits i) (Timestamp i).
Definition set_TBHits v i :=
    mk (EngineID i) (Depth i) (SelDepth i) (Score i) (Nodes i) (NPS i) (Time i) (PV i)
       (MultiPV i) (CurrMove i) (CurrMoveNumber i) (HashFull i) v (Timestamp i).
End AnalysisInfo.

Module BestMove.
Record t : Type := mk { Move : string; Ponder : string }.
Definition zero : t := mk "" "".
End BestMove.

Module GoParams.
Record t : Type := mk {
  Infinite : bool;
  Depth : Z;
  Nodes : Z;
  MoveTime : Duration;
  WhiteTime : Duration;
  BlackTime : Duration;
  WhiteInc : Duration;
  BlackInc : Duration;
  MovesToGo : Z;
  SearchMoves : list string;
  Ponder : bool
}.
Definition zero : t := mk false 0 0 0 0 0 0 0 0 [] false.
End GoParams.

(** ** Panicking computations *)

(** The result of running Go code that may index out of range.
    [OutOfFuel] is the embedding's own: a loop is unrolled at most [fuel]
    times, and the totality theorems show the fuel given is enough. *)
Inductive outcome (A : Type) : Type :=
| Returned (a : A)
| Panicked
| OutOfFuel.
Arguments Returned {A} a.
Arguments Panicked {A}.
Arguments OutOfFuel {A}.

#[global] Instance outcome_ret : MRet outcome := fun A a => Returned a.
#[global] Instance outcome_bind : MBind outcome := fun A B f m =>
  match m with
  | Returned a => f a
  | Panicked => Panicked
  | OutOfFuel => OutOfFuel
  end.

(** [parts[i]] *)
Definition index (parts : list string) (i : nat) : outcome string :=
  match parts !! i with
  | Some p => Returned p
  | None => Panicked
  end.

(** [parts[lo:hi]] *)
Definition slice (parts : list string) (lo hi : nat) : outcome (list string) :=
  if ((lo <=? hi) && (hi <=? length parts))%nat
  then Returned (take (hi - lo) (drop lo parts))
  else Panicked.

(** [parts[lo:]] *)
Definition sliceFrom (parts : list string) (lo : nat) : outcome (list string) :=
  slice parts lo (length parts).

(** ** parser.go: inbound lines *)

(** [ParsedLine{Type, Data}]: the tag [Type] and the dynamically typed
    [Data] it goes with, as one tagged union. *)
Inductive ParsedLine : Type :=
| PLEmpty
| PLId
| PLIdName (name : string)
| PLIdAuthor (author : string)
| PLUciOk
| PLReadyOk
| PLBestMove (bm : BestMove.t)
| PLInfo (info : AnalysisInfo.t)
| PLOption (opt : UCIOption.t)
| PLUnknown (line : string).

(** The [Type] field. *)
Definition LineType (l : ParsedLine) : string :=
  match l with
  | PLEmpty => "empty"
  | PLId => "id"
  | PLIdName _ => "id_name"
  | PLIdAuthor _ => "id_author"
  | PLUciOk => "uciok"
  | PLReadyOk => "readyok"
  | PLBestMove _ => "bestmove"
  | PLInfo _ => "info"
  | PLOption _ => "option"
  | PLUnknown _ => "unknown"
  end.

Definition parseIDLine (parts : list string) : outcome ParsedLine :=
  if (length parts <? 2)%nat then Returned PLId
  else
    p0 ← index parts 0;
    if p0 =? "name" then
      rest ← sliceFrom parts 1; Returned (PLIdName (Join rest " "))
    else if p0 =? "author" then
      rest ← sliceFrom parts 1; Returned (PLIdAuthor (Join rest " "))
    else Returned PLId.

(** The [for i := 1; i < len(parts)-1; i++] loop of [parseBestMoveLine]. *)
Fixpoint bestMoveLoop (fuel : nat) (parts : list string) (i : nat)
    (bm : BestMove.t) : outcome BestMove.t :=
  if (i <? length parts - 1)%nat then
    match fuel with
    | O => OutOfFuel
    | S fuel' =>
        p ← index parts i;
        if (p =? "ponder") && (i + 1 <? length parts)%nat then
          q ← index parts (i + 1);
          Returned (BestMove.mk (BestMove.Move bm) q)
        else bestMoveLoop fuel' parts (i + 1) bm
    end
  else Returned bm.

Definition parseBestMoveLine (parts : list string) : outcome ParsedLine :=
  bm ← (if (1 <=? length parts)%nat
        then m ← index parts 0; Returned (BestMove.mk m (BestMove.Ponder BestMove.zero))
        else Returned BestMove.zero);
  bm ← bestMoveLoop (length parts) parts 1 bm;
  Returned (PLBestMove bm).

(** [parseScore(parts, start, score)]: the loop from [i]; the result is
    the returned index together with the record written through
    [score]. *)
Fixpoint parseScoreLoop (fuel : nat) (parts : list string) (i : nat)
    (score : Score.t) : outcome (nat * Score.t) :=
  if (i <? length parts)%nat then
    match fuel with
    | O => OutOfFuel
    | S fuel' =>
        p ← index parts i;
        if p =? "cp" then
          if (i + 1 <? length parts)%nat then
            v ← index parts (i + 1);
            parseScoreLoop fuel' parts (i + 1 + 1) (Score.set_Centipawns (Some (Atoi v)) score)
          else parseScoreLoop fuel' parts (i + 1) score
        else if p =? "mate" then
          if (i + 1 <? length parts)%nat then
            v ← index parts (i + 1);
            parseScoreLoop fuel' parts (i + 1 + 1) (Score.set_Mate (Some (Atoi v)) score)
          else parseScoreLoop fuel' parts (i + 1) score
        else if p =? "lowerbound" then
          parseScoreLoop fuel' parts (i + 1) (Score.set_LowerBound true score)
        else if p =? "upperbound" then
          parseScoreLoop fuel' parts (i + 1) (Score.set_UpperBound true score)
        else Returned ((i - 1)%nat, score)
    end
  else Returned ((i - 1)%nat, score).

Definition parseScore (parts : list string) (start : nat) (score : Score.t)
    : outcome (nat * Score.t) :=
  parseScoreLoop (length parts) parts start score.

(** The recurring case body
    [if i+1 < len(parts) { <field> = f(parts[i+1]); i++ }]. *)
Definition withValue {A : Type} (parts : list string) (i : nat) (a : A)
    (upd : string → A → A) : outcome (nat * A) :=
  if (i + 1 <? length parts)%nat then
    v ← index parts (i + 1); Returned ((i + 1)%nat, upd v a)
  else Returned (i, a).

(** One iteration of the loop of [parseInfoLine]: the [switch] on
    [parts[i]].  The result is [i] as the body leaves it (the loop's
    [i++] follows) and the updated record. *)
Definition infoStep (parts : list string) (i : nat) (info : AnalysisInfo.t)
    : outcome (nat * AnalysisInfo.t) :=
  p ← index parts i;
  if p =? "depth" then
    withValue parts i info (fun v => AnalysisInfo.set_Depth (Atoi v))
  else if p =? "seldepth" then
    withValue parts i info (fun v => AnalysisInfo.set_SelDepth (Atoi v))
  else if p =? "multipv" then
    withValue parts i info (fun v => AnalysisInfo.set_MultiPV (Atoi v))
  else if p =? "score" then
    '(i', sc) ← parseScore parts (i + 1) (AnalysisInfo.Score info);
    Returned (i', AnalysisInfo.set_Score sc info)
  else if p =? "nodes" then
    withValue parts i info (fun v => AnalysisInfo.set_Nodes (ParseInt64 v))
  else if p =? "nps" then
    withValue parts i info (fun v => AnalysisInfo.set_NPS (ParseInt64 v))
  else if p =? "time" then
    withValue parts i info
      (fun v => AnalysisInfo.set_Time (wrap64 (ParseInt64 v * Millisecond)))
  else if p =? "pv" then
    pv ← sliceFrom parts (i + 1);
    Returned (length parts, AnalysisInfo.set_PV pv info)
  else if p =? "currmove" then
    withValue parts i info (fun v => AnalysisInfo.set_CurrMove v)
  else if p =? "currmovenumber" then
    withValue parts i info (fun v => AnalysisInfo.set_CurrMoveNumber (Atoi v))
  else if p =? "hashfull" then
    withValue parts i info (fun v => AnalysisInfo.set_HashFull (Atoi v))
  else if p =? "tbhits" then
    withValue parts i info (fun v => AnalysisInfo.set_TBHits (ParseInt64 v))
  else if p =? "string" then
    Returned (length parts, info)
  else Returned (i, info).

(** [for i := 0; i < len(parts); i++ { ... }] of [parseInfoLine]. *)
Fixpoint infoLoop (fuel : nat) (parts : list string) (i : nat)
    (info : AnalysisInfo.t) : outcome AnalysisInfo.t :=
  if (i <? length parts)%nat then
    match fuel with
    | O => OutOfFuel
    | S fuel' =>
        '(i', info') ← infoStep parts i info;
        infoLoop fuel' parts (i' + 1) info'
    end
  else Returned info.

(** [now] is the reading of [time.Now()]. *)
Definition parseInfoLine (now : GoTime) (parts : list string) : outcome ParsedLine :=
  let info :=
    AnalysisInfo.mk "" 0 0 Score.zero 0 0 0 [] 0 "" 0 0 0 now in
  info ← infoLoop (length parts) parts 0 info;
  Returned (PLInfo info).

Definition isOptionKeyword (s : string) : bool :=
  (s =? "name") || (s =? "type") || (s =? "default") || (s =? "min")
  || (s =? "max") || (s =? "var").

(** [for j < len(parts) && !stop(parts[j]) { j++ }] *)
Fixpoint scanUntil (fuel : nat) (stop : string → bool) (parts : list string)
    (j : nat) : outcome nat :=
  if (j <? length parts)%nat then
    match fuel with
    | O => OutOfFuel
    | S fuel' =>
        p ← index parts j;
        if stop p then Returned j else scanUntil fuel' stop parts (j + 1)
    end
  else Returned j.

(** One iteration of the loop of [parseOptionLine]. *)
Definition optionStep (parts : list string) (i : nat) (opt : UCIOption.t)
    : outcome (nat * UCIOption.t) :=
  p ← index parts i;
  if p =? "name" then
    nameEnd ← scanUntil (length parts) (fun s => s =? "type") parts (i + 1);
    name ← slice parts (i + 1) nameEnd;
    Returned ((nameEnd - 1)%nat, UCIOption.set_Name (Join name " ") opt)
  else if p =? "type" then
    withValue parts i opt (fun v => UCIOption.set_Type v)
  else if p =? "default" then
    if UCIOption.Type_ opt =? OptionTypeString then
      defEnd ← scanUntil (length parts) isOptionKeyword parts (i + 1);
      opt' ← (if (i + 1 <? defEnd)%nat
              then d ← slice parts (i + 1) defEnd;
                   Returned (UCIOption.set_Default (Join d " ") opt)
              else Returned opt);
      Returned ((defEnd - 1)%nat, opt')
    else withValue parts i opt (fun v => UCIOption.set_Default v)
  else if p =? "min" then
    withValue parts i opt (fun v => UCIOption.set_Min (Some (Atoi v)))
  else if p =? "max" then
    withValue parts i opt (fun v => UCIOption.set_Max (Some (Atoi v)))
  else if p =? "var" then
    withValue parts i opt (fun v o => UCIOption.set_Vars (UCIOption.Vars o ++ [v])%list o)
  else Returned (i, opt).

Fixpoint optionLoop (fuel : nat) (parts : list string) (i : nat)
    (opt : UCIOption.t) : outcome UCIOption.t :=
  if (i <? length parts)%nat then
    match fuel with
    | O => OutOfFuel
    | S fuel' =>
        '(i', opt') ← optionStep parts i opt;
        optionLoop fuel' parts (i' + 1) opt'
    end
  else Returned opt.

Definition parseOptionLine (parts : list string) : outcome ParsedLine :=
  opt ← optionLoop (length parts) parts 0 UCIOption.zero;
  Returned (PLOption (UCIOption.set_Value (UCIOption.Default opt) opt)).

(** [ParseLine]; [now] is the clock reading taken by [parseInfoLine]. *)
Definition ParseLine (now : GoTime) (line : string) : outcome ParsedLine :=
  let line := TrimSpace line in
  if isEmpty line then Returned PLEmpty
  else
    let parts := Fields line in
    if (length parts =? 0)%nat then Returned PLEmpty
    else
      p0 ← index parts 0;
      if p0 =? "id" then rest ← sliceFrom parts 1; parseIDLine rest
      else if p0 =? "uciok" then Returned PLUciOk
      else if p0 =? "readyok" then Returned PLReadyOk
      else if p0 =? "bestmove" then rest ← sliceFrom parts 1; parseBestMoveLine rest
      else if p0 =? "info" then rest ← sliceFrom parts 1; parseInfoLine now rest
      else if p0 =? "option" then rest ← sliceFrom parts 1; parseOptionLine rest
      else Returned (PLUnknown line).

(** ** parser.go: outbound commands *)

(** [if cond { parts = append(parts, extra...) }] *)
Definition appendIf (cond : bool) (parts extra : list string) : list string :=
  if cond then (parts ++ extra)%list else parts.

(** The slice [parts] at the [return] of [BuildGoCommand]: each [let]
    below is one statement of the source, in source order. *)
Definition goParts (p : GoParams.t) : list string :=
  let parts := [] in
  let parts := (parts ++ ["go"])%list in
  if GoParams.Infinite p then
    (parts ++ ["infinite"])%list
  else
    let parts := appendIf (GoParams.Ponder p) parts ["ponder"] in
    let parts := appendIf (0 <? GoParams.Depth p)%Z parts
                   ["depth"; Itoa (GoParams.Depth p)] in
    let parts := appendIf (0 <? GoParams.Nodes p)%Z parts
                   ["nodes"; FormatInt (GoParams.Nodes p)] in
    let parts := appendIf (0 <? GoParams.MoveTime p)%Z parts
                   ["movetime"; FormatInt (Milliseconds (GoParams.MoveTime p))] in
    let parts := appendIf (0 <? GoParams.WhiteTime p)%Z parts
                   ["wtime"; FormatInt (Milliseconds (GoParams.WhiteTime p))] in
    let parts := appendIf (0 <? GoParams.BlackTime p)%Z parts
                   ["btime"; FormatInt (Milliseconds (GoParams.BlackTime p))] in
    let parts := appendIf (0 <? GoParams.WhiteInc p)%Z parts
                   ["winc"; FormatInt (Milliseconds (GoParams.WhiteInc p))] in
    let parts := appendIf (0 <? GoParams.BlackInc p)%Z parts
                   ["binc"; FormatInt (Milliseconds (GoParams.BlackInc p))] in
    let parts := appendIf (0 <? GoParams.MovesToGo p)%Z parts
                   ["movestogo"; Itoa (GoParams.MovesToGo p)] in
    let parts := appendIf (0 <? length (GoParams.SearchMoves p))%nat parts
                   (["searchmoves"] ++ GoParams.SearchMoves p)%list in
    parts.

Definition BuildGoCommand (p : GoParams.t) : string := Join (goParts p) " ".

Definition BuildPositionCommand (fen : string) (moves : list string) : string :=
  let parts := ["position"] in
  let parts := if (fen =? "") || (fen =? "startpos")
               then (parts ++ ["startpos"])%list
               else (parts ++ ["fen"; fen])%list in
  let parts := if (0 <? length moves)%nat
               then ((parts ++ ["moves"]) ++ moves)%list else parts in
  Join parts " ".

Definition BuildSetOptionCommand (name value : string) : string :=
  if value =? "" then "setoption name " ++ name
  else "setoption name " ++ name ++ " value " ++ value.

(** *** The [go] clauses as the specification lists them

    A second, independent description of the [go] line, following the
    specification's words: the eleven clauses in their fixed order, a
    clause being present when its value is set. *)

Inductive GoClauseKind : Type :=
| KInfinite | KPonder | KDepth | KNodes | KMoveTime | KWTime | KBTime
| KWInc | KBInc | KMovesToGo | KSearchMoves.

#[global] Instance GoClauseKind_eq_dec : EqDecision GoClauseKind.
Proof. solve_decision. Defined.

(** The order in which the specification lists the clauses. *)
Definition specClauseOrder : list GoClauseKind :=
  [KInfinite; KPonder; KDepth; KNodes; KMoveTime; KWTime; KBTime;
   KWInc; KBInc; KMovesToGo; KSearchMoves].

(** A value is set: a true flag, a positive number, a non-empty list. *)
Definition specIsSet (p : GoParams.t) (k : GoClauseKind) : bool :=
  match k with
  | KInfinite => GoParams.Infinite p
  | KPonder => GoParams.Ponder p
  | KDepth => (0 <? GoParams.Depth p)%Z
  | KNodes => (0 <? GoParams.Nodes p)%Z
  | KMoveTime => (0 <? GoParams.MoveTime p)%Z
  | KWTime => (0 <? GoParams.WhiteTime p)%Z
  | KBTime => (0 <? GoParams.BlackTime p)%Z
  | KWInc => (0 <? GoParams.WhiteInc p)%Z
  | KBInc => (0 <? GoParams.BlackInc p)%Z
  | KMovesToGo => (0 <? GoParams.MovesToGo p)%Z
  | KSearchMoves => negb (bool_decide (GoParams.SearchMoves p = []))
  end.

(** The wire tokens of one clause. *)
Definition specClauseTokens (p : GoParams.t) (k : GoClauseKind) : list string :=
  match k with
  | KInfinite => ["infinite"]
  | KPonder => ["ponder"]
  | KDepth => ["depth"; Itoa (GoParams.Depth p)]
  | KNodes => ["nodes"; FormatInt (GoParams.Nodes p)]
  | KMoveTime => ["movetime"; FormatInt (Milliseconds (GoParams.MoveTime p))]
  | KWTime => ["wtime"; FormatInt (Milliseconds (GoParams.WhiteTime p))]
  | KBTime => ["btime"; FormatInt (Milliseconds (GoParams.BlackTime p))]
  | KWInc => ["winc"; FormatInt (Milliseconds (GoParams.WhiteInc p))]
  | KBInc => ["binc"; FormatInt (Milliseconds (GoParams.BlackInc p))]
  | KMovesToGo => ["movestogo"; Itoa (GoParams.MovesToGo p)]
  | KSearchMoves => "searchmoves" :: GoParams.SearchMoves p
  end.

(** The clauses the specification puts on the line: those that are set,
    in the listed order; [infinite] alone when it is set. *)
Definition specGoClauses (p : GoParams.t) : list GoClauseKind :=
  if GoParams.Infinite p then [KInfinite]
  else filter (fun k => specIsSet p k = true) specClauseOrder.

Definition specGoLine (p : GoParams.t) : string :=
  Join ("go" :: concat (specClauseTokens p <$> specGoClauses p)) " ".

(** ** Buffered channels *)

(** A Go channel [make(chan A, cap)]: the buffered values, oldest first,
    and whether [close] was called.  A nil channel behaves as one with
    no capacity and no buffered value: every operation on it waits. *)
Record Chan (A : Type) : Type := mkChan {
  cap : nat;
  buf : list A;
  closed : bool
}.
Arguments mkChan {A} cap buf closed.
Arguments cap {A} c.
Arguments buf {A} c.
Arguments closed {A} c.

Definition makeChan {A : Type} (n : nat) : Chan A := mkChan n [] false.
Definition nilChan {A : Type} : Chan A := mkChan 0 [] false.

(** [len(ch)] *)
Definition chanLen {A : Type} (ch : Chan A) : nat := length (buf ch).

(** The three ways a channel operation can go at a given moment. *)
Inductive ChanOp (R : Type) : Type :=
| OpDone (r : R)       (* the operation can proceed, with this result *)
| OpWait               (* the operation is not ready *)
| OpPanic.             (* send on a closed channel *)
Arguments OpDone {R} r.
Arguments OpWait {R}.
Arguments OpPanic {R}.

(** [ch <- x] *)
Definition chanSend {A : Type} (ch : Chan A) (x : A) : ChanOp (Chan A) :=
  if closed ch then OpPanic
  else if (chanLen ch <? cap ch)%nat
       then OpDone (mkChan (cap ch) (buf ch ++ [x])%list (closed ch))
       else OpWait.

(** [<-ch]: the oldest buffered value; on a closed and drained channel
    the receive proceeds and yields no value. *)
Definition chanRecv {A : Type} (ch : Chan A) : ChanOp (option A * Chan A) :=
  match buf ch with
  | x :: rest => OpDone (Some x, mkChan (cap ch) rest (closed ch))
  | [] => if closed ch then OpDone (None, ch) else OpWait
  end.

(** [close(ch)] (the channels of the engine are closed once, by the
    reader). *)
Definition chanClose {A : Type} (ch : Chan A) : Chan A :=
  mkChan (cap ch) (buf ch) true.

(** ** engine.go *)

Inductive error : Type :=
| ErrEngineNotRunning
| ErrEngineTimeout
| ErrEngineCrashed
| ErrTimeoutWaitingFor (what : string)  (* wraps [ErrEngineTimeout] *)
| ErrAlreadyRunning (st : EngineState)  (* "engine already running (state: %s)" *)
| ErrNotReady (st : EngineState)        (* "engine not ready (state: %s)" *)
| ErrStdinPipe                          (* "stdin pipe: %w" *)
| ErrStdoutPipe                         (* "stdout pipe: %w" *)
| ErrStartProcess                       (* "start process: %w" *)
| ErrWrite                              (* the error of [fmt.Fprintln] *)
| ErrContext.                           (* [ctx.Err()] *)

#[global] Instance error_eq_dec : EqDecision error.
Proof. solve_decision. Defined.

(** [errors.Is(err, ErrEngineTimeout)] *)
Definition isTimeout (err : error) : bool :=
  match err with
  | ErrEngineTimeout | ErrTimeoutWaitingFor _ => true
  | _ => false
  end.

Module Engine.
Record t : Type := mk {
  ID : string;
  Name : string;
  Author : string;
  BinaryPath : string;
  stdin : option (list string);
  state : EngineState;
  options : gmap string UCIOption.t;
  outputCh : Chan ParsedLine;
  infoCh : Chan AnalysisInfo.t;
  cancelled : bool;
  spawned : bool;
  killed : bool;
  stateLog : list EngineState
}.
(** Fields.  [stdin] is nil ([None]) or the pipe, given by the command
    lines written to it so far.  [cancelled] tells whether [e.ctx] is
    done.  [spawned] tells whether [e.process.Process] is non-nil, and
    [killed] records a call of [Process.Kill] on it.  [stateLog] is a
    history variable, not a field of the source: every value assigned to
    [state], oldest first. *)
Definition set_Name v e :=
  mk (ID e) v (Author e) (BinaryPath e) (stdin e) (state e) (options e)
     (outputCh e) (infoCh e) (cancelled e) (spawned e) (killed e) (stateLog e).
Definition set_Author v e :=
  mk (ID e) (Name e) v (BinaryPath e) (stdin e) (state e) (options e)
     (outputCh e) (infoCh e) (cancelled e) (spawned e) (killed e) (stateLog e).
Definition set_stdin v e :=
  mk (ID e) (Name e) (Author e) (BinaryPath e) v (state e) (options e)
     (outputCh e) (infoCh e) (cancelled e) (spawned e) (killed e) (stateLog e).
Definition set_options v e :=
  mk (ID e) (Name e) (Author e) (BinaryPath e) (stdin e) (state e) v
     (outputCh e) (infoCh e) (cancelled e) (spawned e) (killed e) (stateLog e).
Definition set_outputCh v e :=
  mk (ID e) (Name e) (Author e) (BinaryPath e) (stdin e) (state e) (options e)
     v (infoCh e) (cancelled e) (spawned e) (killed e) (stateLog e).
Definition set_infoCh v e :=
  mk (ID e) (Name e) (Author e) (BinaryPath e) (stdin e) (state e) (options e)
     (outputCh e) v (cancelled e) (spawned e) (killed e) (stateLog e).
Definition set_cancelled v e :=
  mk (ID e) (Name e) (Author e) (BinaryPath e) (stdin e) (state e) (options e)
     (outputCh e) (infoCh e) v (spawned e) (killed e) (stateLog e).
Definition set_spawned v e :=
  mk (ID e) (Name e) (Author e) (BinaryPath e) (stdin e) (state e) (options e)
     (outputCh e) (infoCh e) (cancelled e) v (killed e) (stateLog e).
Definition set_killed v e :=
  mk (ID e) (Name e) (Author e) (BinaryPath e) (stdin e) (state e) (options e)
     (outputCh e) (infoCh e) (cancelled e) (spawned e) v (stateLog e).
(** [e.state = v], logged. *)
Definition set_state v e :=
  mk (ID e) (Name e) (Author e) (BinaryPath e) (stdin e) v (options e)
     (outputCh e) (infoCh e) (cancelled e) (spawned e) (killed e) (stateLog e ++ [v])%list.
End Engine.

Definition NewEngine (id binaryPath : string) : Engine.t :=
  Engine.mk id "" "" binaryPath None EngineStateNone ∅ nilChan nilChan false false false [].

(** [State] *)
Definition State (e : Engine.t) : EngineState := Engine.state e.

Definition setState (st : EngineState) (e : Engine.t) : Engine.t :=
  Engine.set_state st e.

(** [sendCommand].  [wok] tells whether [fmt.Fprintln] on the pipe
    succeeds (it fails once the child has gone). *)
Definition sendCommand (wok : bool) (cmd : string) (e : Engine.t)
    : option error * Engine.t :=
  match Engine.stdin e with
  | None => (Some ErrEngineNotRunning, e)
  | Some w =>
      if wok then (None, Engine.set_stdin (Some (w ++ [cmd])%list) e)
      else (Some ErrWrite, e)
  end.

(** [handleLine], run without interruption.  [Blocked] is a send that
    waits with nobody to receive. *)
Inductive effect (A : Type) : Type :=
| Done (a : A)
| Blocked
| Crashed.
Arguments Done {A} a.
Arguments Blocked {A}.
Arguments Crashed {A}.

Definition handleLine (line : ParsedLine) (e : Engine.t) : effect Engine.t :=
  match line with
  | PLInfo info =>
      let info := AnalysisInfo.set_EngineID (Engine.ID e) info in
      match chanSend (Engine.infoCh e) info with
      | OpDone ch => Done (Engine.set_infoCh ch e)
      | OpPanic => Crashed
      | OpWait =>
          (* Channel full, drop oldest *)
          let ch := match chanRecv (Engine.infoCh e) with
                    | OpDone (_, ch) => ch
                    | _ => Engine.infoCh e
                    end in
          match chanSend ch info with
          | OpDone ch' => Done (Engine.set_infoCh ch' e)
          | OpWait => Blocked
          | OpPanic => Crashed
          end
      end
  | PLBestMove _ => Done (setState EngineStateReady e)
  | _ => Done e
  end.

(** What one round of the [select] in [initUCI] and [waitFor] observes:
    a line received from [e.outputCh], the channel closed, the timer
    firing, or the context done. *)
Inductive SelectEvent : Type :=
| EvLine (line : ParsedLine)
| EvClosed
| EvTimer
| EvCtxDone.

(** The outcome of the grace period in [Stop]. *)
Record StopEnv : Type := mkStopEnv {
  quitWriteOk : bool;     (* the write of "quit" succeeds *)
  exitedInGrace : bool    (* [e.doneCh] is closed within 500 ms *)
}.

(** [Stop] *)
Definition Stop (env : StopEnv) (e : Engine.t) : option error * Engine.t :=
  if bool_decide (Engine.state e = EngineStateNone)
     || bool_decide (Engine.state e = EngineStateStopped)
  then (None, e)
  else
    (* Try graceful quit; the error is discarded *)
    let e := snd (sendCommand (quitWriteOk env) "quit" e) in
    let e := if exitedInGrace env then e
             else if Engine.spawned e then Engine.set_killed true e else e in
    let e := Engine.set_cancelled true e in
    let e := setState EngineStateStopped e in
    (None, e).

(** The [for { select { ... } }] of [initUCI], one event per round.  The
    timer is bound to fire, so an event list that ends without a
    deciding event ends with the timer. *)
Fixpoint initUCILoop (events : list SelectEvent) (e : Engine.t)
    : option error * Engine.t :=
  match events with
  | [] => (Some (ErrTimeoutWaitingFor "uciok"), e)
  | EvLine line :: rest =>
      match line with
      | PLIdName name => initUCILoop rest (Engine.set_Name name e)
      | PLIdAuthor author => initUCILoop rest (Engine.set_Author author e)
      | PLOption opt =>
          initUCILoop rest
            (Engine.set_options (<[UCIOption.Name opt := opt]> (Engine.options e)) e)
      | PLUciOk => (None, setState EngineStateReady e)
      | _ => initUCILoop rest e
      end
  | EvClosed :: _ => (Some ErrEngineCrashed, e)
  | EvTimer :: _ => (Some (ErrTimeoutWaitingFor "uciok"), e)
  | EvCtxDone :: _ => (Some ErrContext, e)
  end.

Definition initUCI (uciWriteOk : bool) (events : list SelectEvent) (e : Engine.t)
    : option error * Engine.t :=
  match sendCommand uciWriteOk "uci" e with
  | (Some err, e) => (Some err, e)
  | (None, e) => initUCILoop events e
  end.

(** What [Start] meets outside the engine: whether the context it is
    given is already done, the three steps of spawning the child, the
    write of "uci", the handshake as [initUCI] sees it, and the
    environment of the [Stop] called on a failed handshake. *)
Record StartEnv : Type := mkStartEnv {
  parentDone : bool;
  stdinPipeOk : bool;
  stdoutPipeOk : bool;
  processStartOk : bool;
  uciWriteOk : bool;
  handshake : list SelectEvent;
  stopEnv : StopEnv
}.

(** [Start].  The goroutines it launches ([readLoop], [monitor]) are the
    separate transitions below. *)
Definition Start (env : StartEnv) (e : Engine.t) : option error * Engine.t :=
  if negb (bool_decide (Engine.state e = EngineStateNone))
     && negb (bool_decide (Engine.state e = EngineStateStopped))
     && negb (bool_decide (Engine.state e = EngineStateError))
  then (Some (ErrAlreadyRunning (Engine.state e)), e)
  else
    let e := Engine.set_cancelled (parentDone env) e in
    let e := setState EngineStateStarting e in
    let e := Engine.set_outputCh (makeChan 100) e in
    let e := Engine.set_infoCh (makeChan 100) e in
    (* e.process = exec.CommandContext(e.ctx, e.BinaryPath) *)
    let e := Engine.set_killed false (Engine.set_spawned false e) in
    (* e.stdin, err = e.process.StdinPipe() *)
    if negb (stdinPipeOk env) then
      (Some ErrStdinPipe, setState EngineStateError (Engine.set_stdin None e))
    else
      let e := Engine.set_stdin (Some []) e in
      if negb (stdoutPipeOk env) then
        (Some ErrStdoutPipe, setState EngineStateError e)
      else if negb (processStartOk env) then
        (Some ErrStartProcess, setState EngineStateError e)
      else
        let e := Engine.set_spawned true e in
        match initUCI (uciWriteOk env) (handshake env) e with
        | (Some err, e) => (Some err, snd (Stop (stopEnv env) e))
        | (None, e) => (None, e)
        end.

(** [SetOption] *)
Definition SetOption (wok : bool) (name value : string) (e : Engine.t)
    : option error * Engine.t :=
  if negb (bool_decide (State e = EngineStateReady))
     && negb (bool_decide (State e = EngineStateThinking))
  then (Some ErrEngineNotRunning, e)
  else
    let cmd := BuildSetOptionCommand name value in
    match sendCommand wok cmd e with
    | (Some err, e) => (Some err, e)
    | (None, e) =>
        match Engine.options e !! name with
        | Some opt =>
            (None, Engine.set_options
                     (<[name := UCIOption.set_Value value opt]> (Engine.options e)) e)
        | None => (None, e)
        end
    end.

(** [SetPosition] *)
Definition SetPosition (wok : bool) (fen : string) (moves : list string)
    (e : Engine.t) : option error * Engine.t :=
  if negb (bool_decide (State e = EngineStateReady))
  then (Some ErrEngineNotRunning, e)
  else sendCommand wok (BuildPositionCommand fen moves) e.

(** [Go] *)
Definition Go (wok : bool) (params : GoParams.t) (e : Engine.t)
    : option error * Engine.t :=
  let state := State e in
  if negb (bool_decide (state = EngineStateReady))
  then (Some (ErrNotReady state), e)
  else
    let e := setState EngineStateThinking e in
    let cmd := BuildGoCommand params in
    sendCommand wok cmd e.

(** [StopSearch] *)
Definition StopSearch (wok : bool) (e : Engine.t) : option error * Engine.t :=
  if negb (bool_decide (State e = EngineStateThinking))
     && negb (bool_decide (State e = EngineStatePondering))
  then (None, e)
  else sendCommand wok "stop" e.

(** The loop of [waitFor]; lines other than the awaited one go through
    [handleLine]. *)
Fixpoint waitForLoop (responseType : string) (events : list SelectEvent)
    (e : Engine.t) : effect (option error * Engine.t) :=
  match events with
  | [] => Done (Some (ErrTimeoutWaitingFor responseType), e)
  | EvLine line :: rest =>
      if LineType line =? responseType then Done (None, e)
      else
        match handleLine line e with
        | Done e => waitForLoop responseType rest e
        | Blocked => Blocked
        | Crashed => Crashed
        end
  | EvClosed :: _ => Done (Some ErrEngineCrashed, e)
  | EvTimer :: _ => Done (Some (ErrTimeoutWaitingFor responseType), e)
  | EvCtxDone :: _ => Done (Some ErrContext, e)
  end.

(** [IsReady] *)
Definition IsReady (wok : bool) (events : list SelectEvent) (e : Engine.t)
    : effect (option error * Engine.t) :=
  if bool_decide (State e = EngineStateNone)
     || bool_decide (State e = EngineStateStopped)
  then Done (Some ErrEngineNotRunning, e)
  else
    match sendCommand wok "isready" e with
    | (Some err, e) => Done (Some err, e)
    | (None, e) => waitForLoop "readyok" events e
    end.

(** [monitor], once [e.process.Wait()] has returned; [waitErr] tells
    whether it returned an error. *)
Definition monitor (waitErr : bool) (e : Engine.t) : Engine.t :=
  if waitErr && negb (Engine.cancelled e)
  then setState EngineStateError e
  else e.

(** *** The reader goroutine, one channel operation at a time

    [readLoop] runs concurrently with the goroutines that receive from
    the two channels.  Its control points are the places where it can be
    interleaved with them. *)
Inductive ReaderPC : Type :=
| AtScan                               (* [scanner.Scan()] *)
| AtOutputSend (parsed : ParsedLine)   (* [select { case e.outputCh <- parsed: ... }] *)
| AtHandle (parsed : ParsedLine)       (* entry of [handleLine]; for info, the outer [select] *)
| AtInfoDrop (info : AnalysisInfo.t)   (* the inner [select { case <-e.infoCh: default: }] *)
| AtInfoSend (info : AnalysisInfo.t)   (* the final [e.infoCh <- info] *)
| Exited                               (* returned; the deferred [close]s have run *)
| ReaderPanicked.

Record ReaderSys : Type := mkSys {
  eng : Engine.t;
  pc : ReaderPC
}.

(** The moves of the scheduler. *)
Inductive SchedEvent : Type :=
| SchedLine (now : GoTime) (raw : string)  (* [Scan] yields a line; [now] is the clock *)
| SchedEOF                                 (* [Scan] yields false *)
| SchedReader                              (* the reader performs its pending operation *)
| SchedReaderCtx                           (* the reader takes [<-e.ctx.Done()] *)
| SchedRecvOutput                          (* [initUCI] or [waitFor] receives from [outputCh] *)
| SchedRecvInfo                            (* the consumer of [InfoChannel()] receives *)
| SchedCancel.                             (* [e.cancel()] *)

(** [defer close(e.outputCh); defer close(e.infoCh)] *)
Definition readerExit (e : Engine.t) : ReaderSys :=
  mkSys (Engine.set_outputCh (chanClose (Engine.outputCh e))
           (Engine.set_infoCh (chanClose (Engine.infoCh e)) e))
        Exited.

(** One move; [None] when the move is not possible in this state (the
    goroutine concerned is waiting, or is elsewhere). *)
Definition readerStep (ev : SchedEvent) (s : ReaderSys) : option ReaderSys :=
  let e := eng s in
  match ev, pc s with
  | SchedLine now raw, AtScan =>
      match ParseLine now raw with
      | Returned parsed => Some (mkSys e (AtOutputSend parsed))
      | _ => Some (mkSys e ReaderPanicked)
      end
  | SchedEOF, AtScan => Some (readerExit e)
  | SchedReader, AtOutputSend parsed =>
      match chanSend (Engine.outputCh e) parsed with
      | OpDone ch => Some (mkSys (Engine.set_outputCh ch e) (AtHandle parsed))
      | OpWait => None
      | OpPanic => Some (mkSys e ReaderPanicked)
      end
  | SchedReaderCtx, AtOutputSend _ =>
      if Engine.cancelled e then Some (readerExit e) else None
  | SchedReader, AtHandle (PLInfo info) =>
      let info := AnalysisInfo.set_EngineID (Engine.ID e) info in
      match chanSend (Engine.infoCh e) info with
      | OpDone ch => Some (mkSys (Engine.set_infoCh ch e) AtScan)
      | OpWait => Some (mkSys e (AtInfoDrop info))
      | OpPanic => Some (mkSys e ReaderPanicked)
      end
  | SchedReader, AtHandle (PLBestMove _) =>
      Some (mkSys (setState EngineStateReady e) AtScan)
  | SchedReader, AtHandle _ => Some (mkSys e AtScan)
  | SchedReader, AtInfoDrop info =>
      match chanRecv (Engine.infoCh e) with
      | OpDone (_, ch) => Some (mkSys (Engine.set_infoCh ch e) (AtInfoSend info))
      | _ => Some (mkSys e (AtInfoSend info))
      end
  | SchedReader, AtInfoSend info =>
      match chanSend (Engine.infoCh e) info with
      | OpDone ch => Some (mkSys (Engine.set_infoCh ch e) AtScan)
      | OpWait => None
      | OpPanic => Some (mkSys e ReaderPanicked)
      end
  | SchedRecvOutput, p =>
      match chanRecv (Engine.outputCh e) with
      | OpDone (_, ch) => Some (mkSys (Engine.set_outputCh ch e) p)
      | _ => None
      end
  | SchedRecvInfo, p =>
      match chanRecv (Engine.infoCh e) with
      | OpDone (_, ch) => Some (mkSys (Engine.set_infoCh ch e) p)
      | _ => None
      end
  | SchedCancel, p => Some (mkSys (Engine.set_cancelled true e) p)
  | _, _ => None
  end.

(** A schedule, run from [s]; [None] if one of its moves is not
    possible when its turn comes. *)
Fixpoint readerRun (evs : list SchedEvent) (s : ReaderSys) : option ReaderSys :=
  match evs with
  | [] => Some s
  | ev :: rest =>
      match readerStep ev s with
      | Some s' => readerRun rest s'
      | None => None
      end
  end.

(** The system as [Start] leaves it when it launches [readLoop]: both
    channels fresh, of capacity 100. *)
Definition readerInit (e : Engine.t) : ReaderSys :=
  mkSys (Engine.set_infoCh (makeChan 100) (Engine.set_outputCh (makeChan 100) e))
        AtScan.


(** ** manager.go: the throttle *)

Module EngineManager.
Record t : Type := mk {
  throttleInterval : Duration;
  lastEmit : gmap string GoTime;
  onAnalysis : bool;
  delivered : list AnalysisInfo.t
}.
(** Fields.  [onAnalysis] tells whether a callback is installed (non-nil);
    [delivered] lists the records the callback was invoked with, oldest
    first.  The engine table plays no part in the throttle and is left
    out. *)
End EngineManager.

Definition NewEngineManager : EngineManager.t :=
  EngineManager.mk (50 * Millisecond) ∅ false [].

(** [SetAnalysisCallback] with a non-nil callback. *)
Definition SetAnalysisCallback (m : EngineManager.t) : EngineManager.t :=
  EngineManager.mk (EngineManager.throttleInterval m) (EngineManager.lastEmit m)
    true (EngineManager.delivered m).

(** [SetThrottleRate] *)
Definition SetThrottleRate (hz : Z) (m : EngineManager.t) : EngineManager.t :=
  let hz := if (hz <=? 0)%Z then 20 else hz in
  EngineManager.mk (Z.quot Second hz) (EngineManager.lastEmit m)
    (EngineManager.onAnalysis m) (EngineManager.delivered m).

(** The condition computed by [emitThrottled]. *)
Definition shouldEmit (now : GoTime) (info : AnalysisInfo.t) (m : EngineManager.t)
    : bool :=
  match EngineManager.lastEmit m !! AnalysisInfo.EngineID info with
  | None => true
  | Some last =>
      (EngineManager.throttleInterval m <=? Sub now last)%Z
      || (20 <=? AnalysisInfo.Depth info)%Z
      || (length (AnalysisInfo.PV info) =? 0)%nat
  end.

(** [emitThrottled]; [now] is the reading of [time.Now()]. *)
Definition emitThrottled (now : GoTime) (info : AnalysisInfo.t)
    (m : EngineManager.t) : EngineManager.t :=
  if shouldEmit now info m then
    EngineManager.mk (EngineManager.throttleInterval m)
      (<[AnalysisInfo.EngineID info := now]> (EngineManager.lastEmit m))
      (EngineManager.onAnalysis m)
      (if EngineManager.onAnalysis m
       then (EngineManager.delivered m ++ [info])%list
       else EngineManager.delivered m)
  else m.

(** ** Tables used to state the codec properties *)





(** The score fields that are set are accounted for by keywords among
    the tokens [parts]. *)
Definition scoreFrom (parts : list string) (sc : Score.t) : Prop :=
  (Score.Centipawns sc ≠ None → "cp" ∈ parts)
  ∧ (Score.Mate sc ≠ None → "mate" ∈ parts).

(** ** Engines and environments used to state the session properties *)

(** The handshake ends in the timeout: no [uciok], no closed channel and
    no cancellation is seen before the timer fires. *)
Fixpoint timesOut (events : list SelectEvent) : bool :=
  match events with
  | [] => true
  | EvTimer :: _ => true
  | EvLine PLUciOk :: _ => false
  | EvLine _ :: rest => timesOut rest
  | EvClosed :: _ => false
  | EvCtxDone :: _ => false
  end.

(** The child is spawned and "uci" is written. *)
Definition spawns (env : StartEnv) : bool :=
  stdinPipeOk env && stdoutPipeOk env && processStartOk env && uciWriteOk env.

(** [Start] may proceed from this state. *)
Definition startable (st : EngineState) : bool :=
  match st with
  | EngineStateNone | EngineStateStopped | EngineStateError => true
  | _ => false
  end.

(** An engine that answers the handshake of the specification's
    scenario (f), and one that never answers. *)
Definition stubHandshake : list SelectEvent :=
  [ EvLine (PLIdName "Stub"); EvLine (PLIdAuthor "Tester");
    EvLine (PLOption (UCIOption.mk "Hash" "spin" "16" (Some 1) (Some 1024) [] "16"));
    EvLine PLUciOk ].

Definition stubEnv : StartEnv :=
  mkStartEnv false true true true true stubHandshake (mkStopEnv true true).

Definition silentEnv : StartEnv :=
  mkStartEnv false true true true true [EvTimer] (mkStopEnv true false).

(** The engine of scenario (f) after [Start]: state Ready. *)
Definition readyEngine : Engine.t := snd (Start stubEnv (NewEngine "sf" "/usr/bin/stockfish")).

(** The same engine after [Go] with a depth limit: state Thinking. *)
Definition thinkingEngine : Engine.t :=
  snd (Go true (GoParams.mk false 10 0 0 0 0 0 0 0 [] false) readyEngine).

(** The same engine after [Stop]: state Stopped. *)
Definition stoppedEngine : Engine.t := snd (Stop (mkStopEnv true true) readyEngine).


(** [go] parameters with the ponder flag set. *)
Definition ponderParams : GoParams.t := GoParams.mk false 0 0 0 0 0 0 0 0 [] true.

(** ** Tokens *)

(** A token of the wire protocol: a non-empty string without white
    space. *)
Fixpoint noSpace (s : string) : bool :=
  match s with
  | EmptyString => true
  | String c t => negb (isSpace c) && noSpace t
  end.

Definition isToken (s : string) : bool := negb (isEmpty s) && noSpace s.

(** ** The invariant of the reader *)


(** A schedule that floods the engine: [n] info lines, each received
    from the response channel by a waiting caller, nobody receiving from
    the analysis channel. *)
Definition floodLine : list SchedEvent :=
  [ SchedLine 0 "info depth 3 pv e2e4"; SchedReader; SchedRecvOutput; SchedReader ].

Fixpoint floodSchedule (n : nat) : list SchedEvent :=
  match n with
  | O => []
  | S n' => (floodLine ++ floodSchedule n')%list
  end.

(** ** Tables used to state the properties of the line types *)

(** A line of white space only. *)
Fixpoint allSpace (s : string) : bool :=
  match s with
  | EmptyString => true
  | String c t => isSpace c && allSpace t
  end.

(** A string of 7-bit bytes; on such strings [strings.TrimSpace] and
    [strings.Fields] are exactly the functions above. *)
Fixpoint isASCII (s : string) : bool :=
  match s with
  | EmptyString => true
  | String c t => (nat_of_ascii c <? 128)%nat && isASCII t
  end.

(** The tag of the line whose tokens are [parts]. *)
Definition tagOf (parts : list string) : string :=
  match parts with
  | [] => "empty"
  | p0 :: rest =>
      if p0 =? "id" then
        match rest with
        | k :: _ :: _ =>
            if k =? "name" then "id_name"
            else if k =? "author" then "id_author" else "id"
        | _ => "id"
        end
      else if p0 =? "uciok" then "uciok"
      else if p0 =? "readyok" then "readyok"
      else if p0 =? "bestmove" then "bestmove"
      else if p0 =? "info" then "info"
      else if p0 =? "option" then "option"
      else "unknown"
  end.

(** ** types.go: [itoa] *)

(** [buf[i] = c] on the array [buf]; an index outside it panics. *)
Definition setByte (buf : list ascii) (i : Z) (c : ascii) : outcome (list ascii) :=
  if (0 <=? i)%Z && (i <? Z.of_nat (length buf))%Z
  then Returned (<[Z.to_nat i := c]> buf)
  else Panicked.

(** [byte('0' + d)] *)
Definition digitByte (d : Z) : ascii := ascii_of_nat (Z.to_nat ((48 + d) mod 256)).

(** [for n > 0 { i--; buf[i] = byte('0' + n%10); n /= 10 }] *)
Fixpoint itoaLoop (fuel : nat) (n : Z) (i : Z) (buf : list ascii)
    : outcome (Z * list ascii) :=
  if (0 <? n)%Z then
    match fuel with
    | O => OutOfFuel
    | S fuel' =>
        let i := i - 1 in
        buf ← setByte buf i (digitByte (Z.rem n 10));
        itoaLoop fuel' (Z.quot n 10) i buf
    end
  else Returned (i, buf).

(** [string(buf[i:])] *)
Definition bytesFrom (buf : list ascii) (i : Z) : outcome string :=
  if (0 <=? i)%Z && (i <=? Z.of_nat (length buf))%Z
  then Returned (string_of_list_ascii (drop (Z.to_nat i) buf))
  else Panicked.

(** [itoa(n)]; [n] is an [int], so [-n] wraps around. *)
Definition itoa (n : Z) : outcome string :=
  if (n =? 0)%Z then Returned "0"
  else
    let neg := (n <? 0)%Z in
    let n := if neg then wrap64 (- n) else n in
    let buf := replicate 20%nat Ascii.zero in
    let i := 20 in
    '(i, buf) ← itoaLoop 20 n i buf;
    '(i, buf) ← (if neg
                 then let i := i - 1 in
                      buf ← setByte buf i "-"%char; Returned (i, buf)
                 else Returned (i, buf));
    bytesFrom buf i.

(** ** Handshakes, waits and engines used to state the session properties *)

(** The select loop ends on a line of type [responseType]: such a line
    is received before the timer fires, the channel is closed or the
    context is done. *)
Fixpoint answered (responseType : string) (events : list SelectEvent) : bool :=
  match events with
  | EvLine line :: rest =>
      if LineType line =? responseType then true else answered responseType rest
  | _ => false
  end.

(** The lines received before the one of type [responseType]. *)
Fixpoint linesBefore (responseType : string) (events : list SelectEvent)
    : list ParsedLine :=
  match events with
  | EvLine line :: rest =>
      if LineType line =? responseType then [] else line :: linesBefore responseType rest
  | _ => []
  end.

(** The names, authors and option descriptors among lines, in order. *)
Definition idNames (lines : list ParsedLine) : list string :=
  omap (λ l, match l with PLIdName n => Some n | _ => None end) lines.

Definition idAuthors (lines : list ParsedLine) : list string :=
  omap (λ l, match l with PLIdAuthor a => Some a | _ => None end) lines.

Definition declaredOptions (lines : list ParsedLine) : list UCIOption.t :=
  omap (λ l, match l with PLOption o => Some o | _ => None end) lines.

Definition isBestMoveLine (l : ParsedLine) : bool :=
  match l with PLBestMove _ => true | _ => false end.

(** The engine when [Start] has spawned the child and written "uci". *)
Definition spawnedEngine (env : StartEnv) (e : Engine.t) : Engine.t :=
  Engine.mk (Engine.ID e) (Engine.Name e) (Engine.Author e) (Engine.BinaryPath e)
    (Some ["uci"]) EngineStateStarting (Engine.options e) (makeChan 100) (makeChan 100)
    (parentDone env) true false (Engine.stateLog e ++ [EngineStateStarting])%list.

(** The three steps of spawning the child succeed. *)
Definition childStarts (env : StartEnv) : bool :=
  stdinPipeOk env && stdoutPipeOk env && processStartOk env.

(** The analysis channel is open and within its capacity. *)
Definition infoChOpen (e : Engine.t) : Prop :=
  closed (Engine.infoCh e) = false
  ∧ (0 < cap (Engine.infoCh e))%nat
  ∧ (chanLen (Engine.infoCh e) ≤ cap (Engine.infoCh e))%nat.

(** ** What a schedule of the reader lets be observed *)

(** What a schedule lets be observed from outside the engine: the lines
    the scanner has yielded, parsed, and the values the receivers of the
    two channels have obtained, each oldest first. *)
Record ReaderObs : Type := mkObs {
  scanned : list ParsedLine;
  outputRecvd : list ParsedLine;
  infoRecvd : list AnalysisInfo.t
}.

Definition noObs : ReaderObs := mkObs [] [] [].

(** The observation added by the move [ev] made in state [s]. *)
Definition observe (ev : SchedEvent) (s : ReaderSys) (o : ReaderObs) : ReaderObs :=
  match ev with
  | SchedLine now raw =>
      match pc s, ParseLine now raw with
      | AtScan, Returned parsed =>
          mkObs (scanned o ++ [parsed]) (outputRecvd o) (infoRecvd o)
      | _, _ => o
      end
  | SchedRecvOutput =>
      match chanRecv (Engine.outputCh (eng s)) with
      | OpDone (Some x, _) => mkObs (scanned o) (outputRecvd o ++ [x]) (infoRecvd o)
      | _ => o
      end
  | SchedRecvInfo =>
      match chanRecv (Engine.infoCh (eng s)) with
      | OpDone (Some x, _) => mkObs (scanned o) (outputRecvd o) (infoRecvd o ++ [x])
      | _ => o
      end
  | _ => o
  end.

(** [readerRun], with the observations collected on the way. *)
Fixpoint readerTrace (evs : list SchedEvent) (s : ReaderSys) (o : ReaderObs)
    : option (ReaderSys * ReaderObs) :=
  match evs with
  | [] => Some (s, o)
  | ev :: rest =>
      match readerStep ev s with
      | Some s' => readerTrace rest s' (observe ev s o)
      | None => None
      end
  end.

(** The analysis records of the lines [lines], as [handleLine] stamps
    them for the engine [id]. *)
Definition stamped (id : string) (lines : list ParsedLine) : list AnalysisInfo.t :=
  omap (λ l, match l with
             | PLInfo info => Some (AnalysisInfo.set_EngineID id info)
             | _ => None
             end) lines.

(** The line the reader holds and has not yet put on the response
    channel. *)
Definition pendingOutput (p : ReaderPC) : list ParsedLine :=
  match p with
  | AtOutputSend parsed => [parsed]
  | _ => []
  end.

(** The analysis record the reader holds and has not yet put on the
    analysis channel. *)
Definition pendingInfo (id : string) (p : ReaderPC) : list AnalysisInfo.t :=
  match p with
  | AtOutputSend parsed | AtHandle parsed => stamped id [parsed]
  | AtInfoDrop info | AtInfoSend info => [info]
  | _ => []
  end.

Definition traceInv (id : string) (s : ReaderSys) (o : ReaderObs) : Prop :=
  Engine.ID (eng s) = id
  ∧ cap (Engine.outputCh (eng s)) = 100%nat
  ∧ (chanLen (Engine.outputCh (eng s)) ≤ 100)%nat
  ∧ (∃ lost, scanned o
             = (outputRecvd o ++ buf (Engine.outputCh (eng s))
                ++ pendingOutput (pc s) ++ lost)%list
             ∧ (length lost ≤ 1)%nat
             ∧ (pc s ≠ Exited → pc s ≠ ReaderPanicked → lost = []))
  ∧ (infoRecvd o ++ buf (Engine.infoCh (eng s)) ++ pendingInfo id (pc s))%list
    `sublist_of` stamped id (scanned o).

(** ** manager.go: the engine table *)

(** The errors the manager makes itself, and an engine's error it
    returns as it is. *)
Inductive managerError : Type :=
| ErrAlreadyRegistered (id : string)               (* "engine %s already registered" *)
| ErrNotFound (id : string)                        (* "engine %s not found" *)
| ErrStartEngine (id : string) (err : error)       (* "start engine %s: %w" *)
| ErrEngineNotReady (id : string) (st : EngineState) (* "engine %s not ready (state: %s)" *)
| ErrSetPosition (id : string) (err : error)       (* "set position on %s: %w" *)
| ErrStartAnalysis (id : string) (err : error)     (* "start analysis on %s: %w" *)
| ErrOfEngine (err : error).

(** The fields [engines] and [ctx] of [EngineManager] (the throttle
    fields are [EngineManager.t] above).  The table maps an id to the
    engine object registered under it; a call on that object is followed
    by storing the object back. *)
Module Manager.
Record t : Type := mk {
  engines : gmap string Engine.t;
  ctxDone : bool
}.
Definition store (id : string) (e : Engine.t) (m : t) : t :=
  mk (<[id := e]> (engines m)) (ctxDone m).
End Manager.

(** The table and the context as [NewEngineManager] makes them. *)
Definition NewEngineManager_engines : Manager.t := Manager.mk ∅ false.

(** [RegisterEngine] *)
Definition RegisterEngine (id binaryPath : string) (m : Manager.t)
    : option managerError * Manager.t :=
  match Manager.engines m !! id with
  | Some _ => (Some (ErrAlreadyRegistered id), m)
  | None => (None, Manager.store id (NewEngine id binaryPath) m)
  end.

(** [UnregisterEngine].  The third component is the engine taken out of
    the table, as the call leaves it. *)
Definition UnregisterEngine (env : StopEnv) (id : string) (m : Manager.t)
    : option managerError * Manager.t * option Engine.t :=
  match Manager.engines m !! id with
  | None => (Some (ErrNotFound id), m, None)
  | Some engine =>
      let m := Manager.mk (delete id (Manager.engines m)) (Manager.ctxDone m) in
      let engine :=
        if negb (bool_decide (State engine = EngineStateNone))
           && negb (bool_decide (State engine = EngineStateStopped))
        then snd (Stop env engine) else engine in
      (None, m, Some engine)
  end.

(** [GetEngine] *)
Definition GetEngine (id : string) (m : Manager.t) : managerError + Engine.t :=
  match Manager.engines m !! id with
  | Some engine => inr engine
  | None => inl (ErrNotFound id)
  end.

Module EngineInfo.
Record t : Type := mk {
  ID : string;
  Name : string;
  Author : string;
  BinaryPath : string;
  State : string
}.
End EngineInfo.

(** [ListEngines].  The order is that of the iteration over the map,
    which Go leaves unspecified. *)
Definition ListEngines (m : Manager.t) : list EngineInfo.t :=
  (λ e, EngineInfo.mk (Engine.ID e) (Engine.Name e) (Engine.Author e)
          (Engine.BinaryPath e) (EngineState_String (State e)))
  <$> (snd <$> map_to_list (Manager.engines m)).

(** [engine.Start(m.ctx)]: the context given is the manager's. *)
Definition withParent (done : bool) (env : StartEnv) : StartEnv :=
  mkStartEnv done (stdinPipeOk env) (stdoutPipeOk env) (processStartOk env)
    (uciWriteOk env) (handshake env) (stopEnv env).

(** [StartEngine] *)
Definition StartEngine (env : StartEnv) (id : string) (m : Manager.t)
    : option managerError * Manager.t :=
  match GetEngine id m with
  | inl err => (Some err, m)
  | inr engine =>
      match Start (withParent (Manager.ctxDone m) env) engine with
      | (Some err, engine) => (Some (ErrStartEngine id err), Manager.store id engine m)
      | (None, engine) => (None, Manager.store id engine m)
      end
  end.

(** [StopEngine] *)
Definition StopEngine (env : StopEnv) (id : string) (m : Manager.t)
    : option managerError * Manager.t :=
  match GetEngine id m with
  | inl err => (Some err, m)
  | inr engine =>
      let '(err, engine) := Stop env engine in
      (ErrOfEngine <$> err, Manager.store id engine m)
  end.

(** The loop of [StartAnalysis], from the [i]-th id on; [posOk i] and
    [goOk i] tell whether the two writes to the [i]-th engine succeed. *)
Fixpoint startAnalysisLoop (posOk goOk : nat → bool) (fen : string)
    (moves : list string) (params : GoParams.t) (i : nat) (ids : list string)
    (m : Manager.t) : option managerError * Manager.t :=
  match ids with
  | [] => (None, m)
  | id :: rest =>
      match GetEngine id m with
      | inl err => (Some err, m)
      | inr engine =>
          if negb (bool_decide (State engine = EngineStateReady))
          then (Some (ErrEngineNotReady id (State engine)), m)
          else
            match SetPosition (posOk i) fen moves engine with
            | (Some err, engine) =>
                (Some (ErrSetPosition id err), Manager.store id engine m)
            | (None, engine) =>
                match Go (goOk i) params engine with
                | (Some err, engine) =>
                    (Some (ErrStartAnalysis id err), Manager.store id engine m)
                | (None, engine) =>
                    startAnalysisLoop posOk goOk fen moves params (S i) rest
                      (Manager.store id engine m)
                end
            end
      end
  end.

(** [StartAnalysis] *)
Definition StartAnalysis (posOk goOk : nat → bool) (fen : string)
    (moves : list string) (engineIDs : list string) (params : GoParams.t)
    (m : Manager.t) : option managerError * Manager.t :=
  startAnalysisLoop posOk goOk fen moves params 0 engineIDs m.

(** The loop of [StopAnalysis]; [lastErr] is the variable of that
    name. *)
Fixpoint stopAnalysisLoop (wok : nat → bool) (i : nat) (ids : list string)
    (lastErr : option managerError) (m : Manager.t)
    : option managerError * Manager.t :=
  match ids with
  | [] => (lastErr, m)
  | id :: rest =>
      match GetEngine id m with
      | inl err => stopAnalysisLoop wok (S i) rest (Some err) m
      | inr engine =>
          match StopSearch (wok i) engine with
          | (Some err, engine) =>
              stopAnalysisLoop wok (S i) rest (Some (ErrOfEngine err))
                (Manager.store id engine m)
          | (None, engine) =>
              stopAnalysisLoop wok (S i) rest lastErr (Manager.store id engine m)
          end
      end
  end.

(** [StopAnalysis] *)
Definition StopAnalysis (wok : nat → bool) (engineIDs : list string)
    (m : Manager.t) : option managerError * Manager.t :=
  stopAnalysisLoop wok 0 engineIDs None m.

(** [StopAll]: [Stop] on every engine of the table.  Each call touches
    its own engine only, so the order of the iteration does not matter;
    [env id] is what the call on the engine registered as [id] meets. *)
Definition StopAll (env : string → StopEnv) (m : Manager.t) : Manager.t :=
  Manager.mk (map_imap (λ id e, Some (snd (Stop (env id) e))) (Manager.engines m))
    (Manager.ctxDone m).

(** [Shutdown] *)
Definition Shutdown (env : string → StopEnv) (m : Manager.t) : Manager.t :=
  let m := StopAll env m in
  Manager.mk (Manager.engines m) true.

(** [streamAnalysis], as a function of the records it receives from the
    engine's analysis channel, each with the clock reading
    [emitThrottled] takes for it. *)
Definition streamAnalysis (received : list (GoTime * AnalysisInfo.t))
    (m : EngineManager.t) : EngineManager.t :=
  foldl (λ m r, emitThrottled (fst r) (snd r) m) m received.

(** The records among [received] for which [emitThrottled] decides to
    emit, with their clock readings. *)
Fixpoint emissions (received : list (GoTime * AnalysisInfo.t))
    (m : EngineManager.t) : list (GoTime * AnalysisInfo.t) :=
  match received with
  | [] => []
  | r :: rest =>
      (if shouldEmit (fst r) (snd r) m then [r] else [])
      ++ emissions rest (emitThrottled (fst r) (snd r) m)
  end.

(** Every engine of the table is registered under its own [ID]. *)
Definition wellKeyed (m : Manager.t) : Prop :=
  ∀ id e, Manager.engines m !! id = Some e → Engine.ID e = id.

(** ** app.go: the parameters of an analysis *)

Module AnalysisParams.
Record t : Type := mk {
  FEN : string;
  Moves : list string;
  EngineIDs : list string;
  Infinite : bool;
  Depth : Z;
  MoveTime : Z   (* milliseconds *)
}.
End AnalysisParams.

(** The [GoParams] built by [App.StartAnalysis]. *)
Definition appGoParams (params : AnalysisParams.t) : GoParams.t :=
  let goParams :=
    GoParams.mk (AnalysisParams.Infinite params) (AnalysisParams.Depth params)
      0 0 0 0 0 0 0 [] false in
  let goParams :=
    if (0 <? AnalysisParams.MoveTime params)%Z
    then GoParams.mk (GoParams.Infinite goParams) (GoParams.Depth goParams)
           (GoParams.Nodes goParams)
           (wrap64 (AnalysisParams.MoveTime params * Millisecond))
           (GoParams.WhiteTime goParams) (GoParams.BlackTime goParams)
           (GoParams.WhiteInc goParams) (GoParams.BlackInc goParams)
           (GoParams.MovesToGo goParams) (GoParams.SearchMoves goParams)
           (GoParams.Ponder goParams)
    else goParams in
  (* Default to infinite if nothing specified *)
  if negb (AnalysisParams.Infinite params)
     && (AnalysisParams.Depth params =? 0)%Z
     && (AnalysisParams.MoveTime params =? 0)%Z
  then GoParams.mk true (GoParams.Depth goParams) (GoParams.Nodes goParams)
         (GoParams.MoveTime goParams)
         (GoParams.WhiteTime goParams) (GoParams.BlackTime goParams)
         (GoParams.WhiteInc goParams) (GoParams.BlackInc goParams)
         (GoParams.MovesToGo goParams) (GoParams.SearchMoves goParams)
         (GoParams.Ponder goParams)
  else goParams.

(** [App.StartAnalysis] *)
Definition App_StartAnalysis (posOk goOk : nat → bool) (params : AnalysisParams.t)
    (m : Manager.t) : option managerError * Manager.t :=
  StartAnalysis posOk goOk (AnalysisParams.FEN params) (AnalysisParams.Moves params)
    (AnalysisParams.EngineIDs params) (appGoParams params) m.

(** The engine [e] after a position and a [go] command written with
    success. *)
Definition searching (fen : string) (moves : list string) (params : GoParams.t)
    (e : Engine.t) : Engine.t :=
  snd (Go true params (snd (SetPosition true fen moves e))).

(** The engine is in state Ready with its pipe open. *)
Definition readyToSearch (e : Engine.t) : Prop :=
  State e = EngineStateReady ∧ is_Some (Engine.stdin e).

(* ================================================================== *)
(** * Part II. Properties                                              *)
(* ================================================================== *)

(** ** The codec returns on every input *)

Ltac obind := cbn [mbind outcome_bind mret outcome_ret].

Section Totality.

Implicit Types (parts : list string) (i j fuel : nat).

Lemma index_lt parts i :
  (i < length parts)%nat → ∃ p, index parts i = Returned p.
Proof.
  intros Hi. unfold index.
  destruct (lookup_lt_is_Some_2 parts i Hi) as [p ->]. by exists p.
Qed.

Lemma slice_ok parts lo hi :
  (lo ≤ hi)%nat → (hi ≤ length parts)%nat →
  slice parts lo hi = Returned (take (hi - lo) (drop lo parts)).
Proof.
  intros H1 H2. unfold slice.
  destruct (Nat.leb_spec lo hi); [|lia].
  destruct (Nat.leb_spec hi (length parts)); [done|lia].
Qed.

Lemma sliceFrom_ok parts lo :
  (lo ≤ length parts)%nat → sliceFrom parts lo = Returned (drop lo parts).
Proof.
  intros H. unfold sliceFrom. rewrite slice_ok by lia.
  f_equal. apply take_ge. rewrite length_drop. lia.
Qed.

Lemma withValue_total {A} parts i (a : A) upd :
  ∃ i' a', withValue parts i a upd = Returned (i', a') ∧ (i ≤ i')%nat.
Proof.
  unfold withValue. destruct (Nat.ltb_spec (i + 1) (length parts)) as [Hlt|Hge].
  - destruct (index_lt parts (i + 1) Hlt) as [v ->]. obind.
    eexists _, _. split; [reflexivity|lia].
  - eexists _, _. split; [reflexivity|lia].
Qed.


Lemma parseScoreLoop_total parts : ∀ fuel i sc,
  (length parts ≤ i + fuel)%nat →
  ∃ i' sc', parseScoreLoop fuel parts i sc = Returned (i', sc') ∧ (i ≤ i' + 1)%nat.
Proof.
  induction fuel as [|fuel IH]; intros i sc Hf; cbn [parseScoreLoop].
  - destruct (Nat.ltb_spec i (length parts)); [lia|].
    eexists _, _. split; [reflexivity|lia].
  - destruct (Nat.ltb_spec i (length parts)) as [Hlt|];
      [|eexists _, _; split; [reflexivity|lia]].
    destruct (index_lt parts i Hlt) as [p ->]. obind.
    assert (Hnext : ∀ sc0, ∃ i' sc',
      parseScoreLoop fuel parts (i + 1) sc0 = Returned (i', sc') ∧ (i ≤ i' + 1)%nat).
    { intros sc0. destruct (IH (i + 1)%nat sc0) as (i' & sc' & -> & ?); [lia|].
      eexists _, _. split; [reflexivity|lia]. }
    assert (Hnext2 : ∀ sc0, ∃ i' sc',
      parseScoreLoop fuel parts (i + 1 + 1) sc0 = Returned (i', sc') ∧ (i ≤ i' + 1)%nat).
    { intros sc0. destruct (IH (i + 1 + 1)%nat sc0) as (i' & sc' & -> & ?); [lia|].
      eexists _, _. split; [reflexivity|lia]. }
    destruct (p =? "cp").
    { destruct (Nat.ltb_spec (i + 1) (length parts)) as [Hlt'|]; [|apply Hnext].
      destruct (index_lt parts (i + 1) Hlt') as [v ->]. obind. apply Hnext2. }
    destruct (p =? "mate").
    { destruct (Nat.ltb_spec (i + 1) (length parts)) as [Hlt'|]; [|apply Hnext].
      destruct (index_lt parts (i + 1) Hlt') as [v ->]. obind. apply Hnext2. }
    destruct (p =? "lowerbound"); [apply Hnext|].
    destruct (p =? "upperbound"); [apply Hnext|].
    eexists _, _. split; [reflexivity|lia].
Qed.

Lemma infoStep_total parts i info :
  (i < length parts)%nat →
  ∃ i' info', infoStep parts i info = Returned (i', info') ∧ (i ≤ i')%nat.
Proof.
  intros Hlt. unfold infoStep.
  destruct (index_lt parts i Hlt) as [p ->]. obind.
  repeat lazymatch goal with
  | |- context [if ?b then _ else _] =>
      destruct b; [try apply withValue_total|]
  end.
  - unfold parseScore.
    destruct (parseScoreLoop_total parts (length parts) (i + 1)
                (AnalysisInfo.Score info)) as (i' & sc & -> & ?); [lia|].
    obind. eexists _, _. split; [reflexivity|lia].
  - rewrite sliceFrom_ok by lia. obind. eexists _, _. split; [reflexivity|lia].
  - eexists _, _. split; [reflexivity|lia].
  - eexists _, _. split; [reflexivity|lia].
Qed.

Lemma infoLoop_total parts : ∀ fuel i info,
  (length parts ≤ i + fuel)%nat → ∃ r, infoLoop fuel parts i info = Returned r.
Proof.
  induction fuel as [|fuel IH]; intros i info Hf; cbn [infoLoop].
  - destruct (Nat.ltb_spec i (length parts)); [lia|by eexists].
  - destruct (Nat.ltb_spec i (length parts)) as [Hlt|]; [|by eexists].
    destruct (infoStep_total parts i info Hlt) as (i' & info' & -> & ?). obind.
    apply IH. lia.
Qed.

Lemma scanUntil_total stop parts : ∀ fuel j,
  (length parts ≤ j + fuel)%nat →
  ∃ j', scanUntil fuel stop parts j = Returned j'
        ∧ (j ≤ j')%nat ∧ (j' ≤ Nat.max j (length parts))%nat.
Proof.
  induction fuel as [|fuel IH]; intros j Hf; cbn [scanUntil].
  - destruct (Nat.ltb_spec j (length parts)); [lia|]. exists j. split; [done|lia].
  - destruct (Nat.ltb_spec j (length parts)) as [Hlt|]; [|exists j; split; [done|lia]].
    destruct (index_lt parts j Hlt) as [p ->]. obind.
    destruct (stop p); [exists j; split; [done|lia]|].
    destruct (IH (j + 1)%nat) as (j' & -> & ? & ?); [lia|].
    exists j'. split; [done|lia].
Qed.

Lemma optionStep_total parts i opt :
  (i < length parts)%nat →
  ∃ i' opt', optionStep parts i opt = Returned (i', opt') ∧ (i ≤ i')%nat.
Proof.
  intros Hlt. unfold optionStep.
  destruct (index_lt parts i Hlt) as [p ->]. obind.
  destruct (p =? "name").
  { destruct (scanUntil_total (λ s, s =? "type") parts (length parts) (i + 1))
      as (j & -> & ? & ?); [lia|]. obind.
    rewrite slice_ok by lia. obind. eexists _, _. split; [reflexivity|lia]. }
  destruct (p =? "type"); [apply withValue_total|].
  destruct (p =? "default").
  { destruct (UCIOption.Type_ opt =? OptionTypeString); [|apply withValue_total].
    destruct (scanUntil_total isOptionKeyword parts (length parts) (i + 1))
      as (j & -> & ? & ?); [lia|]. obind.
    destruct (Nat.ltb_spec (i + 1) j).
    - rewrite slice_ok by lia. obind. eexists _, _. split; [reflexivity|lia].
    - obind. eexists _, _. split; [reflexivity|lia]. }
  destruct (p =? "min"); [apply withValue_total|].
  destruct (p =? "max"); [apply withValue_total|].
  destruct (p =? "var"); [apply withValue_total|].
  eexists _, _. split; [reflexivity|lia].
Qed.

Lemma optionLoop_total parts : ∀ fuel i opt,
  (length parts ≤ i + fuel)%nat → ∃ r, optionLoop fuel parts i opt = Returned r.
Proof.
  induction fuel as [|fuel IH]; intros i opt Hf; cbn [optionLoop].
  - destruct (Nat.ltb_spec i (length parts)); [lia|by eexists].
  - destruct (Nat.ltb_spec i (length parts)) as [Hlt|]; [|by eexists].
    destruct (optionStep_total parts i opt Hlt) as (i' & opt' & -> & ?). obind.
    apply IH. lia.
Qed.



Lemma parseInfoLine_total now parts :
  ∃ info, parseInfoLine now parts = Returned (PLInfo info).
Proof.
  unfold parseInfoLine.
  destruct (infoLoop_total parts (length parts) 0
    (AnalysisInfo.mk "" 0 0 Score.zero 0 0 0 [] 0 "" 0 0 0 now)) as [r ->]; [lia|].
  by eexists.
Qed.

Lemma parseOptionLine_total parts : ∃ opt, parseOptionLine parts = Returned (PLOption opt).
Proof.
  unfold parseOptionLine.
  destruct (optionLoop_total parts (length parts) 0 UCIOption.zero) as [r ->]; [lia|].
  by eexists.
Qed.


End Totality.

(** ** Permissive scanning of info lines *)












(** Ill-formed lines: a truncated value, a malformed number, vendor
    keywords. *)
Example ParseLine_truncated_value :
  ParseLine 0 "info depth 12 nodes" =
  Returned (PLInfo (AnalysisInfo.set_Depth 12 AnalysisInfo.zero)).
Proof. reflexivity. Qed.

Example ParseLine_malformed_number :
  ParseLine 0 "info depth 1x nodes 5 pv e2e4" =
  Returned (PLInfo (AnalysisInfo.set_PV ["e2e4"]
                      (AnalysisInfo.set_Nodes 5 AnalysisInfo.zero))).
Proof. reflexivity. Qed.

Example ParseLine_extra_keywords :
  ParseLine 0 "info wdl depth 7 refutation seldepth 9" =
  Returned (PLInfo (AnalysisInfo.set_SelDepth 9
                      (AnalysisInfo.set_Depth 7 AnalysisInfo.zero))).
Proof. reflexivity. Qed.

(** ** Which score fields a line can set *)

Section ScoreFields.

Implicit Types (parts : list string) (sc : Score.t) (info : AnalysisInfo.t).

Lemma index_inv parts i p : index parts i = Returned p → parts !! i = Some p.
Proof. unfold index. destruct (parts !! i); by inversion 1. Qed.

Lemma outcome_bind_inv {A B} (m : outcome A) (f : A → outcome B) b :
  (m ≫= f) = Returned b → ∃ a, m = Returned a ∧ f a = Returned b.
Proof. destruct m; cbn; [by eauto|done|done]. Qed.

Lemma withValue_inv {A} parts i (a : A) upd i' a' :
  withValue parts i a upd = Returned (i', a') → a' = a ∨ ∃ v, a' = upd v a.
Proof.
  unfold withValue. destruct (i + 1 <? length parts)%nat.
  - intros (v & _ & [= _ <-])%outcome_bind_inv. eauto.
  - intros [= _ <-]. by left.
Qed.

Lemma parseScoreLoop_from parts : ∀ fuel i sc i' sc',
  scoreFrom parts sc →
  parseScoreLoop fuel parts i sc = Returned (i', sc') → scoreFrom parts sc'.
Proof.
  induction fuel as [|fuel IH]; intros i sc i' sc' Hsc; cbn [parseScoreLoop].
  - destruct (i <? length parts)%nat; [done|]. by intros [= _ <-].
  - destruct (i <? length parts)%nat; [|by intros [= _ <-]].
    intros (p & Hp%index_inv & H)%outcome_bind_inv. revert H.
    destruct (String.eqb_spec p "cp") as [->|_].
    { destruct (i + 1 <? length parts)%nat; [|by apply IH].
      intros (v & _ & H)%outcome_bind_inv. revert H. apply IH.
      split; [intros _; by eapply list_elem_of_lookup_2|apply Hsc]. }
    destruct (String.eqb_spec p "mate") as [->|_].
    { destruct (i + 1 <? length parts)%nat; [|by apply IH].
      intros (v & _ & H)%outcome_bind_inv. revert H. apply IH.
      split; [apply Hsc|intros _; by eapply list_elem_of_lookup_2]. }
    destruct (p =? "lowerbound"); [by apply IH|].
    destruct (p =? "upperbound"); [by apply IH|].
    by intros [= _ <-].
Qed.

Lemma infoStep_from parts i info i' info' :
  scoreFrom parts (AnalysisInfo.Score info) →
  infoStep parts i info = Returned (i', info') →
  scoreFrom parts (AnalysisInfo.Score info').
Proof.
  intros Hsc. unfold infoStep.
  intros (p & _ & H)%outcome_bind_inv. revert H.
  repeat lazymatch goal with
  | |- (if (p =? "score") then _ else _) = _ → _ =>
      destruct (p =? "score");
      [intros ([j sc] & Hps & [= _ <-])%outcome_bind_inv;
       by eapply parseScoreLoop_from|]
  | |- (if (p =? "pv") then _ else _) = _ → _ =>
      destruct (p =? "pv");
      [by intros (pv & _ & [= _ <-])%outcome_bind_inv|]
  | |- (if (p =? "string") then _ else _) = _ → _ =>
      destruct (p =? "string"); [by intros [= _ <-]|]
  | |- (if ?b then _ else _) = _ → _ =>
      destruct b; [by intros [->|[v ->]]%withValue_inv|]
  end.
  by intros [= _ <-].
Qed.

Lemma infoLoop_from parts : ∀ fuel i info info',
  scoreFrom parts (AnalysisInfo.Score info) →
  infoLoop fuel parts i info = Returned info' →
  scoreFrom parts (AnalysisInfo.Score info').
Proof.
  induction fuel as [|fuel IH]; intros i info info' Hsc; cbn [infoLoop].
  - destruct (i <? length parts)%nat; [done|]. by intros [= <-].
  - destruct (i <? length parts)%nat; [|by intros [= <-]].
    intros ([j info1] & Hstep & H)%outcome_bind_inv.
    eapply IH; [|exact H]. by eapply infoStep_from.
Qed.

Lemma parseInfoLine_from now parts info :
  parseInfoLine now parts = Returned (PLInfo info) →
  scoreFrom parts (AnalysisInfo.Score info).
Proof.
  unfold parseInfoLine. intros (info1 & H & [= <-])%outcome_bind_inv.
  eapply infoLoop_from; [|exact H]. by split.
Qed.

End ScoreFields.

Lemma parseIDLine_not_info parts info : parseIDLine parts ≠ Returned (PLInfo info).
Proof.
  unfold parseIDLine. destruct (length parts <? 2)%nat; [done|].
  intros (p & _ & H)%outcome_bind_inv. revert H.
  destruct (p =? "name"); [by intros (? & _ & [=])%outcome_bind_inv|].
  destruct (p =? "author"); [by intros (? & _ & [=])%outcome_bind_inv|done].
Qed.

Lemma parseBestMoveLine_not_info parts info :
  parseBestMoveLine parts ≠ Returned (PLInfo info).
Proof.
  unfold parseBestMoveLine.
  intros (? & _ & (? & _ & [=])%outcome_bind_inv)%outcome_bind_inv.
Qed.

Lemma parseOptionLine_not_info parts info :
  parseOptionLine parts ≠ Returned (PLInfo info).
Proof. unfold parseOptionLine. intros (? & _ & [=])%outcome_bind_inv. Qed.

(** An info record comes from a line whose first token is [info]; the
    record is the scan of the tokens behind it. *)
Lemma ParseLine_info_inv now line info :
  ParseLine now line = Returned (PLInfo info) →
  parseInfoLine now (drop 1 (Fields (TrimSpace line))) = Returned (PLInfo info).
Proof.
  unfold ParseLine. destruct (isEmpty (TrimSpace line)); [done|].
  destruct (Nat.eqb_spec (length (Fields (TrimSpace line))) 0); [done|].
  intros (p & _ & H)%outcome_bind_inv. revert H.
  rewrite sliceFrom_ok by lia. obind.
  destruct (p =? "id"); [intros H; by apply parseIDLine_not_info in H|].
  destruct (p =? "uciok"); [done|].
  destruct (p =? "readyok"); [done|].
  destruct (p =? "bestmove"); [intros H; by apply parseBestMoveLine_not_info in H|].
  destruct (p =? "info"); [done|].
  destruct (p =? "option"); [intros H; by apply parseOptionLine_not_info in H|done].
Qed.

(** The score of a parsed info line has its centipawns field set only
    if the line carries the token [cp], and its mate field only if the
    line carries the token [mate]: a line on which the two tokens do not
    both occur never yields both fields. *)
Theorem score_fields_from_tokens now line info :
  ParseLine now line = Returned (PLInfo info) →
  ¬ ("cp" ∈ Fields (TrimSpace line) ∧ "mate" ∈ Fields (TrimSpace line)) →
  ¬ (Score.Centipawns (AnalysisInfo.Score info) ≠ None
     ∧ Score.Mate (AnalysisInfo.Score info) ≠ None).
Proof.
  intros H%ParseLine_info_inv%parseInfoLine_from Hno [Hcp Hmate].
  destruct H as [H1 H2]. apply Hno. split.
  - eapply (subseteq_drop 1), H1, Hcp.
  - eapply (subseteq_drop 1), H2, Hmate.
Qed.

Lemma score_fields_from_tokens_witness :
  ¬ (Score.Centipawns (Score.mk None (Some 5) false false) ≠ None
     ∧ Score.Mate (Score.mk None (Some 5) false false) ≠ None).
Proof.
  apply (score_fields_from_tokens 0 "info depth 30 score mate 5 pv d8h4 g2g3 h4g3"
           (AnalysisInfo.mk "" 30 0 (Score.mk None (Some 5) false false) 0 0 0
              ["d8h4"; "g2g3"; "h4g3"] 0 "" 0 0 0 0)).
  - reflexivity.
  - intros [Hcp _]. vm_compute in Hcp.
    repeat (apply elem_of_cons in Hcp as [Hcp|Hcp]; [discriminate Hcp|]).
    by apply elem_of_nil in Hcp.
Defined.

(** C9.  The info line [info depth 12 score cp 10 mate 3] is parsed
    into a score whose centipawns field and mate field are both set:
    the scanner of the score section stores each of the two clauses and
    clears neither. *)
Theorem parseScore_sets_both_fields :
  ∃ info,
    ParseLine 0 "info depth 12 score cp 10 mate 3" = Returned (PLInfo info)
    ∧ Score.Centipawns (AnalysisInfo.Score info) = Some 10
    ∧ Score.Mate (AnalysisInfo.Score info) = Some 3.
Proof. eexists. split; [reflexivity|]. split; reflexivity. Qed.

(** The invariant "never both" fails for the parser. *)
Lemma score_exactly_one_fails :
  ¬ (∀ now line info,
       ParseLine now line = Returned (PLInfo info) →
       ¬ (Score.Centipawns (AnalysisInfo.Score info) ≠ None
          ∧ Score.Mate (AnalysisInfo.Score info) ≠ None)).
Proof.
  intros H.
  apply (H 0 "info score cp 10 mate 3"
           (AnalysisInfo.set_Score (Score.mk (Some 10) (Some 3) false false)
              AnalysisInfo.zero)); [reflexivity|].
  split; discriminate.
Qed.

(** ** The [go] command line *)

Lemma appendIf_app cond parts extra :
  appendIf cond parts extra = (parts ++ if cond then extra else [])%list.
Proof. destruct cond; cbn; [done|by rewrite app_nil_r]. Qed.

Lemma specClauses_step p k l :
  concat (specClauseTokens p <$> filter (λ k, specIsSet p k = true) (k :: l))
  = ((if specIsSet p k then specClauseTokens p k else [])
     ++ concat (specClauseTokens p <$> filter (λ k, specIsSet p k = true) l))%list.
Proof.
  rewrite filter_cons. destruct (decide (specIsSet p k = true)) as [->|H].
  - reflexivity.
  - by apply not_true_is_false in H as ->.
Qed.

Lemma searchMoves_set (sm : list string) :
  (0 <? length sm)%nat = negb (bool_decide (sm = [])).
Proof. by destruct sm. Qed.

Lemma goParts_spec p :
  goParts p = "go" :: concat (specClauseTokens p <$> specGoClauses p).
Proof.
  unfold goParts, specGoClauses, specClauseOrder.
  destruct (GoParams.Infinite p) eqn:Hinf; [reflexivity|].
  cbv zeta. rewrite !appendIf_app, searchMoves_set, !specClauses_step.
  cbn [specIsSet specClauseTokens]. rewrite Hinf, filter_nil.
  cbn [fmap list_fmap concat app]. rewrite <- !app_assoc, app_nil_r.
  reflexivity.
Qed.

Lemma specGoClauses_ordered p : specGoClauses p `sublist_of` specClauseOrder.
Proof.
  unfold specGoClauses. destruct (GoParams.Infinite p).
  - apply sublist_skip, sublist_nil_l.
  - apply sublist_filter.
Qed.

Lemma specGoClauses_set p k : k ∈ specGoClauses p → specIsSet p k = true.
Proof.
  unfold specGoClauses. destruct (GoParams.Infinite p) eqn:Hinf.
  - intros ->%list_elem_of_singleton. exact Hinf.
  - by intros [? _]%list_elem_of_filter.
Qed.

Lemma specGoClauses_complete p k :
  GoParams.Infinite p = false → specIsSet p k = true → k ∈ specGoClauses p.
Proof.
  intros Hinf Hk. unfold specGoClauses. rewrite Hinf.
  apply list_elem_of_filter. split; [done|].
  unfold specClauseOrder. destruct k; set_solver.
Qed.

(** *** Lexing a joined line gives the tokens back *)

Lemma append_assoc_string (a b c : string) : (a ++ b) ++ c = a ++ (b ++ c).
Proof.
  induction a as [|x a IH]; [reflexivity|].
  change (String x ((a ++ b) ++ c) = String x (a ++ (b ++ c))). by f_equal.
Qed.

Lemma append_empty_r (a : string) : a ++ "" = a.
Proof.
  induction a as [|x a IH]; [reflexivity|].
  change (String x (a ++ "") = String x a). by f_equal.
Qed.

Lemma fieldsFrom_token (t rest cur : string) :
  noSpace t = true → fieldsFrom (t ++ rest) cur = fieldsFrom rest (cur ++ t).
Proof.
  revert cur. induction t as [|c t IH]; intros cur Ht.
  - by rewrite append_empty_r.
  - cbn [noSpace] in Ht. apply andb_prop in Ht as [Hc Ht].
    apply negb_true_iff in Hc.
    change (String c t ++ rest) with (String c (t ++ rest)).
    cbn [fieldsFrom]. rewrite Hc, (IH _ Ht), append_assoc_string. done.
Qed.

Lemma isToken_append_nonempty (cur t : string) :
  isToken t = true → isEmpty (cur ++ t) = false.
Proof.
  unfold isToken. intros [Hne _]%andb_prop. apply negb_true_iff in Hne.
  destruct cur; [done|done].
Qed.

Lemma Fields_Join (l : list string) :
  Forall (λ t, isToken t = true) l → Fields (Join l " ") = l.
Proof.
  unfold Fields. induction 1 as [|t rest Ht Hrest IH]; [done|].
  pose proof Ht as [Hne Hns]%andb_prop.
  destruct rest as [|t' rest'].
  - cbn [Join]. rewrite <- (append_empty_r t) at 1.
    rewrite (fieldsFrom_token _ _ _ Hns). cbn [fieldsFrom append].
    by rewrite (isToken_append_nonempty "" t Ht).
  - change (Join (t :: t' :: rest') " ") with (t ++ " " ++ Join (t' :: rest') " ").
    rewrite (fieldsFrom_token _ _ _ Hns).
    change (" " ++ Join (t' :: rest') " ") with (String " " (Join (t' :: rest') " ")).
    cbn [fieldsFrom append].
    change (isSpace " ") with true. cbn match.
    rewrite (isToken_append_nonempty "" t Ht). cbn [append]. by rewrite IH.
Qed.

Lemma string_of_uint_digits (d : Decimal.uint) :
  noSpace (NilEmpty.string_of_uint d) = true.
Proof. induction d; cbn [NilEmpty.string_of_uint noSpace]; [done|by rewrite IHd..]. Qed.

Lemma FormatInt_token (z : Z) : isToken (FormatInt z) = true.
Proof.
  unfold FormatInt, NilZero.string_of_int, NilZero.string_of_uint, isToken.
  destruct (Z.to_int z) as [d|d]; destruct d; try done;
    cbn [NilEmpty.string_of_uint isEmpty negb andb noSpace];
    rewrite ?string_of_uint_digits; done.
Qed.

Lemma specClauseTokens_tokens p k :
  Forall (λ t, isToken t = true) (GoParams.SearchMoves p) →
  Forall (λ t, isToken t = true) (specClauseTokens p k).
Proof.
  intros Hsm. destruct k; cbn [specClauseTokens];
    repeat (apply Forall_cons; split; [first [reflexivity|apply FormatInt_token]|]);
    first [apply Forall_nil_2|exact Hsm].
Qed.

Lemma goParts_tokens p :
  Forall (λ t, isToken t = true) (GoParams.SearchMoves p) →
  Forall (λ t, isToken t = true) (goParts p).
Proof.
  intros Hsm. rewrite goParts_spec. apply Forall_cons. split; [done|].
  apply Forall_concat, Forall_fmap, Forall_forall.
  intros k _. by apply specClauseTokens_tokens.
Qed.

(** C8.  The tokens of the serialized go command are [go] followed by
    the tokens of the clauses the specification lists: the clauses are
    taken in the order infinite, ponder, depth, nodes, movetime, wtime,
    btime, winc, binc, movestogo, searchmoves; every clause on the line
    has its value set (a true flag, a positive number, a non-empty
    list); unless infinite is set, every clause whose value is set is on
    the line; when infinite is set the line is exactly
    [go infinite]; and, the search moves being tokens, splitting the
    line at white space gives exactly these tokens back. *)
Theorem BuildGoCommand_clauses p :
  goParts p = "go" :: concat (specClauseTokens p <$> specGoClauses p)
  ∧ BuildGoCommand p = specGoLine p
  ∧ specGoClauses p `sublist_of` specClauseOrder
  ∧ (∀ k, k ∈ specGoClauses p → specIsSet p k = true)
  ∧ (GoParams.Infinite p = false →
     ∀ k, specIsSet p k = true → k ∈ specGoClauses p)
  ∧ (GoParams.Infinite p = true →
     specGoClauses p = [KInfinite] ∧ BuildGoCommand p = "go infinite")
  ∧ (Forall (λ m, isToken m = true) (GoParams.SearchMoves p) →
     Fields (BuildGoCommand p)
     = "go" :: concat (specClauseTokens p <$> specGoClauses p)).
Proof.
  split; [apply goParts_spec|].
  split; [unfold BuildGoCommand, specGoLine; by rewrite goParts_spec|].
  split; [apply specGoClauses_ordered|].
  split; [apply specGoClauses_set|].
  split; [intros Hinf k; by apply specGoClauses_complete|].
  split.
  - intros Hinf. unfold BuildGoCommand, goParts, specGoClauses. by rewrite Hinf.
  - intros Hsm. unfold BuildGoCommand.
    rewrite (Fields_Join _ (goParts_tokens p Hsm)). apply goParts_spec.
Qed.

Lemma BuildGoCommand_clauses_witness :
  let p := GoParams.mk false 0 0 0 300000000000 300000000000
                       3000000000 3000000000 0 [] false in
  BuildGoCommand p = "go wtime 300000 btime 300000 winc 3000 binc 3000"
  ∧ specGoClauses p = [KWTime; KBTime; KWInc; KBInc]
  ∧ KWInc ∈ specGoClauses p
  ∧ BuildGoCommand (GoParams.mk true 9 0 0 0 0 0 0 0 ["e2e4"] true) = "go infinite"
  ∧ Fields (BuildGoCommand (GoParams.mk false 10 0 0 0 0 0 0 0 ["e2e4"; "d2d4"] false))
    = ["go"; "depth"; "10"; "searchmoves"; "e2e4"; "d2d4"].
Proof.
  intros p.
  destruct (BuildGoCommand_clauses p) as (_ & Hline & _ & _ & Hall & _).
  destruct (BuildGoCommand_clauses (GoParams.mk true 9 0 0 0 0 0 0 0 ["e2e4"] true))
    as (_ & _ & _ & _ & _ & Hinf & _).
  destruct (BuildGoCommand_clauses
              (GoParams.mk false 10 0 0 0 0 0 0 0 ["e2e4"; "d2d4"] false))
    as (_ & _ & _ & _ & _ & _ & Hlex).
  split; [rewrite Hline; reflexivity|].
  split; [reflexivity|].
  split; [apply Hall; reflexivity|].
  split; [apply Hinf; reflexivity|].
  rewrite Hlex; [reflexivity|].
  repeat (apply Forall_cons; split; [reflexivity|]). apply Forall_nil_2.
Defined.

(** The command lines of the unit tests. *)
Example BuildGoCommand_depth :
  BuildGoCommand (GoParams.mk false 20 0 0 0 0 0 0 0 [] false) = "go depth 20".
Proof. reflexivity. Qed.

Example BuildGoCommand_searchmoves :
  BuildGoCommand (GoParams.mk false 10 0 0 0 0 0 0 0 ["e2e4"; "d2d4"] false)
  = "go depth 10 searchmoves e2e4 d2d4".
Proof. reflexivity. Qed.

(** ** The throttle *)

(** The four conditions of the specification, on the state of the
    manager when the record arrives. *)
Lemma shouldEmit_iff now info m :
  shouldEmit now info m = true ↔
    EngineManager.lastEmit m !! AnalysisInfo.EngineID info = None
    ∨ (∃ last, EngineManager.lastEmit m !! AnalysisInfo.EngineID info = Some last
               ∧ (EngineManager.throttleInterval m ≤ Sub now last)%Z)
    ∨ (20 ≤ AnalysisInfo.Depth info)%Z
    ∨ AnalysisInfo.PV info = [].
Proof.
  unfold shouldEmit.
  destruct (EngineManager.lastEmit m !! AnalysisInfo.EngineID info) as [last|].
  - rewrite !orb_true_iff, !Z.leb_le, Nat.eqb_eq, length_zero_iff_nil.
    split.
    + intros [[H|H]|H]; [right; left; by exists last|by right; right; left|by do 3 right].
    + intros [H|[(l & [= <-] & H)|[H|H]]]; [done|by left; left|by left; right|by right].
  - split; [by left|done].
Qed.

(** C4.  With a sink installed, a record reaching [emitThrottled] is
    handed to the sink if and only if (a) no emission is recorded for
    its engine, or (b) the time since the last one is at least the
    interval, or (c) its depth is at least 20, or (d) its principal
    variation is empty; otherwise the manager is left as it was and the
    record is gone.  [SetThrottleRate] with [hz <= 0] sets the interval
    of 20 Hz, 50 ms. *)
Theorem emitThrottled_forwards_iff now info m :
  EngineManager.onAnalysis m = true →
  let cond :=
    EngineManager.lastEmit m !! AnalysisInfo.EngineID info = None
    ∨ (∃ last, EngineManager.lastEmit m !! AnalysisInfo.EngineID info = Some last
               ∧ (EngineManager.throttleInterval m ≤ Sub now last)%Z)
    ∨ (20 ≤ AnalysisInfo.Depth info)%Z
    ∨ AnalysisInfo.PV info = [] in
  (EngineManager.delivered (emitThrottled now info m)
     = (EngineManager.delivered m ++ [info])%list ↔ cond)
  ∧ (cond → EngineManager.lastEmit (emitThrottled now info m)
            = <[AnalysisInfo.EngineID info := now]> (EngineManager.lastEmit m))
  ∧ (¬ cond → emitThrottled now info m = m)
  ∧ (∀ hz, (hz ≤ 0)%Z →
       SetThrottleRate hz m = SetThrottleRate 20 m
       ∧ EngineManager.throttleInterval (SetThrottleRate hz m) = 50 * Millisecond).
Proof.
  intros Hcb cond.
  assert (Hc : shouldEmit now info m = true ↔ cond) by apply shouldEmit_iff.
  unfold emitThrottled. rewrite Hcb.
  destruct (shouldEmit now info m) eqn:Hs.
  - assert cond by by apply Hc.
    split; [done|]. split; [done|]. split; [done|].
    intros hz Hhz. unfold SetThrottleRate.
    destruct (Z.leb_spec hz 0); [done|lia].
  - assert (¬ cond) by (intros Hcond; apply Hc in Hcond; done).
    split.
    { split; [|done]. intros Heq. apply (f_equal length) in Heq.
      rewrite length_app in Heq. cbn in Heq. lia. }
    split; [done|]. split; [done|].
    intros hz Hhz. unfold SetThrottleRate.
    destruct (Z.leb_spec hz 0); [done|lia].
Qed.

Lemma emitThrottled_forwards_iff_witness :
  let m := EngineManager.mk (50 * Millisecond) {["sf" := 1000000000]} true [] in
  let deep := AnalysisInfo.set_PV ["e2e4"]
                (AnalysisInfo.set_Depth 22 (AnalysisInfo.set_EngineID "sf" AnalysisInfo.zero)) in
  let shallow := AnalysisInfo.set_PV ["e2e4"]
                (AnalysisInfo.set_Depth 9 (AnalysisInfo.set_EngineID "sf" AnalysisInfo.zero)) in
  EngineManager.delivered (emitThrottled 1000000001 deep m) = [deep]
  ∧ emitThrottled 1000000001 shallow m = m
  ∧ EngineManager.throttleInterval (SetThrottleRate (-3) m) = 50000000.
Proof.
  intros m deep shallow.
  destruct (emitThrottled_forwards_iff 1000000001 deep m eq_refl)
    as ([_ Hfwd] & _ & _ & _).
  destruct (emitThrottled_forwards_iff 1000000001 shallow m eq_refl)
    as (_ & _ & Hdrop & Hrate).
  split; [apply Hfwd; right; right; left; cbn; lia|].
  split.
  - apply Hdrop. intros [H|[(last & H & Hle)|[H|H]]].
    + discriminate H.
    + vm_compute in H. injection H as <-. vm_compute in Hle. by apply Hle.
    + vm_compute in H. by apply H.
    + discriminate H.
  - apply (Hrate (-3)). lia.
Defined.

(** ** The session: state transitions of the operations *)

Section Session.

Implicit Types (e : Engine.t) (env : StartEnv) (wok : bool).

Lemma sendCommand_state wok cmd e :
  Engine.state (snd (sendCommand wok cmd e)) = Engine.state e
  ∧ Engine.stateLog (snd (sendCommand wok cmd e)) = Engine.stateLog e
  ∧ Engine.options (snd (sendCommand wok cmd e)) = Engine.options e
  ∧ Engine.infoCh (snd (sendCommand wok cmd e)) = Engine.infoCh e.
Proof. unfold sendCommand. destruct (Engine.stdin e), wok; done. Qed.



Lemma sendCommand_err wok cmd e err :
  fst (sendCommand wok cmd e) = Some err →
  err = ErrEngineNotRunning ∨ err = ErrWrite.
Proof.
  unfold sendCommand. destruct (Engine.stdin e), wok; cbn; intros [= <-]; auto.
Qed.

Lemma sendCommand_wire wok cmd e :
  fst (sendCommand wok cmd e) = None →
  Engine.stdin (snd (sendCommand wok cmd e))
  = (λ w, (w ++ [cmd])%list) <$> Engine.stdin e.
Proof. unfold sendCommand. destruct (Engine.stdin e), wok; done. Qed.

Lemma initUCILoop_timeout : ∀ events e,
  timesOut events = true →
  fst (initUCILoop events e) = Some (ErrTimeoutWaitingFor "uciok")
  ∧ Engine.state (snd (initUCILoop events e)) = Engine.state e
  ∧ Engine.stateLog (snd (initUCILoop events e)) = Engine.stateLog e
  ∧ Engine.stdin (snd (initUCILoop events e)) = Engine.stdin e.
Proof.
  induction events as [|ev rest IH]; intros e Ht; [done|].
  destruct ev as [line| | |]; cbn in Ht |- *; try done.
  destruct line; try done;
    (edestruct IH as (H1 & H2 & H3 & H4); [exact Ht|];
     rewrite H1, H2, H3, H4; done).
Qed.

End Session.

(** [Go] called in state Ready leaves the engine in state Thinking
    whatever the parameters, the ponder flag included; the line written
    is the same [go] line as for any other search. *)
Theorem Go_from_Ready_is_Thinking wok params e :
  State e = EngineStateReady →
  State (snd (Go wok params e)) = EngineStateThinking
  ∧ Engine.stateLog (snd (Go wok params e))
    = (Engine.stateLog e ++ [EngineStateThinking])%list
  ∧ (fst (Go wok params e) = None →
     Engine.stdin (snd (Go wok params e))
     = (λ w, (w ++ [BuildGoCommand params])%list) <$> Engine.stdin e).
Proof.
  unfold Go, State. intros Hst. rewrite Hst.
  rewrite bool_decide_eq_true_2 by done. cbn [negb].
  pose proof (sendCommand_state wok (BuildGoCommand params)
                (setState EngineStateThinking e)) as (-> & -> & _).
  split; [done|]. split; [done|].
  intros Hok. by rewrite (sendCommand_wire _ _ _ Hok).
Qed.

Lemma Go_from_Ready_is_Thinking_witness :
  State (snd (Go true ponderParams readyEngine)) = EngineStateThinking
  ∧ Engine.stateLog (snd (Go true ponderParams readyEngine))
    = [EngineStateStarting; EngineStateReady; EngineStateThinking]
  ∧ Engine.stdin (snd (Go true ponderParams readyEngine)) = Some ["uci"; "go ponder"].
Proof.
  destruct (Go_from_Ready_is_Thinking true ponderParams readyEngine eq_refl)
    as (H1 & H2 & H3).
  split; [exact H1|]. split; [exact H2|]. exact (H3 eq_refl).
Defined.

(** C6.  [Go] with the ponder flag set, called in state Ready: the call
    succeeds, the line [go ponder] is written, and the state reached is
    Thinking, not Pondering. *)
Theorem Go_ponder_not_Pondering :
  GoParams.Ponder ponderParams = true
  ∧ State readyEngine = EngineStateReady
  ∧ fst (Go true ponderParams readyEngine) = None
  ∧ Engine.stdin (snd (Go true ponderParams readyEngine)) = Some ["uci"; "go ponder"]
  ∧ State (snd (Go true ponderParams readyEngine)) = EngineStateThinking
  ∧ State (snd (Go true ponderParams readyEngine)) ≠ EngineStatePondering.
Proof. repeat split; done. Qed.

(** No operation of the session assigns the state Pondering. *)
Lemma Pondering_never_assigned :
  (∀ wok params e, State e ≠ EngineStatePondering →
     State (snd (Go wok params e)) ≠ EngineStatePondering)
  ∧ (∀ env e, State e ≠ EngineStatePondering →
     State (snd (Stop env e)) ≠ EngineStatePondering)
  ∧ (∀ line e e', State e ≠ EngineStatePondering →
     handleLine line e = Done e' → State e' ≠ EngineStatePondering).
Proof.
  split; [|split].
  - unfold Go, State. intros wok params e He.
    destruct (bool_decide (Engine.state e = EngineStateReady)); cbn [negb]; [|done].
    by pose proof (sendCommand_state wok (BuildGoCommand params)
                     (setState EngineStateThinking e)) as (-> & _).
  - intros env e He. unfold Stop.
    destruct (_ || _); [done|]. done.
  - intros line e e' He. destruct line; cbn; try (by intros [= <-]).
    destruct (chanSend _ _); [by intros [= <-]| |done].
    destruct (chanSend _ _); [by intros [= <-]|done|done].
Qed.





(** C3.  A bestmove record handled by [handleLine], in whatever state,
    sets the state to Ready and does nothing else: the analysis channel
    holds what it held before.  The reader has offered the record on the
    response channel [outputCh] just before, which is the only channel
    it ever appears on. *)
Theorem bestmove_sets_Ready_only bm e :
  handleLine (PLBestMove bm) e = Done (setState EngineStateReady e)
  ∧ State (setState EngineStateReady e) = EngineStateReady
  ∧ Engine.infoCh (setState EngineStateReady e) = Engine.infoCh e
  ∧ readerStep SchedReader (mkSys e (AtHandle (PLBestMove bm)))
    = Some (mkSys (setState EngineStateReady e) AtScan)
  ∧ (∀ ch, chanSend (Engine.outputCh e) (PLBestMove bm) = OpDone ch →
       readerStep SchedReader (mkSys e (AtOutputSend (PLBestMove bm)))
       = Some (mkSys (Engine.set_outputCh ch e) (AtHandle (PLBestMove bm)))
       ∧ buf ch = (buf (Engine.outputCh e) ++ [PLBestMove bm])%list
       ∧ Engine.infoCh (Engine.set_outputCh ch e) = Engine.infoCh e).
Proof.
  do 4 (split; [done|]). intros ch Hsend.
  split; [cbn; by rewrite Hsend|]. split; [|done].
  unfold chanSend in Hsend. destruct (closed _); [done|].
  destruct (_ <? _)%nat; [|done]. by injection Hsend as <-.
Qed.

Lemma bestmove_sets_Ready_only_witness :
  ∃ ch,
    chanSend (Engine.outputCh thinkingEngine) (PLBestMove (BestMove.mk "e2e4" "e7e5")) = OpDone ch
    ∧ buf ch = [PLBestMove (BestMove.mk "e2e4" "e7e5")]
    ∧ Engine.infoCh (Engine.set_outputCh ch thinkingEngine) = Engine.infoCh thinkingEngine.
Proof.
  destruct (bestmove_sets_Ready_only (BestMove.mk "e2e4" "e7e5") thinkingEngine)
    as (_ & _ & _ & _ & H).
  eexists. split; [reflexivity|].
  destruct (H _ eq_refl) as (_ & H2 & H3). split; [exact H2|exact H3].
Defined.

(** A bestmove received while Thinking: the state becomes Ready and
    the analysis channel stays empty, so the consumer of [InfoChannel()]
    has nothing to receive. *)
Lemma bestmove_not_on_infoCh :
  State thinkingEngine = EngineStateThinking
  ∧ ∃ e', handleLine (PLBestMove (BestMove.mk "e2e4" "e7e5")) thinkingEngine = Done e'
          ∧ State e' = EngineStateReady
          ∧ buf (Engine.infoCh e') = []
          ∧ chanRecv (Engine.infoCh e') = OpWait.
Proof. split; [reflexivity|]. eexists. repeat split; reflexivity. Qed.

(** ** Start and the terminal states *)

Lemma Start_refused e env :
  startable (Engine.state e) = false →
  Start env e = (Some (ErrAlreadyRunning (Engine.state e)), e).
Proof. unfold Start. by destruct (Engine.state e). Qed.

Lemma Start_guard e :
  startable (Engine.state e) = true →
  negb (bool_decide (Engine.state e = EngineStateNone))
  && negb (bool_decide (Engine.state e = EngineStateStopped))
  && negb (bool_decide (Engine.state e = EngineStateError)) = false.
Proof. by destruct (Engine.state e). Qed.

Lemma Stop_live env e :
  Engine.state e ≠ EngineStateNone → Engine.state e ≠ EngineStateStopped →
  Engine.state (snd (Stop env e)) = EngineStateStopped
  ∧ Engine.stateLog (snd (Stop env e))
    = (Engine.stateLog e ++ [EngineStateStopped])%list.
Proof.
  intros H1 H2. unfold Stop. rewrite !bool_decide_eq_false_2 by done.
  cbn [orb snd]. cbn [setState Engine.set_state Engine.state Engine.stateLog
                      Engine.set_cancelled].
  pose proof (sendCommand_state (quitWriteOk env) "quit" e) as (_ & Hl & _).
  destruct (exitedInGrace env); [|destruct (Engine.spawned _)]; cbn; by rewrite Hl.
Qed.

(** [Start] accepted: the first assignment is Starting. *)
Lemma Start_accepted env e :
  startable (Engine.state e) = true →
  fst (Start env e) ≠ Some (ErrAlreadyRunning (Engine.state e))
  ∧ ∃ rest, Engine.stateLog (snd (Start env e))
            = (Engine.stateLog e ++ EngineStateStarting :: rest)%list.
Proof.
  intros Hs. unfold Start. rewrite (Start_guard e Hs).
  destruct (stdinPipeOk env); cbn [negb];
    [|split; [done|eexists; cbn; by rewrite <- app_assoc]].
  destruct (stdoutPipeOk env); cbn [negb];
    [|split; [done|eexists; cbn; by rewrite <- app_assoc]].
  destruct (processStartOk env); cbn [negb];
    [|split; [done|eexists; cbn; by rewrite <- app_assoc]].
  set (e0 := Engine.set_spawned true _).
  assert (Hlog0 : Engine.stateLog e0 = (Engine.stateLog e ++ [EngineStateStarting])%list)
    by done.
  unfold initUCI.
  pose proof (sendCommand_state (uciWriteOk env) "uci" e0) as (Hst & Hlog & _).
  pose proof (sendCommand_err (uciWriteOk env) "uci" e0) as Herr0.
  assert (Hst0 : Engine.state e0 = EngineStateStarting) by done.
  destruct (sendCommand (uciWriteOk env) "uci" e0) as [[err|] e1]; cbn [fst snd] in *.
  { destruct (Stop_live (stopEnv env) e1) as [_ Hl]; [by rewrite Hst, Hst0..|].
    split; [destruct (Herr0 err eq_refl) as [->| ->]; done|].
    eexists. rewrite Hl, Hlog, Hlog0, <- app_assoc. done. }
  assert (Hloop : ∀ evs e2, ∃ rest,
    Engine.stateLog (snd (initUCILoop evs e2)) = (Engine.stateLog e2 ++ rest)%list
    ∧ (fst (initUCILoop evs e2) ≠ None →
       Engine.state (snd (initUCILoop evs e2)) = Engine.state e2)
    ∧ ∀ st, fst (initUCILoop evs e2) ≠ Some (ErrAlreadyRunning st)).
  { assert (Hstop : ∀ (err : error) e2,
      (∀ st, err ≠ ErrAlreadyRunning st) →
      ∃ rest, Engine.stateLog e2 = (Engine.stateLog e2 ++ rest)%list
              ∧ (Some err ≠ None → Engine.state e2 = Engine.state e2)
              ∧ ∀ st, Some err ≠ Some (ErrAlreadyRunning st)).
    { intros err e2 Herr. exists []. rewrite app_nil_r.
      split; [done|]. split; [done|]. intros st [= ->]. by eapply Herr. }
    induction evs as [|ev evs IH]; intros e2; cbn [initUCILoop fst snd].
    - by apply Hstop.
    - destruct ev as [line| | |]; cbn [fst snd]; try by apply Hstop.
      destruct line; try apply IH;
        try (apply (IH (Engine.set_Name _ e2)));
        try (apply (IH (Engine.set_Author _ e2)));
        try (apply (IH (Engine.set_options _ e2))).
      exists [EngineStateReady]. cbn. split; [done|]. split; [done|]. done. }
  destruct (Hloop (handshake env) e1) as (rest & Hl & Hstate & Herr).
  destruct (initUCILoop (handshake env) e1) as [[err|] e2]; cbn [fst snd] in *.
  - destruct (Stop_live (stopEnv env) e2) as [_ Hl2];
      [rewrite Hstate, Hst, Hst0; done..|].
    split; [intros [= ->]; by eapply Herr|].
    eexists. rewrite Hl2, Hl, Hlog, Hlog0, <- !app_assoc. done.
  - split; [done|]. eexists. rewrite Hl, Hlog, Hlog0, <- !app_assoc. done.
Qed.

(** C10.  A session in state Stopped or Error is not stuck there:
    [Start] is accepted from both (its guard refuses only Starting,
    Ready, Thinking and Pondering) and assigns Starting, and [Stop] moves
    an Error session to Stopped.  The other operations leave such a
    session as it is: [SetOption], [SetPosition] and [Go] are refused,
    [StopSearch] does nothing, and in state Stopped [Stop] does nothing
    and [IsReady] is refused. *)
Theorem terminal_states_restart e :
  State e = EngineStateStopped ∨ State e = EngineStateError →
  (∀ env, fst (Start env e) ≠ Some (ErrAlreadyRunning (State e))
          ∧ ∃ rest, Engine.stateLog (snd (Start env e))
                    = (Engine.stateLog e ++ EngineStateStarting :: rest)%list)
  ∧ (∀ env e', startable (State e') = false →
       Start env e' = (Some (ErrAlreadyRunning (State e')), e'))
  ∧ (∀ wok name value, SetOption wok name value e = (Some ErrEngineNotRunning, e))
  ∧ (∀ wok fen moves, SetPosition wok fen moves e = (Some ErrEngineNotRunning, e))
  ∧ (∀ wok params, Go wok params e = (Some (ErrNotReady (State e)), e))
  ∧ (∀ wok, StopSearch wok e = (None, e))
  ∧ (State e = EngineStateStopped →
       (∀ env, Stop env e = (None, e))
       ∧ (∀ wok events, IsReady wok events e = Done (Some ErrEngineNotRunning, e)))
  ∧ (State e = EngineStateError →
       ∀ env, State (snd (Stop env e)) = EngineStateStopped).
Proof.
  unfold State. intros Hst.
  split; [intros env; apply Start_accepted; by destruct Hst as [-> | ->]|].
  split; [intros env e' He'; by apply Start_refused|].
  split; [intros; unfold SetOption, State; by destruct Hst as [-> | ->]|].
  split; [intros; unfold SetPosition, State; by destruct Hst as [-> | ->]|].
  split; [intros; unfold Go, State; by destruct Hst as [-> | ->]|].
  split; [intros; unfold StopSearch, State; by destruct Hst as [-> | ->]|].
  split.
  - intros Hs. split; intros; unfold Stop, IsReady, State; by rewrite Hs.
  - intros Hs env. apply Stop_live; by rewrite Hs.
Qed.

Lemma terminal_states_restart_witness :
  fst (Start stubEnv stoppedEngine) ≠ Some (ErrAlreadyRunning EngineStateStopped)
  ∧ Go true ponderParams stoppedEngine = (Some (ErrNotReady EngineStateStopped), stoppedEngine)
  ∧ Stop (mkStopEnv true true) stoppedEngine = (None, stoppedEngine).
Proof.
  destruct (terminal_states_restart stoppedEngine (or_introl eq_refl))
    as (H1 & _ & _ & _ & H2 & _ & H3 & _).
  split; [apply (H1 stubEnv)|]. split; [apply H2|]. apply (H3 eq_refl).
Defined.

(** A stopped session is started again, on the same object, and reaches
    Ready: Stopped is not absorbing. *)
Lemma Stopped_not_absorbing :
  State stoppedEngine = EngineStateStopped
  ∧ fst (Start stubEnv stoppedEngine) = None
  ∧ State (snd (Start stubEnv stoppedEngine)) = EngineStateReady.
Proof. repeat split; reflexivity. Qed.

(** ** The handshake timeout *)

(** When the child is spawned and the handshake times out, [Start]
    returns the timeout error, having assigned Starting and then, through
    the [Stop] it calls before returning, Stopped: the session ends in
    state Stopped, and Error is never assigned. *)
Theorem Start_handshake_timeout env e :
  startable (State e) = true →
  spawns env = true →
  timesOut (handshake env) = true →
  fst (Start env e) = Some (ErrTimeoutWaitingFor "uciok")
  ∧ (∀ err, fst (Start env e) = Some err → isTimeout err = true)
  ∧ Engine.stateLog (snd (Start env e))
    = (Engine.stateLog e ++ [EngineStateStarting; EngineStateStopped])%list
  ∧ State (snd (Start env e)) = EngineStateStopped.
Proof.
  unfold State, spawns. intros Hs Hsp Hto.
  apply andb_prop in Hsp as [Hsp Huci]. apply andb_prop in Hsp as [Hsp Hproc].
  apply andb_prop in Hsp as [Hin Hout].
  unfold Start. rewrite (Start_guard e Hs), Hin, Hout, Hproc. cbn [negb].
  set (e0 := Engine.set_spawned true _).
  unfold initUCI, sendCommand. rewrite Huci.
  cbn [Engine.stdin e0 Engine.set_stdin Engine.set_spawned].
  set (e1 := Engine.set_stdin _ e0).
  destruct (initUCILoop_timeout (handshake env) e1 Hto) as (Herr & Hst & Hlog & _).
  destruct (initUCILoop (handshake env) e1) as [[err|] e2]; cbn [fst snd] in *;
    [|done].
  injection Herr as ->.
  destruct (Stop_live (stopEnv env) e2) as [Hfin Hl]; [by rewrite Hst..|].
  split; [done|]. split; [by intros err [= <-]|].
  split; [|done]. rewrite Hl, Hlog. cbn. by rewrite <- app_assoc.
Qed.

Lemma Start_handshake_timeout_witness :
  fst (Start silentEnv (NewEngine "sf" "/usr/bin/stockfish"))
  = Some (ErrTimeoutWaitingFor "uciok")
  ∧ Engine.stateLog (snd (Start silentEnv (NewEngine "sf" "/usr/bin/stockfish")))
    = [EngineStateStarting; EngineStateStopped]
  ∧ State (snd (Start silentEnv (NewEngine "sf" "/usr/bin/stockfish"))) = EngineStateStopped.
Proof.
  destruct (Start_handshake_timeout silentEnv (NewEngine "sf" "/usr/bin/stockfish")
              eq_refl eq_refl eq_refl) as (H1 & _ & H2 & H3).
  split; [exact H1|]. split; [exact H2|exact H3].
Defined.

(** C2.  A child that is spawned and never answers the handshake:
    [Start] returns the timeout error, the state has gone None,
    Starting, Stopped, and the session is left in state Stopped, not
    Error. *)
Theorem handshake_timeout_ends_Stopped :
  let r := Start silentEnv (NewEngine "sf" "/usr/bin/stockfish") in
  fst r = Some (ErrTimeoutWaitingFor "uciok")
  ∧ (EngineStateNone :: Engine.stateLog (snd r))
    = [EngineStateNone; EngineStateStarting; EngineStateStopped]
  ∧ State (snd r) = EngineStateStopped
  ∧ State (snd r) ≠ EngineStateError.
Proof. repeat split; done. Qed.

(** The handshake of scenario (f) succeeds: None, Starting, Ready. *)
Example handshake_success :
  let r := Start stubEnv (NewEngine "sf" "/usr/bin/stockfish") in
  fst r = None
  ∧ Engine.stateLog (snd r) = [EngineStateStarting; EngineStateReady]
  ∧ Engine.Name (snd r) = "Stub"
  ∧ UCIOption.Default <$> (Engine.options (snd r) !! "Hash") = Some "16".
Proof. repeat split; reflexivity. Qed.

(** ** The analysis channel under back-pressure *)

Section Channels.

Context {A : Type}.
Implicit Types (ch : Chan A) (x : A).

Lemma chanSend_done ch x ch' :
  chanSend ch x = OpDone ch' →
  closed ch = false ∧ (chanLen ch < cap ch)%nat
  ∧ ch' = mkChan (cap ch) (buf ch ++ [x])%list false.
Proof.
  unfold chanSend. destruct (closed ch) eqn:Hc; [done|].
  destruct (Nat.ltb_spec (chanLen ch) (cap ch)); [|done].
  by intros [= <-].
Qed.

Lemma chanSend_wait ch x :
  chanSend ch x = OpWait → closed ch = false ∧ (cap ch ≤ chanLen ch)%nat.
Proof.
  unfold chanSend. destruct (closed ch); [done|].
  by destruct (Nat.ltb_spec (chanLen ch) (cap ch)).
Qed.

Lemma chanSend_panic ch x : chanSend ch x = OpPanic → closed ch = true.
Proof.
  unfold chanSend. destruct (closed ch); [done|].
  by destruct (chanLen ch <? cap ch)%nat.
Qed.


Lemma chanRecv_done ch o ch' :
  chanRecv ch = OpDone (o, ch') →
  cap ch' = cap ch ∧ closed ch' = closed ch
  ∧ ((∃ x, buf ch = x :: buf ch' ∧ o = Some x) ∨ (buf ch = [] ∧ ch' = ch ∧ o = None)).
Proof.
  unfold chanRecv. destruct (buf ch) as [|x rest] eqn:Hb.
  - destruct (closed ch) eqn:Hc; [|done]. intros [= <- <-].
    split; [done|]. split; [done|]. by right.
  - intros [= <- <-]. cbn. split; [done|]. split; [done|]. left. by exists x.
Qed.


End Channels.

Section Reader.

Implicit Types (s : ReaderSys) (e : Engine.t) (ev : SchedEvent).









End Reader.



(** The send on the response channel is the one place where the reader
    can wait: with [outputCh] full and the context not done, neither of
    the two cases of its [select] is ready. *)
Remark reader_waits_on_full_outputCh e parsed :
  closed (Engine.outputCh e) = false →
  (cap (Engine.outputCh e) ≤ chanLen (Engine.outputCh e))%nat →
  Engine.cancelled e = false →
  readerStep SchedReader (mkSys e (AtOutputSend parsed)) = None
  ∧ readerStep SchedReaderCtx (mkSys e (AtOutputSend parsed)) = None.
Proof.
  intros Hc Hfull Hctx. unfold readerStep, chanSend. cbn [eng pc].
  rewrite Hc, Hctx. by destruct (Nat.ltb_spec (chanLen (Engine.outputCh e))
                                               (cap (Engine.outputCh e))); [lia|].
Qed.

(* ================================================================== *)
(** * Part III. Further properties                                     *)
(* ================================================================== *)

(** ** The line types *)

Lemma trimLeft_allSpace s : allSpace s = true → trimLeft s = "".
Proof.
  induction s as [|c t IH]; [done|]. cbn. intros [Hc Ht]%andb_prop.
  rewrite Hc. by apply IH.
Qed.

Lemma trimLeft_head s :
  allSpace s = false → ∃ c t, trimLeft s = String c t ∧ isSpace c = false.
Proof.
  induction s as [|c t IH]; [done|]. cbn. destruct (isSpace c) eqn:Hc; cbn.
  - apply IH.
  - intros _. by exists c, t.
Qed.

Lemma fieldsFrom_nonempty s : ∀ cur, isEmpty cur = false → fieldsFrom s cur ≠ [].
Proof.
  induction s as [|c t IH]; intros cur Hcur; cbn [fieldsFrom].
  - by rewrite Hcur.
  - destruct (isSpace c); [by rewrite Hcur|].
    apply IH. by destruct cur.
Qed.

Lemma TrimSpace_blank s : allSpace s = true → TrimSpace s = "".
Proof. intros H. unfold TrimSpace. by rewrite trimLeft_allSpace. Qed.

Lemma TrimSpace_not_blank s :
  allSpace s = false →
  isEmpty (TrimSpace s) = false ∧ Fields (TrimSpace s) ≠ [].
Proof.
  intros H. unfold TrimSpace.
  destruct (trimLeft_head s H) as (c & t & -> & Hc).
  cbn [trimRight]. rewrite Hc. cbn [andb]. split; [done|].
  unfold Fields. cbn [fieldsFrom]. rewrite Hc. by apply fieldsFrom_nonempty.
Qed.

Lemma parseIDLine_tag parts pl :
  parseIDLine parts = Returned pl → LineType pl = tagOf ("id" :: parts).
Proof.
  unfold parseIDLine. cbn [tagOf]. change ("id" =? "id") with true. cbn match.
  destruct parts as [|k [|v rest]]; cbn [length]; try (by intros [= <-]).
  change (length (k :: v :: rest) <? 2)%nat with false. cbn match.
  cbn [index lookup list_lookup]. obind.
  rewrite sliceFrom_ok by (cbn; lia). obind.
  destruct (k =? "name"); [by intros [= <-]|].
  destruct (k =? "author"); by intros [= <-].
Qed.

Lemma parseBestMoveLine_tag parts pl :
  parseBestMoveLine parts = Returned pl → LineType pl = "bestmove".
Proof.
  unfold parseBestMoveLine.
  destruct (if (1 <=? length parts)%nat then _ else _) as [bm| |]; obind; try done.
  destruct (bestMoveLoop _ _ _ _) as [bm'| |]; obind; try done.
  by intros [= <-].
Qed.

Lemma ParseLine_tag_model now line pl :
  ParseLine now line = Returned pl →
  LineType pl = tagOf (Fields (TrimSpace line))
  ∧ (LineType pl = "unknown" → pl = PLUnknown (TrimSpace line))
  ∧ (LineType pl = "empty" →
     isEmpty (TrimSpace line) = true ∨ Fields (TrimSpace line) = []).
Proof.
  unfold ParseLine.
  destruct (isEmpty (TrimSpace line)) eqn:He.
  { intros [= <-]. destruct (TrimSpace line); [|done]. split; [done|]. split; [done|auto]. }
  destruct (Fields (TrimSpace line)) as [|p0 rest] eqn:Hf; cbn [length Nat.eqb].
  { intros [= <-]. split; [done|]. split; [done|auto]. }
  cbn [index lookup list_lookup]. obind.
  rewrite sliceFrom_ok by (cbn; lia). cbn [drop]. rewrite drop_0. obind.
  cbn [tagOf].
  destruct (p0 =? "id").
  { intros H. pose proof (parseIDLine_tag _ _ H) as Ht. cbn [tagOf] in Ht.
    change ("id" =? "id") with true in Ht. cbn match in Ht. rewrite Ht.
    split; [done|].
    destruct rest as [|k [|v r]]; [by split..|].
    destruct (k =? "name"); [by split|]. destruct (k =? "author"); by split. }
  destruct (p0 =? "uciok"); [by intros [= <-]|].
  destruct (p0 =? "readyok"); [by intros [= <-]|].
  destruct (p0 =? "bestmove").
  { intros H. rewrite (parseBestMoveLine_tag _ _ H). done. }
  destruct (p0 =? "info").
  { destruct (parseInfoLine_total now rest) as [i ->]. by intros [= <-]. }
  destruct (p0 =? "option").
  { destruct (parseOptionLine_total rest) as [o ->]. by intros [= <-]. }
  intros [= <-]. done.
Qed.

(** X1.  On an ASCII line, [ParseLine] returns the empty record exactly
    when the line consists of white space only.  Every other line gets
    a record of another type: a [bestmove] line without a move, for one,
    is a bestmove record with an empty move, not an empty record. *)
Theorem ParseLine_empty_iff_blank now line :
  isASCII line = true →
  ParseLine now line = Returned PLEmpty ↔ allSpace line = true.
Proof.
  intros _. split.
  - intros H. destruct (allSpace line) eqn:Hb; [done|].
    destruct (TrimSpace_not_blank line Hb) as [He Hf].
    destruct (ParseLine_tag_model now line _ H) as (_ & _ & Hem).
    destruct (Hem eq_refl) as [H1|H1]; [by rewrite H1 in He|done].
  - intros Hb. unfold ParseLine. by rewrite TrimSpace_blank.
Qed.

Lemma ParseLine_empty_iff_blank_witness :
  ParseLine 0 (String "009" " ") = Returned PLEmpty
  ∧ ParseLine 0 "bestmove" ≠ Returned PLEmpty.
Proof.
  split.
  - apply (ParseLine_empty_iff_blank 0 (String "009" " ")); reflexivity.
  - intros H. by apply (ParseLine_empty_iff_blank 0 "bestmove") in H.
Defined.

(** X2.  The type of the record [ParseLine] returns for an ASCII line
    depends on the first token only, and for an [id] line on the second
    token and on whether a value follows it: [tagOf] of the tokens.  A
    line of unknown type carries the trimmed text of the line. *)
Theorem ParseLine_tag now line pl :
  isASCII line = true →
  ParseLine now line = Returned pl →
  LineType pl = tagOf (Fields (TrimSpace line))
  ∧ (LineType pl = "unknown" → pl = PLUnknown (TrimSpace line)).
Proof.
  intros _ H. destruct (ParseLine_tag_model now line pl H) as (H1 & H2 & _). done.
Qed.

Lemma ParseLine_tag_witness :
  LineType (PLIdName "Stockfish 16") = "id_name"
  ∧ (LineType (PLIdName "Stockfish 16") = "unknown" →
     PLIdName "Stockfish 16" = PLUnknown "id   name Stockfish 16").
Proof.
  exact (ParseLine_tag 0 "  id   name Stockfish 16 " (PLIdName "Stockfish 16")
           eq_refl eq_refl).
Defined.

Lemma ParseLine_tokens now line p0 rest :
  Fields (TrimSpace line) = p0 :: rest →
  ParseLine now line =
    if p0 =? "id" then parseIDLine rest
    else if p0 =? "uciok" then Returned PLUciOk
    else if p0 =? "readyok" then Returned PLReadyOk
    else if p0 =? "bestmove" then parseBestMoveLine rest
    else if p0 =? "info" then parseInfoLine now rest
    else if p0 =? "option" then parseOptionLine rest
    else Returned (PLUnknown (TrimSpace line)).
Proof.
  intros Hf. unfold ParseLine. rewrite Hf.
  destruct (TrimSpace line) eqn:Ht; [done|]. cbn [isEmpty length Nat.eqb].
  cbn [index lookup list_lookup]. obind.
  rewrite sliceFrom_ok by (cbn; lia). cbn [drop]. rewrite drop_0. obind.
  repeat (destruct (p0 =? _); [done|]). done.
Qed.

(** X3.  An [id name] or [id author] line yields the tokens after the
    keyword joined by single spaces, so that runs of white space inside
    the value are collapsed; with no token after the keyword, and for
    any other keyword, the record is a plain [id] with no value. *)
Theorem ParseLine_id now line k ws :
  isASCII line = true →
  Fields (TrimSpace line) = "id" :: k :: ws →
  ParseLine now line
  = Returned (match ws with
              | [] => PLId
              | _ => if k =? "name" then PLIdName (Join ws " ")
                     else if k =? "author" then PLIdAuthor (Join ws " ")
                     else PLId
              end).
Proof.
  intros _ Hf. rewrite (ParseLine_tokens now line _ _ Hf).
  change ("id" =? "id") with true. cbn match.
  unfold parseIDLine. destruct ws as [|w ws]; [done|].
  change (length (k :: w :: ws) <? 2)%nat with false. cbn match.
  cbn [index lookup list_lookup]. obind.
  rewrite sliceFrom_ok by (cbn; lia). cbn [drop]. rewrite ?drop_0. obind.
  destruct (k =? "name"); [done|]. destruct (k =? "author"); done.
Qed.

Lemma ParseLine_id_witness :
  ParseLine 0 "id name  Stockfish   16 " = Returned (PLIdName "Stockfish 16")
  ∧ ParseLine 0 "id name" = Returned PLId.
Proof.
  split.
  - exact (ParseLine_id 0 "id name  Stockfish   16 " "name" ["Stockfish"; "16"]
             eq_refl eq_refl).
  - exact (ParseLine_id 0 "id name" "name" [] eq_refl eq_refl).
Defined.

Section BestMoveLoop.

Local Open Scope list_scope.

Lemma index_app_here (pre : list string) x rest :
  index (pre ++ x :: rest) (length pre) = Returned x.
Proof. unfold index. by rewrite list_lookup_middle. Qed.

Lemma bestMoveLoop_finds p tl bm : ∀ mid fuel pre,
  "ponder" ∉ mid → (length mid < fuel)%nat →
  bestMoveLoop fuel (pre ++ mid ++ "ponder" :: p :: tl) (length pre) bm
  = Returned (BestMove.mk (BestMove.Move bm) p).
Proof.
  induction mid as [|x mid IH]; intros fuel pre Hn Hf.
  - destruct fuel as [|fuel]; [cbn in Hf; lia|]. cbn [bestMoveLoop app].
    destruct (Nat.ltb_spec (length pre) (length (pre ++ "ponder" :: p :: tl) - 1))
      as [_|Hge]; [|rewrite length_app in Hge; cbn in Hge; lia].
    rewrite index_app_here. obind. change ("ponder" =? "ponder") with true.
    cbn [andb].
    destruct (Nat.ltb_spec (length pre + 1) (length (pre ++ "ponder" :: p :: tl)))
      as [_|Hge]; [|rewrite length_app in Hge; cbn in Hge; lia].
    assert ((length pre + 1)%nat = length (pre ++ ["ponder"])) as ->
      by (rewrite length_app; cbn; lia).
    replace (pre ++ "ponder" :: p :: tl) with ((pre ++ ["ponder"]) ++ p :: tl)
      by (by rewrite <- app_assoc).
    rewrite index_app_here. done.
  - destruct fuel as [|fuel]; [cbn in Hf; lia|]. cbn [bestMoveLoop].
    destruct (Nat.ltb_spec (length pre)
                (length (pre ++ (x :: mid) ++ "ponder" :: p :: tl) - 1))
      as [_|Hge]; [|rewrite !length_app in Hge; cbn in Hge; lia].
    change ((x :: mid) ++ "ponder" :: p :: tl) with (x :: (mid ++ "ponder" :: p :: tl)).
    rewrite index_app_here. obind.
    apply not_elem_of_cons in Hn as [Hx Hn].
    assert ((x =? "ponder") = false) as -> by (apply String.eqb_neq; congruence).
    cbn [andb].
    assert ((length pre + 1)%nat = length (pre ++ [x])) as ->
      by (rewrite length_app; cbn; lia).
    replace (pre ++ x :: mid ++ "ponder" :: p :: tl)
      with ((pre ++ [x]) ++ mid ++ "ponder" :: p :: tl) by (by rewrite <- app_assoc).
    apply IH; [done|cbn in Hf; lia].
Qed.

Lemma bestMoveLoop_none bm : ∀ rest fuel pre,
  "ponder" ∉ removelast rest → (length rest ≤ fuel)%nat →
  bestMoveLoop fuel (pre ++ rest) (length pre) bm = Returned bm.
Proof.
  induction rest as [|x rest IH]; intros fuel pre Hn Hf.
  - rewrite app_nil_r. destruct fuel; cbn [bestMoveLoop];
      destruct (Nat.ltb_spec (length pre) (length pre - 1)); (done || lia).
  - destruct rest as [|y rest].
    + destruct fuel; cbn [bestMoveLoop];
        destruct (Nat.ltb_spec (length pre) (length (pre ++ [x]) - 1)) as [Hlt|];
        try done; rewrite length_app in Hlt; cbn in Hlt; lia.
    + destruct fuel as [|fuel]; [cbn in Hf; lia|]. cbn [bestMoveLoop].
      destruct (Nat.ltb_spec (length pre) (length (pre ++ x :: y :: rest) - 1))
        as [_|Hge]; [|rewrite !length_app in Hge; cbn in Hge; lia].
      rewrite index_app_here. obind.
      change (removelast (x :: y :: rest)) with (x :: removelast (y :: rest)) in Hn.
      apply not_elem_of_cons in Hn as [Hx Hn].
      assert ((x =? "ponder") = false) as -> by (apply String.eqb_neq; congruence).
      cbn [andb].
      assert ((length pre + 1)%nat = length (pre ++ [x])) as ->
      by (rewrite length_app; cbn; lia).
      replace (pre ++ x :: y :: rest) with ((pre ++ [x]) ++ y :: rest)
        by (by rewrite <- app_assoc).
      apply IH; [done|cbn in Hf |- *; lia].
Qed.

End BestMoveLoop.

(** X4.  [parseBestMoveLine]: the move is the first token (the empty
    string when there is none); the ponder move is the token after the
    first [ponder] found from the second token on, provided a token
    follows it, and is empty otherwise (a trailing [ponder] is
    ignored). *)
Theorem parseBestMoveLine_fields :
  parseBestMoveLine [] = Returned (PLBestMove (BestMove.mk "" ""))
  ∧ (∀ m mid p tl, "ponder" ∉ mid →
       parseBestMoveLine (m :: mid ++ "ponder" :: p :: tl)
       = Returned (PLBestMove (BestMove.mk m p)))
  ∧ (∀ m rest, "ponder" ∉ removelast rest →
       parseBestMoveLine (m :: rest) = Returned (PLBestMove (BestMove.mk m ""))).
Proof.
  split; [done|]. split.
  - intros m mid p tl Hn. unfold parseBestMoveLine.
    cbn [length Nat.leb index lookup list_lookup]. obind.
    pose proof (bestMoveLoop_finds p tl (BestMove.mk m (BestMove.Ponder BestMove.zero)) mid
                  (S (length (mid ++ "ponder" :: p :: tl)%list)) [m] Hn) as H.
    cbn [app length] in H. rewrite H; [done|]. rewrite length_app. lia.
  - intros m rest Hn. unfold parseBestMoveLine.
    cbn [length Nat.leb index lookup list_lookup]. obind.
    pose proof (bestMoveLoop_none (BestMove.mk m (BestMove.Ponder BestMove.zero)) rest (S (length rest)) [m] Hn) as H.
    cbn [app length] in H. rewrite H; [done|lia].
Qed.

Lemma parseBestMoveLine_fields_witness :
  parseBestMoveLine ["e2e4"; "ponder"; "e7e5"]
  = Returned (PLBestMove (BestMove.mk "e2e4" "e7e5"))
  ∧ parseBestMoveLine ["e2e4"; "ponder"]
    = Returned (PLBestMove (BestMove.mk "e2e4" "")).
Proof.
  destruct parseBestMoveLine_fields as (_ & H1 & H2). split.
  - apply (H1 "e2e4" [] "e7e5" []). apply not_elem_of_nil.
  - apply (H2 "e2e4" ["ponder"]). apply not_elem_of_nil.
Defined.

Section OptionLoop.

Local Open Scope list_scope.

Lemma scanUntil_finds stop x tl : ∀ mid fuel pre,
  Forall (λ s, stop s = false) mid → stop x = true → (length mid < fuel)%nat →
  scanUntil fuel stop (pre ++ mid ++ x :: tl) (length pre)
  = Returned (length pre + length mid)%nat.
Proof.
  induction mid as [|y mid IH]; intros fuel pre Hmid Hx Hf;
    (destruct fuel as [|fuel]; [cbn in Hf; lia|]); cbn [scanUntil].
  - destruct (Nat.ltb_spec (length pre) (length (pre ++ [] ++ x :: tl)))
      as [_|Hge]; [|rewrite !length_app in Hge; cbn in Hge; lia].
    cbn [app]. rewrite index_app_here. obind. rewrite Hx. cbn. f_equal. lia.
  - destruct (Nat.ltb_spec (length pre) (length (pre ++ (y :: mid) ++ x :: tl)))
      as [_|Hge]; [|rewrite !length_app in Hge; cbn in Hge; lia].
    change ((y :: mid) ++ x :: tl) with (y :: (mid ++ x :: tl)).
    rewrite index_app_here. obind.
    apply Forall_cons in Hmid as [Hy Hmid]. rewrite Hy.
    assert ((length pre + 1)%nat = length (pre ++ [y])) as ->
      by (rewrite length_app; cbn; lia).
    assert (pre ++ y :: mid ++ x :: tl = (pre ++ [y]) ++ mid ++ x :: tl) as ->
      by (by rewrite <- app_assoc).
    rewrite IH; [|done|done|cbn in Hf; lia].
    f_equal. rewrite length_app. cbn. lia.
Qed.

Lemma optionStep_keeps parts i p opt i' opt' :
  parts !! i = Some p → p ≠ "name" → p ≠ "type" →
  optionStep parts i opt = Returned (i', opt') →
  UCIOption.Name opt' = UCIOption.Name opt
  ∧ UCIOption.Type_ opt' = UCIOption.Type_ opt
  ∧ (i ≤ i')%nat.
Proof.
  intros Hp Hn Ht. unfold optionStep, index. rewrite Hp. obind.
  assert ((p =? "name") = false) as -> by (by apply String.eqb_neq).
  assert ((p =? "type") = false) as -> by (by apply String.eqb_neq).
  assert (Hwv : ∀ (upd : string → UCIOption.t → UCIOption.t),
    (∀ v o, UCIOption.Name (upd v o) = UCIOption.Name o
            ∧ UCIOption.Type_ (upd v o) = UCIOption.Type_ o) →
    withValue parts i opt upd = Returned (i', opt') →
    UCIOption.Name opt' = UCIOption.Name opt
    ∧ UCIOption.Type_ opt' = UCIOption.Type_ opt ∧ (i ≤ i')%nat).
  { intros upd Hupd Hw.
    destruct (withValue_total parts i opt upd) as (j & o & Hj & Hle).
    rewrite Hw in Hj. injection Hj as <- <-.
    apply withValue_inv in Hw as [->|[v ->]]; [done|].
    destruct (Hupd v opt) as [-> ->]. done. }
  destruct (p =? "default").
  { destruct (UCIOption.Type_ opt =? OptionTypeString); [|by apply Hwv].
    destruct (scanUntil_total isOptionKeyword parts (length parts) (i + 1))
      as (j & -> & Hj & _); [lia|]. obind.
    destruct (i + 1 <? j)%nat.
    - intros (o1 & (d & _ & [= <-])%outcome_bind_inv & [= <- <-])%outcome_bind_inv.
      cbn. repeat split; (done || lia).
    - obind. intros [= <- <-]. repeat split; (done || lia). }
  destruct (p =? "min"); [by apply Hwv|].
  destruct (p =? "max"); [by apply Hwv|].
  destruct (p =? "var"); [by apply Hwv|].
  intros [= <- <-]. done.
Qed.

Lemma optionLoop_keeps parts : ∀ fuel i opt r,
  (∀ j p, (i ≤ j)%nat → parts !! j = Some p → p ≠ "name" ∧ p ≠ "type") →
  optionLoop fuel parts i opt = Returned r →
  UCIOption.Name r = UCIOption.Name opt ∧ UCIOption.Type_ r = UCIOption.Type_ opt.
Proof.
  induction fuel as [|fuel IH]; intros i opt r Hk; cbn [optionLoop].
  - destruct (i <? length parts)%nat; [done|]. by intros [= <-].
  - destruct (Nat.ltb_spec i (length parts)) as [Hlt|]; [|by intros [= <-]].
    intros ([i' opt'] & Hstep & Hrest)%outcome_bind_inv.
    destruct (lookup_lt_is_Some_2 parts i Hlt) as [p Hp].
    destruct (Hk i p ltac:(lia) Hp) as [Hn Ht].
    destruct (optionStep_keeps _ _ _ _ _ _ Hp Hn Ht Hstep) as (<- & <- & Hle).
    eapply IH; [|exact Hrest]. intros j q Hj. apply Hk. lia.
Qed.

End OptionLoop.

Lemma optionLoop_unfold fuel (parts : list string) i opt i' opt' :
  (i < length parts)%nat →
  optionStep parts i opt = Returned (i', opt') →
  optionLoop (S fuel) parts i opt = optionLoop fuel parts (i' + 1) opt'.
Proof.
  intros Hlt Hstep. cbn [optionLoop].
  destruct (Nat.ltb_spec i (length parts)); [|lia]. by rewrite Hstep.
Qed.

(** X5.  [parseOptionLine] on [name <words> type <t> <rest>], where the
    words do not contain [type] and the rest contains neither [name] nor
    [type]: the name is the words joined by single spaces (names with
    spaces are kept), the type is [t], and the current value is the
    default. *)
Theorem parseOptionLine_name_type ns ty rest :
  "type" ∉ ns → "name" ∉ rest → "type" ∉ rest →
  ∃ opt,
    parseOptionLine ("name" :: ns ++ "type" :: ty :: rest) = Returned (PLOption opt)
    ∧ UCIOption.Name opt = Join ns " "
    ∧ UCIOption.Type_ opt = ty
    ∧ UCIOption.Value opt = UCIOption.Default opt.
Proof.
  intros Hns Hrn Hrt. unfold parseOptionLine.
  set (parts := ("name" :: ns ++ "type" :: ty :: rest)%list).
  assert (Hlen : length parts = (length ns + length rest + 3)%nat)
    by (unfold parts; cbn; rewrite length_app; cbn; lia).
  rewrite Hlen.
  replace (length ns + length rest + 3)%nat
    with (S (S (length ns + length rest + 1))) by lia.
  (* the [name] clause *)
  assert (Hstep1 : optionStep parts 0 UCIOption.zero
                   = Returned (length ns, UCIOption.set_Name (Join ns " ") UCIOption.zero)).
  { unfold optionStep. change (index parts 0) with (Returned "name" : outcome string).
    obind. change ("name" =? "name") with true. cbn match.
    pose proof (scanUntil_finds (λ s, s =? "type") "type" (ty :: rest) ns
                  (length parts) ["name"]) as Hscan.
    cbn [app length] in Hscan. fold parts in Hscan. change (0 + 1)%nat with 1%nat.
    rewrite Hscan; [|by apply Forall_forall; intros x Hx; apply String.eqb_neq;
                        intros ->|done|lia].
    obind. rewrite slice_ok by lia. obind.
    replace (1 + length ns - 1)%nat with (length ns) by lia.
    unfold parts. cbn [drop]. rewrite drop_0, take_app_length. done. }
  rewrite (optionLoop_unfold _ parts 0 _ _ _ ltac:(lia) Hstep1).
  (* the [type] clause *)
  set (opt1 := UCIOption.set_Name (Join ns " ") UCIOption.zero).
  assert (Hstep2 : optionStep parts (length ns + 1) opt1
                   = Returned ((length ns + 1 + 1)%nat, UCIOption.set_Type ty opt1)).
  { unfold optionStep.
    assert (index parts (length ns + 1) = Returned "type") as ->.
    { unfold parts. replace (length ns + 1)%nat with (length ("name" :: ns)) by (cbn; lia).
      apply (index_app_here ("name" :: ns)). }
    obind. change ("type" =? "name") with false. change ("type" =? "type") with true.
    cbn match. unfold withValue.
    destruct (Nat.ltb_spec (length ns + 1 + 1) (length parts)); [|lia].
    assert (index parts (length ns + 1 + 1) = Returned ty) as ->; [|done].
    unfold parts.
    replace (length ns + 1 + 1)%nat with (length ("name" :: ns ++ ["type"])%list)
      by (cbn; rewrite length_app; cbn; lia).
    replace ("name" :: ns ++ "type" :: ty :: rest)%list
      with (("name" :: ns ++ ["type"]) ++ ty :: rest)%list
      by (cbn; by rewrite <- app_assoc).
    apply index_app_here. }
  rewrite (optionLoop_unfold _ parts (length ns + 1) _ _ _ ltac:(lia) Hstep2).
  (* the rest of the line *)
  set (opt2 := UCIOption.set_Type ty opt1).
  destruct (optionLoop_total parts (length ns + length rest + 1)
              (length ns + 1 + 1 + 1) opt2) as [r Hr]; [lia|].
  rewrite Hr. obind. exists (UCIOption.set_Value (UCIOption.Default r) r).
  split; [done|].
  destruct (optionLoop_keeps parts (length ns + length rest + 1)
              (length ns + 1 + 1 + 1) opt2 r) as [Hn Ht]; [|exact Hr|].
  { intros j p Hj Hp. unfold parts in Hp.
    replace ("name" :: ns ++ "type" :: ty :: rest)%list
      with (("name" :: ns ++ ["type"; ty]) ++ rest)%list in Hp
      by (cbn; by rewrite <- app_assoc).
    rewrite lookup_app_r in Hp by (cbn; rewrite length_app; cbn; lia).
    apply list_elem_of_lookup_2 in Hp.
    split; intros ->; done. }
  cbn. rewrite Hn, Ht. done.
Qed.

Lemma parseOptionLine_name_type_witness :
  ∃ opt,
    parseOptionLine ["name"; "Skill"; "Level"; "type"; "spin"; "default"; "20";
                     "min"; "0"; "max"; "20"]
    = Returned (PLOption opt)
    ∧ UCIOption.Name opt = "Skill Level"
    ∧ UCIOption.Type_ opt = "spin"
    ∧ UCIOption.Value opt = UCIOption.Default opt.
Proof.
  apply (parseOptionLine_name_type ["Skill"; "Level"] "spin"
           ["default"; "20"; "min"; "0"; "max"; "20"]);
    intros Hin;
    repeat (apply elem_of_cons in Hin as [Hin|Hin]; [discriminate Hin|]);
    by apply elem_of_nil in Hin.
Defined.

Lemma fieldsFrom_app_space (a b : string) : ∀ cur,
  fieldsFrom (a ++ String " " b) cur = (fieldsFrom a cur ++ Fields b)%list.
Proof.
  induction a as [|c a IH]; intros cur.
  - change ("" ++ String " " b) with (String " " b). cbn [fieldsFrom].
    change (isSpace " ") with true. cbn match. unfold Fields.
    by destruct (isEmpty cur).
  - change (String c a ++ String " " b) with (String c (a ++ String " " b)).
    cbn [fieldsFrom]. destruct (isSpace c).
    + destruct (isEmpty cur); by rewrite IH.
    + apply IH.
Qed.

Lemma Fields_app_space (a b : string) :
  Fields (a ++ " " ++ b) = (Fields a ++ Fields b)%list.
Proof.
  unfold Fields at 1 2. change (" " ++ b) with (String " " b).
  apply fieldsFrom_app_space.
Qed.

Lemma Fields_Join_concat (l : list string) :
  Fields (Join l " ") = concat (Fields <$> l).
Proof.
  induction l as [|e [|e' rest] IH]; [done| |].
  - cbn [Join fmap list_fmap concat]. by rewrite app_nil_r.
  - change (Join (e :: e' :: rest) " ") with (e ++ " " ++ Join (e' :: rest) " ").
    rewrite Fields_app_space, IH. done.
Qed.

Lemma Fields_tokens (l : list string) :
  Forall (λ t, isToken t = true) l → concat (Fields <$> l) = l.
Proof. intros H. rewrite <- Fields_Join_concat. by apply Fields_Join. Qed.

(** X6.  [BuildPositionCommand]: an empty FEN and ["startpos"] give the
    same line; the line splits into [position], then [startpos] or
    [fen] followed by the fields of the FEN, then, only when there are
    moves, [moves] followed by the moves in order. *)
Theorem BuildPositionCommand_tokens fen moves :
  isASCII fen = true →
  Forall (λ m, isASCII m = true ∧ isToken m = true) moves →
  BuildPositionCommand "" moves = BuildPositionCommand "startpos" moves
  ∧ Fields (BuildPositionCommand fen moves)
    = ("position"
       :: (if (fen =? "") || (fen =? "startpos") then ["startpos"]
           else "fen" :: Fields fen)
       ++ match moves with [] => [] | _ => "moves" :: moves end)%list.
Proof.
  intros _ Hm. split; [done|].
  assert (Hmt : concat (Fields <$> moves) = moves).
  { apply Fields_tokens. eapply Forall_impl; [exact Hm|]. by intros m [_ ?]. }
  unfold BuildPositionCommand. rewrite Fields_Join_concat.
  destruct ((fen =? "") || (fen =? "startpos")).
  - destruct moves as [|m moves]; [done|].
    change (0 <? length (m :: moves))%nat with true. cbn match.
    rewrite fmap_app, concat_app, Hmt. done.
  - destruct moves as [|m moves].
    + cbn. by rewrite app_nil_r.
    + change (0 <? length (m :: moves))%nat with true. cbn match.
      rewrite fmap_app, concat_app, Hmt. cbn [app fmap list_fmap concat].
      change (Fields "position") with ["position"].
      change (Fields "fen") with ["fen"]. change (Fields "moves") with ["moves"].
      cbn [app]. f_equal. f_equal. rewrite <- app_assoc. done.
Qed.

Lemma BuildPositionCommand_tokens_witness :
  Fields (BuildPositionCommand "8/8/8/8/8/8/8/K6k w - - 0 1" ["a1a2"])
  = ["position"; "fen"; "8/8/8/8/8/8/8/K6k"; "w"; "-"; "-"; "0"; "1"; "moves"; "a1a2"].
Proof.
  apply (BuildPositionCommand_tokens "8/8/8/8/8/8/8/K6k w - - 0 1" ["a1a2"]);
    [reflexivity|]. by repeat constructor.
Defined.

(** X7.  [BuildSetOptionCommand]: the line splits into [setoption],
    [name], the words of the name and, only when the value is not empty,
    [value] followed by the words of the value. *)
Theorem BuildSetOptionCommand_tokens name value :
  isASCII name = true → isASCII value = true →
  Fields (BuildSetOptionCommand name value)
  = ("setoption" :: "name" :: Fields name
     ++ (if value =? "" then [] else "value" :: Fields value))%list.
Proof.
  intros _ _. unfold BuildSetOptionCommand.
  change ("setoption name " ++ name) with ("setoption" ++ " " ++ ("name" ++ " " ++ name)).
  change ("setoption name " ++ name ++ " value " ++ value)
    with ("setoption" ++ " " ++ ("name" ++ " " ++ (name ++ " " ++ ("value" ++ " " ++ value)))).
  destruct (value =? "").
  - rewrite !Fields_app_space. cbn. by rewrite app_nil_r.
  - rewrite !Fields_app_space. done.
Qed.

Lemma BuildSetOptionCommand_tokens_witness :
  Fields (BuildSetOptionCommand "Skill Level" "20")
  = ["setoption"; "name"; "Skill"; "Level"; "value"; "20"].
Proof.
  exact (BuildSetOptionCommand_tokens "Skill Level" "20" eq_refl eq_refl).
Defined.

(** ** [itoa] *)

Section Itoa.

Local Open Scope Z_scope.

Lemma digitByte_digit (d : Z) :
  (0 ≤ d ≤ 9)%Z →
  isDigit (digitByte d) = true ∧ digitVal (digitByte d) = d
  ∧ Ascii.eqb (digitByte d) "-" = false ∧ Ascii.eqb (digitByte d) "+" = false.
Proof.
  intros Hd.
  assert (d = 0 ∨ d = 1 ∨ d = 2 ∨ d = 3 ∨ d = 4 ∨ d = 5 ∨ d = 6 ∨ d = 7 ∨ d = 8 ∨ d = 9)
    as Hc by lia.
  repeat (destruct Hc as [->|Hc]; [by vm_compute|]). subst d. by vm_compute.
Qed.

Lemma setByte_ok buf (i : Z) c :
  (0 ≤ i < Z.of_nat (length buf))%Z →
  setByte buf i c = Returned (<[Z.to_nat i := c]> buf).
Proof.
  intros Hi. unfold setByte.
  destruct (Z.leb_spec 0 i); [|lia].
  destruct (Z.ltb_spec i (Z.of_nat (length buf))); [done|lia].
Qed.

Lemma drop_insert_here (buf : list ascii) j c :
  (j < length buf)%nat → drop j (<[j := c]> buf) = c :: drop (S j) buf.
Proof.
  intros Hj. rewrite drop_insert_ge by lia. rewrite Nat.sub_diag.
  destruct (lookup_lt_is_Some_2 buf j Hj) as [y Hy].
  by rewrite (drop_S _ _ _ Hy).
Qed.

Lemma parseUintLoop_digit (d : Z) rest (n : Z) :
  (0 ≤ d ≤ 9)%Z → (0 ≤ n)%Z → (n * 10 + d < 2 ^ 63)%Z →
  parseUintLoop (String (digitByte d) rest) n = parseUintLoop rest (n * 10 + d).
Proof.
  intros Hd Hn Hb. destruct (digitByte_digit d Hd) as (Hdig & Hval & _).
  cbn [parseUintLoop]. rewrite Hdig, Hval. cbn [negb].
  unfold maxUint64.
  destruct (Z.leb_spec ((2 ^ 64 - 1) / 10 + 1) n) as [Hc|_].
  { exfalso. assert ((2 ^ 64 - 1) / 10 + 1 = 1844674407370955162) as Hq by reflexivity.
    rewrite Hq in Hc. assert (2 ^ 63 = 9223372036854775808) as Hp by reflexivity. lia. }
  destruct (Z.ltb_spec (2 ^ 64 - 1) (n * 10 + d)) as [Hc|_]; [|done].
  exfalso. assert (2 ^ 63 < 2 ^ 64 - 1) by reflexivity. lia.
Qed.

(** The digit loop writes the decimal digits of [n] in front of what the
    buffer holds from [i] on: scanning them from the accumulator 0 gives
    [n]. *)
Lemma itoaLoop_digits : ∀ (k : nat) (n i : Z) buf fuel,
  (0 < n < 10 ^ Z.of_nat k)%Z → (n < 2 ^ 63)%Z → (k ≤ fuel)%nat →
  (Z.of_nat k ≤ i ≤ Z.of_nat (length buf))%Z →
  ∃ i' buf' ds,
    itoaLoop fuel n i buf = Returned (i', buf')
    ∧ (i - Z.of_nat k ≤ i' < i)%Z
    ∧ length buf' = length buf
    ∧ drop (Z.to_nat i') buf' = (ds ++ drop (Z.to_nat i) buf)%list
    ∧ (∃ d ds', (0 ≤ d ≤ 9)%Z ∧ ds = digitByte d :: ds')
    ∧ ∀ rest, parseUintLoop (string_of_list_ascii ds ++ rest) 0
              = parseUintLoop rest n.
Proof.
  induction k as [|k IH]; intros n i buf fuel Hn Hb Hf Hi.
  { cbn in Hn. lia. }
  destruct fuel as [|fuel]; [lia|]. cbn [itoaLoop].
  destruct (Z.ltb_spec 0 n); [|lia]. cbv zeta.
  rewrite setByte_ok by lia. obind.
  set (d := Z.rem n 10). set (q := Z.quot n 10).
  assert (Hd : 0 ≤ d ≤ 9).
  { unfold d. rewrite Z.rem_mod_nonneg by lia. pose proof (Z.mod_pos_bound n 10). lia. }
  assert (Hq : n = q * 10 + d).
  { unfold q, d. pose proof (Z.quot_rem' n 10). lia. }
  assert (Hq0 : 0 ≤ q) by (unfold q; apply Z.quot_pos; lia).
  set (buf1 := <[Z.to_nat (i - 1) := digitByte d]> buf).
  assert (Hlen1 : length buf1 = length buf) by (unfold buf1; apply length_insert).
  assert (Hdrop1 : drop (Z.to_nat (i - 1)) buf1 = digitByte d :: drop (Z.to_nat i) buf).
  { unfold buf1. rewrite drop_insert_here by lia. do 2 f_equal. lia. }
  destruct (Z.eq_dec q 0) as [Hz|Hnz].
  - (* last digit *)
    rewrite Hz. destruct fuel; cbn [itoaLoop]; change (0 <? 0) with false; cbn match;
      (exists (i - 1), buf1, [digitByte d];
       split; [done|]; split; [lia|]; split; [done|]; split; [done|];
       split; [by exists d, []|];
       intros rest; cbn [string_of_list_ascii];
       change (String (digitByte d) "" ++ rest) with (String (digitByte d) rest);
       rewrite parseUintLoop_digit by lia; f_equal; lia).
  - assert (Hqk : 0 < q < 10 ^ Z.of_nat k).
    { split; [lia|]. rewrite Nat2Z.inj_succ, Z.pow_succ_r in Hn by lia. lia. }
    destruct (IH q (i - 1) buf1 fuel Hqk ltac:(lia) ltac:(lia) ltac:(lia))
      as (i' & buf' & ds & Hrun & Hi' & Hlen & Hdrop & Hhd & Hparse).
    exists i', buf', (ds ++ [digitByte d])%list.
    split; [done|]. split; [lia|]. split; [by rewrite Hlen|].
    split; [by rewrite Hdrop, Hdrop1, <- app_assoc|].
    split.
    { destruct Hhd as (d0 & ds' & Hd0 & ->). by exists d0, (ds' ++ [digitByte d])%list. }
    intros rest.
    assert (string_of_list_ascii (ds ++ [digitByte d]) ++ rest
            = string_of_list_ascii ds ++ String (digitByte d) rest) as ->.
    { clear. induction ds as [|c ds IHds]; [done|].
      cbn [app string_of_list_ascii].
      change (String c (string_of_list_ascii (ds ++ [digitByte d])) ++ rest)
        with (String c (string_of_list_ascii (ds ++ [digitByte d]) ++ rest)).
      by rewrite IHds. }
    rewrite Hparse, parseUintLoop_digit by lia. f_equal. lia.
Qed.

Lemma itoaLoop_run (n : Z) :
  0 < n < 2 ^ 63 →
  ∃ i' buf' d ds,
    itoaLoop 20 n 20 (replicate 20%nat Ascii.zero) = Returned (i', buf')
    ∧ 1 ≤ i' < 20 ∧ length buf' = 20%nat
    ∧ 0 ≤ d ≤ 9
    ∧ drop (Z.to_nat i') buf' = digitByte d :: ds
    ∧ ∀ rest, parseUintLoop (String (digitByte d) (string_of_list_ascii ds) ++ rest) 0
              = parseUintLoop rest n.
Proof.
  intros Hn.
  destruct (itoaLoop_digits 19 n 20 (replicate 20%nat Ascii.zero) 20)
    as (i' & buf' & ds0 & Hrun & Hi' & Hlen & Hdrop & (d & ds & Hd & ->) & Hparse).
  { split; [lia|]. assert (2 ^ 63 < 10 ^ Z.of_nat 19) by reflexivity. lia. }
  { lia. } { lia. } { cbn. lia. }
  exists i', buf', d, ds. split; [done|]. split; [lia|]. split; [done|].
  split; [done|]. split; [|exact Hparse].
  rewrite Hdrop. cbn [length replicate] in *. rewrite drop_ge by (cbn; lia).
  by rewrite app_nil_r.
Qed.

End Itoa.

(** X8.  [itoa] returns on every [int] without indexing outside its
    20-byte buffer, and for every [n] but the least one reading its
    result back with [strconv.ParseInt] gives [n] again.  For the least
    [int], whose negation wraps around to itself, the result is the bare
    sign ["-"]. *)
Theorem itoa_ParseInt (n : Z) :
  (minInt64 ≤ n ≤ maxInt64)%Z →
  ∃ s, itoa n = Returned s
       ∧ (n ≠ minInt64 → ParseInt s = (n, None))
       ∧ (n = minInt64 → s = "-").
Proof.
  unfold minInt64, maxInt64. intros Hn.
  destruct (Z.eq_dec n (- 2 ^ 63)) as [->|Hmin].
  { exists "-". by vm_compute. }
  unfold itoa. destruct (Z.eqb_spec n 0) as [->|Hz].
  { exists "0". split; [done|]. split; [done|]. intros [=]. }
  destruct (Z.ltb_spec n 0) as [Hneg|Hpos].
  - assert (Hw : wrap64 (- n) = (- n)%Z).
    { unfold wrap64. rewrite Z.mod_small; lia. }
    rewrite Hw.
    destruct (itoaLoop_run (- n)) as (i' & buf' & d & ds & -> & Hi' & Hlen & Hd & Hdrop & Hparse);
      [lia|]. obind.
    rewrite setByte_ok by lia. obind.
    unfold bytesFrom. rewrite length_insert, Hlen.
    destruct (Z.leb_spec 0 (i' - 1)); [|lia].
    destruct (Z.leb_spec (i' - 1) (Z.of_nat 20)); [|lia]. cbn [andb].
    eexists. split; [reflexivity|]. split; [intros _|done].
    rewrite drop_insert_here by lia.
    replace (S (Z.to_nat (i' - 1))) with (Z.to_nat i') by lia.
    rewrite Hdrop. cbn [string_of_list_ascii].
    unfold ParseInt. change (Ascii.eqb "-" "-") with true.
    change (Ascii.eqb "-" "+") with false. cbn [orb negb andb].
    unfold ParseUint. cbn [isEmpty].
    specialize (Hparse ""). rewrite append_empty_r in Hparse. rewrite Hparse.
    cbn [parseUintLoop].
    destruct (Z.ltb_spec (2 ^ 63) (- n)); [lia|]. f_equal. lia.
  - destruct (itoaLoop_run n) as (i' & buf' & d & ds & -> & Hi' & Hlen & Hd & Hdrop & Hparse);
      [lia|]. obind.
    unfold bytesFrom. rewrite Hlen.
    destruct (Z.leb_spec 0 i'); [|lia].
    destruct (Z.leb_spec i' (Z.of_nat 20)); [|lia]. cbn [andb].
    eexists. split; [reflexivity|]. split; [intros _|done].
    rewrite Hdrop. cbn [string_of_list_ascii].
    destruct (digitByte_digit d Hd) as (_ & _ & Hm & Hp).
    unfold ParseInt. rewrite Hm, Hp. cbn [orb negb andb].
    unfold ParseUint. cbn [isEmpty].
    specialize (Hparse ""). rewrite append_empty_r in Hparse. rewrite Hparse.
    cbn [parseUintLoop].
    destruct (Z.leb_spec (2 ^ 63) n); [lia|]. done.
Qed.

Lemma itoa_ParseInt_witness :
  ∃ s, itoa (-305) = Returned s ∧ ParseInt s = (-305, None).
Proof.
  destruct (itoa_ParseInt (-305)) as (s & Hs & Hp & _); [by vm_compute|].
  exists s. split; [exact Hs|]. apply Hp. by vm_compute.
Defined.

(** ** The session: start, stop, wait *)

Lemma Start_spawned env e :
  startable (Engine.state e) = true → spawns env = true →
  Start env e
  = match initUCILoop (handshake env) (spawnedEngine env e) with
    | (Some err, e') => (Some err, snd (Stop (stopEnv env) e'))
    | (None, e') => (None, e')
    end.
Proof.
  unfold spawns. intros Hs Hsp.
  apply andb_prop in Hsp as [Hsp Huci]. apply andb_prop in Hsp as [Hsp Hproc].
  apply andb_prop in Hsp as [Hin Hout].
  unfold Start. rewrite (Start_guard e Hs), Hin, Hout, Hproc. cbn [negb].
  unfold initUCI, sendCommand. rewrite Huci. done.
Qed.

Lemma initUCILoop_answered : ∀ events e,
  answered "uciok" events = true →
  fst (initUCILoop events e) = None
  ∧ Engine.state (snd (initUCILoop events e)) = EngineStateReady
  ∧ Engine.stateLog (snd (initUCILoop events e))
    = (Engine.stateLog e ++ [EngineStateReady])%list
  ∧ Engine.stdin (snd (initUCILoop events e)) = Engine.stdin e
  ∧ Engine.outputCh (snd (initUCILoop events e)) = Engine.outputCh e
  ∧ Engine.infoCh (snd (initUCILoop events e)) = Engine.infoCh e
  ∧ Engine.ID (snd (initUCILoop events e)) = Engine.ID e
  ∧ Engine.BinaryPath (snd (initUCILoop events e)) = Engine.BinaryPath e
  ∧ Engine.cancelled (snd (initUCILoop events e)) = Engine.cancelled e
  ∧ Engine.spawned (snd (initUCILoop events e)) = Engine.spawned e
  ∧ Engine.killed (snd (initUCILoop events e)) = Engine.killed e.
Proof.
  induction events as [|ev rest IH]; intros e Ha; [done|].
  destruct ev as [line| | |]; try done.
  destruct line; cbn in Ha |- *; try done;
    lazymatch goal with
    | |- context [initUCILoop rest ?e'] =>
        pose proof (IH e' Ha) as H; cbn in H; exact H
    end.
Qed.


Lemma initUCILoop_table n : ∀ events e,
  Engine.Name (snd (initUCILoop events e))
  = default (Engine.Name e) (last (idNames (linesBefore "uciok" events)))
  ∧ Engine.Author (snd (initUCILoop events e))
    = default (Engine.Author e) (last (idAuthors (linesBefore "uciok" events)))
  ∧ Engine.options (snd (initUCILoop events e)) !! n
    = match last (filter (λ o, UCIOption.Name o = n)
                    (declaredOptions (linesBefore "uciok" events))) with
      | Some o => Some o
      | None => Engine.options e !! n
      end.
Proof.
  induction events as [|ev rest IH]; intros e; [done|].
  destruct ev as [line| | |]; try done.
  destruct line; cbn [initUCILoop linesBefore LineType]; try done;
    match goal with
    | |- context [if ?a =? ?b then _ else _] =>
        change (a =? b) with false; cbn match
    end;
    unfold idNames, idAuthors, declaredOptions; cbn [omap list_omap];
    fold (idNames (linesBefore "uciok" rest));
    fold (idAuthors (linesBefore "uciok" rest));
    fold (declaredOptions (linesBefore "uciok" rest));
    try apply IH.
  - (* id name *)
    destruct (IH (Engine.set_Name name e)) as (H1 & H2 & H3).
    rewrite H1, H2, H3, last_cons. split; [|done].
    by destruct (last (idNames _)).
  - (* id author *)
    destruct (IH (Engine.set_Author author e)) as (H1 & H2 & H3).
    rewrite H1, H2, H3, last_cons. split; [done|]. split; [|done].
    by destruct (last (idAuthors _)).
  - (* option *)
    destruct (IH (Engine.set_options (<[UCIOption.Name opt := opt]> (Engine.options e)) e))
      as (H1 & H2 & H3).
    rewrite H1, H2, H3. split; [done|]. split; [done|].
    rewrite filter_cons. cbn [Engine.options Engine.set_options].
    destruct (decide (UCIOption.Name opt = n)) as [Heq|Hne].
    + rewrite last_cons.
      destruct (last (filter _ (declaredOptions _))); [done|].
      by rewrite <- Heq, lookup_insert_eq.
    + destruct (last (filter _ (declaredOptions _))); [done|].
      by rewrite lookup_insert_ne.
Qed.



(** X10.  What a successful handshake leaves in the engine: the name and
    the author of the last [id] line of each kind received before
    [uciok], and under each option name the last descriptor declared
    with that name.  Where the handshake is silent the previous value
    stays: [Start] does not reset the name, the author or the option
    table of an engine that is started again. *)
Theorem Start_identity_and_options env e n :
  startable (State e) = true →
  spawns env = true →
  answered "uciok" (handshake env) = true →
  let lines := linesBefore "uciok" (handshake env) in
  Engine.Name (snd (Start env e)) = default (Engine.Name e) (last (idNames lines))
  ∧ Engine.Author (snd (Start env e))
    = default (Engine.Author e) (last (idAuthors lines))
  ∧ Engine.options (snd (Start env e)) !! n
    = match last (filter (λ o, UCIOption.Name o = n) (declaredOptions lines)) with
      | Some o => Some o
      | None => Engine.options e !! n
      end.
Proof.
  unfold State. intros Hs Hsp Ha. cbv zeta. rewrite (Start_spawned env e Hs Hsp).
  destruct (initUCILoop_answered (handshake env) (spawnedEngine env e) Ha) as (H1 & _).
  pose proof (initUCILoop_table n (handshake env) (spawnedEngine env e)) as Ht.
  destruct (initUCILoop (handshake env) (spawnedEngine env e)) as [[err|] e2];
    cbn [fst snd] in *; [done|]. exact Ht.
Qed.

Lemma Start_identity_and_options_witness :
  Engine.Name (snd (Start stubEnv stoppedEngine)) = "Stub"
  ∧ Engine.Author (snd (Start stubEnv stoppedEngine)) = "Tester"
  ∧ Engine.options (snd (Start stubEnv stoppedEngine)) !! "Threads"
    = Engine.options stoppedEngine !! "Threads".
Proof.
  exact (Start_identity_and_options stubEnv stoppedEngine "Threads"
           eq_refl eq_refl eq_refl).
Defined.

(** X11.  When one of the three steps of spawning the child fails,
    [Start] returns the error of the first step that failed, wrapped,
    and leaves the engine in state Error, having assigned Starting and
    Error; nothing is written, and the context made for the run is not
    cancelled. *)
Theorem Start_spawn_failure env e :
  startable (State e) = true →
  childStarts env = false →
  fst (Start env e)
  = Some (if negb (stdinPipeOk env) then ErrStdinPipe
          else if negb (stdoutPipeOk env) then ErrStdoutPipe
          else ErrStartProcess)
  ∧ State (snd (Start env e)) = EngineStateError
  ∧ Engine.stateLog (snd (Start env e))
    = (Engine.stateLog e ++ [EngineStateStarting; EngineStateError])%list
  ∧ Engine.stdin (snd (Start env e))
    = (if stdinPipeOk env then Some [] else None)
  ∧ Engine.spawned (snd (Start env e)) = false
  ∧ Engine.cancelled (snd (Start env e)) = parentDone env.
Proof.
  unfold State, childStarts. intros Hs Hc.
  unfold Start. rewrite (Start_guard e Hs).
  destruct (stdinPipeOk env); cbn [negb andb] in *;
    [|cbn; by rewrite <- app_assoc].
  destruct (stdoutPipeOk env); cbn [negb andb] in *;
    [|cbn; by rewrite <- app_assoc].
  rewrite Hc. cbn. by rewrite <- app_assoc.
Qed.

Lemma Start_spawn_failure_witness :
  let env := mkStartEnv false true true false true [] (mkStopEnv true true) in
  fst (Start env (NewEngine "sf" "/no/such/binary")) = Some ErrStartProcess
  ∧ State (snd (Start env (NewEngine "sf" "/no/such/binary"))) = EngineStateError.
Proof.
  intros env.
  destruct (Start_spawn_failure env (NewEngine "sf" "/no/such/binary") eq_refl eq_refl)
    as (H1 & H2 & _).
  split; [exact H1|exact H2].
Defined.



(** X13.  [Go] accepted in state Ready leaves the engine in state
    Thinking, also when its write fails (the state is assigned before the
    write and is not rolled back).  From then on [Go] and [SetPosition]
    are refused, until [handleLine] sees a bestmove line, which makes
    the engine Ready, and [Go] is accepted again. *)
Theorem Go_busy_until_bestmove wok params e :
  State e = EngineStateReady →
  let e1 := snd (Go wok params e) in
  State e1 = EngineStateThinking
  ∧ (∀ wok' params', Go wok' params' e1 = (Some (ErrNotReady EngineStateThinking), e1))
  ∧ (∀ wok' fen moves, SetPosition wok' fen moves e1 = (Some ErrEngineNotRunning, e1))
  ∧ (∀ bm, ∃ e2, handleLine (PLBestMove bm) e1 = Done e2
                 ∧ State e2 = EngineStateReady
                 ∧ ∀ wok' params', State (snd (Go wok' params' e2)) = EngineStateThinking)
  ∧ (wok = false →
     fst (Go wok params e) ≠ None ∧ Engine.stdin e1 = Engine.stdin e).
Proof.
  unfold State. intros Hst. cbv zeta.
  assert (H1 : Engine.state (snd (Go wok params e)) = EngineStateThinking).
  { unfold Go, State. rewrite Hst. cbn [bool_decide negb].
    rewrite bool_decide_eq_true_2 by done. cbn [negb].
    by pose proof (sendCommand_state wok (BuildGoCommand params)
                     (setState EngineStateThinking e)) as (-> & _). }
  split; [done|].
  assert (Hstdin : wok = false →
    fst (Go wok params e) ≠ None
    ∧ Engine.stdin (snd (Go wok params e)) = Engine.stdin e).
  { intros ->. unfold Go, State. rewrite Hst.
    rewrite bool_decide_eq_true_2 by done. cbn [negb].
    unfold sendCommand. cbn [setState Engine.set_state Engine.stdin].
    destruct (Engine.stdin e) eqn:Hw; cbn; by rewrite ?Hw. }
  revert H1 Hstdin. generalize (snd (Go wok params e)). intros e1 H1 Hstdin.
  split; [intros; unfold Go, State; by rewrite H1|].
  split; [intros; unfold SetPosition, State; by rewrite H1|].
  split; [|done].
  intros bm. eexists. split; [reflexivity|]. split; [done|].
  intros wok' params'. unfold Go, State. cbn [setState Engine.set_state Engine.state].
  rewrite bool_decide_eq_true_2 by done. cbn [negb].
  by pose proof (sendCommand_state wok' (BuildGoCommand params')
                   (setState EngineStateThinking (setState EngineStateReady e1)))
    as (-> & _).
Qed.

Lemma Go_busy_until_bestmove_witness :
  State (snd (Go false ponderParams readyEngine)) = EngineStateThinking
  ∧ Go true ponderParams (snd (Go false ponderParams readyEngine))
    = (Some (ErrNotReady EngineStateThinking), snd (Go false ponderParams readyEngine))
  ∧ Engine.stdin (snd (Go false ponderParams readyEngine)) = Some ["uci"].
Proof.
  destruct (Go_busy_until_bestmove false ponderParams readyEngine eq_refl)
    as (H1 & H2 & _ & _ & H3).
  split; [exact H1|]. split; [apply H2|]. by destruct (H3 eq_refl) as [_ ->].
Defined.

(** X14.  [Stop] never returns an error and a second [Stop] changes
    nothing.  On an engine that was never started it does nothing; on
    every other it ends in state Stopped.  On a running engine it
    cancels the context, appends "quit" to the pipe when the write
    succeeds, and kills the process exactly when it has not exited
    within the grace period and was spawned. *)
Theorem Stop_idempotent env env' e :
  fst (Stop env e) = None
  ∧ Stop env' (snd (Stop env e)) = (None, snd (Stop env e))
  ∧ (State e = EngineStateNone → Stop env e = (None, e))
  ∧ (State e ≠ EngineStateNone →
     State (snd (Stop env e)) = EngineStateStopped)
  ∧ (State e ≠ EngineStateNone → State e ≠ EngineStateStopped →
     Engine.cancelled (snd (Stop env e)) = true
     ∧ Engine.stdin (snd (Stop env e))
       = (if quitWriteOk env then (λ w, (w ++ ["quit"])%list) <$> Engine.stdin e
          else Engine.stdin e)
     ∧ Engine.killed (snd (Stop env e))
       = (if exitedInGrace env then Engine.killed e
          else if Engine.spawned e then true else Engine.killed e)).
Proof.
  unfold State.
  assert (Hlive : Engine.state e ≠ EngineStateNone → Engine.state e ≠ EngineStateStopped →
    Engine.state (snd (Stop env e)) = EngineStateStopped
    ∧ Engine.cancelled (snd (Stop env e)) = true
    ∧ Engine.stdin (snd (Stop env e))
      = (if quitWriteOk env then (λ w, (w ++ ["quit"])%list) <$> Engine.stdin e
         else Engine.stdin e)
    ∧ Engine.killed (snd (Stop env e))
      = (if exitedInGrace env then Engine.killed e
         else if Engine.spawned e then true else Engine.killed e)).
  { intros H1 H2. unfold Stop. rewrite !bool_decide_eq_false_2 by done.
    cbn [orb snd]. unfold sendCommand.
    destruct (Engine.stdin e) as [w|] eqn:Hw, (quitWriteOk env), (exitedInGrace env);
      cbn; rewrite ?Hw; try done; by destruct (Engine.spawned e). }
  assert (Hnoop : ∀ env0 e0,
    Engine.state e0 = EngineStateNone ∨ Engine.state e0 = EngineStateStopped →
    Stop env0 e0 = (None, e0)).
  { intros env0 e0 [H|H]; unfold Stop; by rewrite H. }
  split; [unfold Stop; by destruct (_ || _)|].
  split.
  { destruct (decide (Engine.state e = EngineStateNone)) as [H1|H1];
      [rewrite (Hnoop env e) by auto; apply Hnoop; auto|].
    destruct (decide (Engine.state e = EngineStateStopped)) as [H2|H2];
      [rewrite (Hnoop env e) by auto; apply Hnoop; auto|].
    destruct (Hlive H1 H2) as (Hs & _). apply Hnoop. auto. }
  split; [intros H; apply Hnoop; auto|].
  split.
  { intros H1. destruct (decide (Engine.state e = EngineStateStopped)) as [H2|H2];
      [by rewrite (Hnoop env e) by auto|].
    by destruct (Hlive H1 H2). }
  intros H1 H2. by destruct (Hlive H1 H2) as (_ & ? & ? & ?).
Qed.

Lemma Stop_idempotent_witness :
  State (snd (Stop (mkStopEnv true false) thinkingEngine)) = EngineStateStopped
  ∧ Engine.stdin (snd (Stop (mkStopEnv true false) thinkingEngine))
    = Some ["uci"; "go depth 10"; "quit"]
  ∧ Engine.killed (snd (Stop (mkStopEnv true false) thinkingEngine)) = true.
Proof.
  destruct (Stop_idempotent (mkStopEnv true false) (mkStopEnv true false) thinkingEngine)
    as (_ & _ & _ & H1 & H2).
  split; [by apply H1|]. destruct H2 as (_ & H3 & H4); [done..|].
  split; [exact H3|exact H4].
Defined.

(** X15.  [monitor] changes the state only when the wait on the process
    returns an error and the context is not done, and then assigns
    Error.  A clean exit changes nothing, and an exit observed after
    [Stop] has returned is not reported, whatever the wait returns. *)
Theorem monitor_reports_crash_only :
  (∀ e, monitor false e = e)
  ∧ (∀ e, Engine.cancelled e = false →
          State (monitor true e) = EngineStateError
          ∧ Engine.stateLog (monitor true e)
            = (Engine.stateLog e ++ [EngineStateError])%list)
  ∧ (∀ waitErr env e,
       State e ≠ EngineStateNone → State e ≠ EngineStateStopped →
       monitor waitErr (snd (Stop env e)) = snd (Stop env e)).
Proof.
  unfold State. split; [done|]. split.
  - intros e Hc. unfold monitor. by rewrite Hc.
  - intros waitErr env e H1 H2. unfold monitor, Stop.
    rewrite !bool_decide_eq_false_2 by done. cbn [orb snd].
    cbn [setState Engine.set_state Engine.cancelled Engine.set_cancelled].
    by rewrite andb_false_r.
Qed.

Lemma monitor_reports_crash_only_witness :
  State (monitor true thinkingEngine) = EngineStateError
  ∧ monitor true (snd (Stop (mkStopEnv true false) thinkingEngine))
    = snd (Stop (mkStopEnv true false) thinkingEngine).
Proof.
  destruct monitor_reports_crash_only as (_ & H1 & H2).
  split; [by apply H1|by apply H2].
Defined.

Lemma handleLine_open line e :
  infoChOpen e →
  ∃ e', handleLine line e = Done e'
        ∧ infoChOpen e'
        ∧ Engine.stdin e' = Engine.stdin e
        ∧ Engine.state e'
          = (if isBestMoveLine line then EngineStateReady else Engine.state e).
Proof.
  intros (Hc & Hcap & Hlen). unfold infoChOpen.
  destruct line; try (by eexists).
  cbn [handleLine isBestMoveLine].
  set (i := AnalysisInfo.set_EngineID _ _).
  destruct (chanSend (Engine.infoCh e) i) as [ch| |] eqn:Hs.
  - apply chanSend_done in Hs as (_ & Hlt & ->). eexists. split; [done|].
    unfold chanLen in *. cbn. rewrite length_app. cbn. repeat split; (done || lia).
  - apply chanSend_wait in Hs as (_ & Hge). unfold chanLen in *.
    unfold chanRecv. destruct (buf (Engine.infoCh e)) as [|x rest] eqn:Hb;
      [cbn in Hge; lia|].
    unfold chanSend, chanLen. cbn [closed buf cap]. rewrite Hc.
    cbn [length] in *.
    destruct (Nat.ltb_spec (length rest) (cap (Engine.infoCh e))); [|lia].
    eexists. split; [done|]. cbn. rewrite length_app. cbn.
    repeat split; (done || lia).
  - apply chanSend_panic in Hs. congruence.
Qed.

Lemma waitForLoop_answered responseType : ∀ events e,
  infoChOpen e →
  answered responseType events = true →
  ∃ e', waitForLoop responseType events e = Done (None, e')
        ∧ infoChOpen e'
        ∧ Engine.stdin e' = Engine.stdin e
        ∧ Engine.state e'
          = (if existsb isBestMoveLine (linesBefore responseType events)
             then EngineStateReady else Engine.state e).
Proof.
  induction events as [|ev rest IH]; intros e Hopen Ha; [done|].
  destruct ev as [line| | |]; try done. cbn [waitForLoop answered linesBefore] in *.
  destruct (LineType line =? responseType); [by exists e|].
  destruct (handleLine_open line e Hopen) as (e1 & -> & Hopen1 & Hin1 & Hst1).
  destruct (IH e1 Hopen1 Ha) as (e' & -> & Hopen' & Hin' & Hst').
  exists e'. split; [done|]. split; [done|]. split; [congruence|].
  rewrite Hst', Hst1. cbn [existsb]. by destruct (isBestMoveLine line), (existsb _ _).
Qed.

(** X16.  [IsReady] on a running engine whose analysis channel is open:
    when [readyok] is received before the timer, the end of the output
    or the cancellation, it returns no error, having appended "isready"
    to the pipe; the lines received before [readyok] have gone through
    [handleLine], so the state is Ready if a bestmove line was among
    them and unchanged otherwise.  With a nil pipe or a failing write it
    returns the error and changes nothing. *)
Theorem IsReady_readyok events e w :
  State e ≠ EngineStateNone → State e ≠ EngineStateStopped →
  Engine.stdin e = Some w →
  infoChOpen e →
  answered "readyok" events = true →
  ∃ e', IsReady true events e = Done (None, e')
        ∧ Engine.stdin e' = Some (w ++ ["isready"])%list
        ∧ State e'
          = (if existsb isBestMoveLine (linesBefore "readyok" events)
             then EngineStateReady else State e)
        ∧ (∀ wok, IsReady wok events (Engine.set_stdin None e)
                  = Done (Some ErrEngineNotRunning, Engine.set_stdin None e))
        ∧ IsReady false events e = Done (Some ErrWrite, e).
Proof.
  unfold State. intros H1 H2 Hw Hopen Ha. unfold IsReady, State.
  cbn [Engine.state Engine.set_stdin].
  rewrite !bool_decide_eq_false_2 by done. cbn [orb].
  unfold sendCommand. cbn [Engine.stdin Engine.set_stdin]. rewrite Hw.
  destruct (waitForLoop_answered "readyok" events
              (Engine.set_stdin (Some (w ++ ["isready"])%list) e) Hopen Ha)
    as (e' & -> & _ & Hin & Hst).
  exists e'. split; [done|]. split; [done|]. split; [done|]. done.
Qed.

Lemma IsReady_readyok_witness :
  ∃ e', IsReady true [EvLine (PLBestMove (BestMove.mk "e2e4" "")); EvLine PLReadyOk]
          thinkingEngine = Done (None, e')
        ∧ Engine.stdin e' = Some ["uci"; "go depth 10"; "isready"]
        ∧ State e' = EngineStateReady.
Proof.
  destruct (IsReady_readyok
              [EvLine (PLBestMove (BestMove.mk "e2e4" "")); EvLine PLReadyOk]
              thinkingEngine ["uci"; "go depth 10"])
    as (e' & H1 & H2 & H3 & _); [done|done|reflexivity| |reflexivity|].
  - split; [reflexivity|]. split; vm_compute; lia.
  - exists e'. split; [exact H1|]. split; [exact H2|exact H3].
Defined.

(** X17.  [IsReady] passes the lines it receives while waiting to
    [handleLine].  On an engine whose analysis channel has been closed
    (the reader has returned) an info line received there is sent on the
    closed channel: the call panics. *)
Theorem IsReady_after_reader_exit info rest e w :
  State e ≠ EngineStateNone → State e ≠ EngineStateStopped →
  Engine.stdin e = Some w →
  closed (Engine.infoCh e) = true →
  IsReady true (EvLine (PLInfo info) :: rest) e = Crashed.
Proof.
  unfold State. intros H1 H2 Hw Hc. unfold IsReady, State.
  rewrite !bool_decide_eq_false_2 by done. cbn [orb].
  unfold sendCommand. rewrite Hw.
  cbn [waitForLoop LineType]. change ("info" =? "readyok") with false. cbn match.
  cbn [handleLine Engine.infoCh Engine.set_stdin]. unfold chanSend. by rewrite Hc.
Qed.

Lemma IsReady_after_reader_exit_witness :
  IsReady true [EvLine (PLInfo AnalysisInfo.zero); EvLine PLReadyOk]
    (Engine.set_infoCh (chanClose (Engine.infoCh readyEngine)) readyEngine)
  = Crashed.
Proof.
  apply (IsReady_after_reader_exit AnalysisInfo.zero [EvLine PLReadyOk]
           (Engine.set_infoCh (chanClose (Engine.infoCh readyEngine)) readyEngine)
           ["uci"]); done.
Defined.

(** ** The reader: order of delivery *)

Lemma readerTrace_run : ∀ evs s o,
  fst <$> readerTrace evs s o = readerRun evs s.
Proof.
  induction evs as [|ev rest IH]; intros s o; [done|].
  cbn. destruct (readerStep ev s); [apply IH|done].
Qed.

Lemma stamped_app id l k : stamped id (l ++ k) = (stamped id l ++ stamped id k)%list.
Proof. unfold stamped. apply omap_app. Qed.

Lemma stamped_length id l : (length (stamped id l) ≤ length l)%nat.
Proof.
  induction l as [|x l IH]; [done|]. unfold stamped in *. cbn [omap list_omap].
  destruct x; cbn [length]; lia.
Qed.

Lemma traceInv_init e : traceInv (Engine.ID e) (readerInit e) noObs.
Proof.
  unfold traceInv, readerInit. cbn. split; [done|]. split; [done|].
  split; [lia|]. split; [|done]. exists []. split; [done|]. split; [cbn; lia|done].
Qed.

Section TraceInv.

Local Open Scope list_scope.

Context {A : Type}.
Implicit Types (a b k S : list A).

Lemma sub_push a b k S : a ++ b ++ [] `sublist_of` S → a ++ b ++ k `sublist_of` S ++ k.
Proof.
  rewrite app_nil_r. intros H. rewrite app_assoc. by apply sublist_app.
Qed.

Lemma sub_forget a b k S : a ++ b ++ k `sublist_of` S → a ++ b ++ [] `sublist_of` S.
Proof.
  intros H. etrans; [|exact H]. apply sublist_app; [done|].
  apply sublist_app; [done|]. apply sublist_nil_l.
Qed.

Lemma sub_send a b x S : a ++ b ++ [x] `sublist_of` S → a ++ (b ++ [x]) ++ [] `sublist_of` S.
Proof. by rewrite app_nil_r. Qed.

Lemma sub_drop a b x k S : a ++ (x :: b) ++ k `sublist_of` S → a ++ b ++ k `sublist_of` S.
Proof.
  intros H. etrans; [|exact H]. apply sublist_app; [done|]. cbn. by apply sublist_cons.
Qed.

Lemma sub_recv a b x k S : a ++ (x :: b) ++ k `sublist_of` S → (a ++ [x]) ++ b ++ k `sublist_of` S.
Proof. by rewrite <- app_assoc. Qed.

End TraceInv.

Lemma traceInv_step id ev s s' o :
  traceInv id s o → readerStep ev s = Some s' → traceInv id s' (observe ev s o).
Proof.
  destruct s as [e p]. unfold traceInv, readerStep, observe. cbn [eng pc].
  intros (Hid & Hcap & Hlen & (lost & Hout & Hlost & Hnolost) & Hinfo).
  destruct ev.
  - (* the scanner yields a line *)
    destruct p; try done.
    rewrite (Hnolost ltac:(done) ltac:(done)) in Hout. cbn [pendingOutput app] in Hout.
    rewrite app_nil_r in Hout. cbn [pendingInfo] in Hinfo.
    destruct (ParseLine now raw) as [parsed| |]; intros [= <-];
      cbn [eng pc scanned outputRecvd infoRecvd pendingOutput pendingInfo];
      (split; [done|]; split; [done|]; split; [done|]); split.
    + exists []. split; [by rewrite Hout, app_nil_r, <- !app_assoc|].
      split; [cbn; lia|done].
    + rewrite stamped_app. by apply sub_push.
    + exists []. split; [by rewrite Hout, !app_nil_r|]. split; [cbn; lia|done].
    + done.
    + exists []. split; [by rewrite Hout, !app_nil_r|]. split; [cbn; lia|done].
    + done.
  - (* end of input *)
    destruct p; try done. intros [= <-]. cbn.
    split; [done|]. split; [done|]. split; [done|]. split; [|done].
    exists lost. by rewrite Hout.
  - (* the reader's pending operation *)
    destruct p as [|parsed|parsed|info|info| |]; try done.
    + (* the send on the response channel *)
      rewrite (Hnolost ltac:(done) ltac:(done)) in Hout. rewrite app_nil_r in Hout.
      cbn [pendingOutput pendingInfo] in *.
      destruct (chanSend (Engine.outputCh e) parsed) as [ch| |] eqn:Hs; [|done|].
      * apply chanSend_done in Hs as (_ & Hlt & ->). intros [= <-].
        unfold chanLen in *. cbn. rewrite length_app. cbn.
        split; [done|]. split; [done|]. split; [lia|]. split; [|done].
        exists []. split; [by rewrite Hout, !app_nil_r|]. split; [cbn; lia|done].
      * intros [= <-]. cbn. split; [done|]. split; [done|]. split; [done|].
        split; [|by eapply sub_forget].
        exists [parsed]. split; [by rewrite Hout|]. split; [cbn; lia|done].
    + (* entry of handleLine *)
      rewrite (Hnolost ltac:(done) ltac:(done)) in Hout.
      cbn [pendingOutput pendingInfo] in *.
      assert (Hrest : ∀ e', Engine.ID e' = id →
        Engine.outputCh e' = Engine.outputCh e → Engine.infoCh e' = Engine.infoCh e →
        stamped id [parsed] = [] →
        Engine.ID e' = id
        ∧ cap (Engine.outputCh e') = 100%nat
        ∧ (chanLen (Engine.outputCh e') ≤ 100)%nat
        ∧ (∃ lost0, scanned o
             = (outputRecvd o ++ buf (Engine.outputCh e') ++ [] ++ lost0)%list
             ∧ (length lost0 ≤ 1)%nat
             ∧ (AtScan ≠ Exited → AtScan ≠ ReaderPanicked → lost0 = []))
        ∧ (infoRecvd o ++ buf (Engine.infoCh e') ++ [])%list
          `sublist_of` stamped id (scanned o)).
      { intros e' Hid' Ho' Hi' Hst. rewrite Ho', Hi'. rewrite Hst in Hinfo.
        split; [done|]. split; [done|]. split; [done|]. split; [|done].
        exists []. split; [done|]. split; [cbn; lia|done]. }
      destruct parsed; try (intros [= <-]; by apply Hrest).
      cbn [stamped omap list_omap] in Hinfo. rewrite Hid.
      set (i := AnalysisInfo.set_EngineID id info) in *.
      destruct (chanSend (Engine.infoCh e) i) as [ch| |] eqn:Hs; intros [= <-].
      * apply chanSend_done in Hs as (_ & _ & ->). cbn.
        split; [done|]. split; [done|]. split; [done|].
        split; [exists []; split; [done|]; split; [cbn; lia|done]|].
        by apply sub_send.
      * cbn. split; [done|]. split; [done|]. split; [done|].
        split; [exists []; split; [done|]; split; [cbn; lia|done]|]. done.
      * cbn. split; [done|]. split; [done|]. split; [done|].
        split; [exists []; split; [done|]; split; [cbn; lia|done]|].
        by eapply sub_forget.
    + (* the drop of the oldest record *)
      rewrite (Hnolost ltac:(done) ltac:(done)) in Hout.
      cbn [pendingOutput pendingInfo] in *.
      destruct (chanRecv (Engine.infoCh e)) as [[o1 ch]| |] eqn:Hr; intros [= <-]; cbn;
        (split; [done|]; split; [done|]; split; [done|];
         split; [exists []; split; [done|]; split; [cbn; lia|done]|]); try done.
      apply chanRecv_done in Hr as (_ & _ & [(x & Hb & _)|(_ & -> & _)]); [|done].
      rewrite Hb in Hinfo. by eapply sub_drop.
    + (* the final send *)
      rewrite (Hnolost ltac:(done) ltac:(done)) in Hout.
      cbn [pendingOutput pendingInfo] in *.
      destruct (chanSend (Engine.infoCh e) info) as [ch| |] eqn:Hs; [|done|];
        intros [= <-]; cbn;
        (split; [done|]; split; [done|]; split; [done|];
         split; [exists []; split; [done|]; split; [cbn; lia|done]|]).
      * apply chanSend_done in Hs as (_ & _ & ->). by apply sub_send.
      * by eapply sub_forget.
  - (* the reader sees the cancellation *)
    destruct p as [|parsed| | | | |]; try done.
    destruct (Engine.cancelled e); [|done]. intros [= <-]. cbn.
    rewrite (Hnolost ltac:(done) ltac:(done)) in Hout. rewrite app_nil_r in Hout.
    cbn [pendingOutput pendingInfo] in *.
    split; [done|]. split; [done|]. split; [done|]. split; [|by eapply sub_forget].
    exists [parsed]. split; [by rewrite Hout|]. split; [cbn; lia|done].
  - (* a receive on the response channel *)
    destruct (chanRecv (Engine.outputCh e)) as [[o1 ch]| |] eqn:Hr; [|done..].
    intros [= <-].
    apply chanRecv_done in Hr as (Hc1 & _ & [(x & Hb & ->)|(Hb & -> & ->)]).
    + unfold chanLen in *. rewrite Hb in Hlen, Hout. cbn in Hlen |- *.
      split; [done|]. split; [congruence|]. split; [lia|]. split; [|done].
      exists lost. split; [by rewrite Hout, <- !app_assoc|done].
    + cbn. split; [done|]. split; [done|]. split; [done|]. split; [|done].
      by exists lost.
  - (* a receive on the analysis channel *)
    destruct (chanRecv (Engine.infoCh e)) as [[o1 ch]| |] eqn:Hr; [|done..].
    intros [= <-].
    apply chanRecv_done in Hr as (_ & _ & [(x & Hb & ->)|(Hb & -> & ->)]).
    + rewrite Hb in Hinfo. cbn.
      split; [done|]. split; [done|]. split; [done|]. split; [by exists lost|].
      by apply sub_recv.
    + cbn. split; [done|]. split; [done|]. split; [done|]. split; [|done].
      by exists lost.
  - (* the cancellation *)
    intros [= <-]. cbn. split; [done|]. split; [done|]. split; [done|].
    split; [|done]. by exists lost.
Qed.

Lemma traceInv_trace id : ∀ evs s o s' o',
  traceInv id s o → readerTrace evs s o = Some (s', o') → traceInv id s' o'.
Proof.
  induction evs as [|ev rest IH]; intros s o s' o' Hinv; cbn [readerTrace].
  - by intros [= <- <-].
  - destruct (readerStep ev s) as [s1|] eqn:Hstep; [|done].
    apply IH. by eapply traceInv_step.
Qed.

Lemma readerRun_trace evs s s' o :
  readerRun evs s = Some s' → ∃ o', readerTrace evs s o = Some (s', o').
Proof.
  intros Hrun. pose proof (readerTrace_run evs s o) as Ht. rewrite Hrun in Ht.
  destruct (readerTrace evs s o) as [[s1 o1]|]; [|done].
  injection Ht as ->. by exists o1.
Qed.

(** X18.  The response channel, for every schedule of the reader, the
    receivers and the cancellation: what has been received from it
    followed by what it still holds is a prefix of the lines scanned, in
    order and without repetition; at most one line is missing (the one
    the reader holds, or the one it dropped on cancellation), and none
    between two lines.  The reader is never more than 101 lines ahead of
    the receiver: with nobody receiving it scans 101 lines and no
    more. *)
Theorem response_channel_in_order e evs s :
  readerRun evs (readerInit e) = Some s →
  ∃ o, readerTrace evs (readerInit e) noObs = Some (s, o)
       ∧ (outputRecvd o ++ buf (Engine.outputCh (eng s)))%list `prefix_of` scanned o
       ∧ (length (scanned o)
          ≤ length (outputRecvd o ++ buf (Engine.outputCh (eng s)))%list + 1)%nat
       ∧ (pc s = AtScan ∨ (∃ parsed, pc s = AtHandle parsed) →
          scanned o = (outputRecvd o ++ buf (Engine.outputCh (eng s)))%list)
       ∧ (length (scanned o) ≤ length (outputRecvd o) + 101)%nat.
Proof.
  intros Hrun. destruct (readerRun_trace evs _ _ noObs Hrun) as [o Ho].
  exists o. split; [done|].
  destruct (traceInv_trace (Engine.ID e) evs _ _ _ _ (traceInv_init e) Ho)
    as (_ & _ & Hlen & (lost & Hout & Hlost & Hnolost) & _).
  assert (Hone : (length (scanned o)
                  ≤ length (outputRecvd o ++ buf (Engine.outputCh (eng s)))%list + 1)%nat).
  { rewrite Hout, !length_app.
    destruct (pc s); cbn [pendingOutput length] in *; try lia.
    rewrite Hnolost by done. cbn. lia. }
  split; [|split; [done|split]].
  - rewrite Hout, app_assoc. by eexists.
  - intros Hpc. rewrite Hout, Hnolost.
    + destruct Hpc as [->|[parsed ->]]; cbn; by rewrite ?app_nil_r.
    + by destruct Hpc as [->|[parsed ->]].
    + by destruct Hpc as [->|[parsed ->]].
  - unfold chanLen in Hlen. rewrite length_app in Hone. lia.
Qed.

Lemma response_channel_in_order_witness :
  ∃ s, readerRun (floodSchedule 2) (readerInit readyEngine) = Some s
       ∧ ∃ o, readerTrace (floodSchedule 2) (readerInit readyEngine) noObs = Some (s, o)
              ∧ (outputRecvd o ++ buf (Engine.outputCh (eng s)))%list
                `prefix_of` scanned o
              ∧ (length (scanned o) ≤ length (outputRecvd o) + 101)%nat.
Proof.
  eexists. split; [vm_compute; reflexivity|].
  match goal with
  | |- ∃ o, readerTrace _ _ _ = Some (?s, o) ∧ _ =>
      destruct (response_channel_in_order readyEngine (floodSchedule 2) s)
        as (o & Ho & Hp & _ & _ & Hl)
  end.
  - vm_compute. reflexivity.
  - exists o. split; [exact Ho|]. split; [exact Hp|exact Hl].
Defined.



(** ** The manager *)

(** X20.  [RegisterEngine] refuses an id that is registered and leaves
    the table as it is; for a fresh id it adds a new engine, in state
    None, which [GetEngine] then returns, the other entries being
    unchanged; a second registration of the id is refused, and
    [UnregisterEngine] of the id gives back the table as it was. *)
Theorem RegisterEngine_spec id binaryPath m :
  (is_Some (Manager.engines m !! id) →
   RegisterEngine id binaryPath m = (Some (ErrAlreadyRegistered id), m))
  ∧ (Manager.engines m !! id = None →
     ∃ m', RegisterEngine id binaryPath m = (None, m')
           ∧ GetEngine id m' = inr (NewEngine id binaryPath)
           ∧ (∀ id', id' ≠ id → GetEngine id' m' = GetEngine id' m)
           ∧ fst (RegisterEngine id binaryPath m') = Some (ErrAlreadyRegistered id)
           ∧ ∀ env, UnregisterEngine env id m'
                    = (None, m, Some (NewEngine id binaryPath))).
Proof.
  unfold RegisterEngine, GetEngine, UnregisterEngine. split.
  - by intros [e ->].
  - intros Hn. rewrite Hn. eexists. split; [done|].
    cbn [Manager.store Manager.engines Manager.ctxDone].
    rewrite !lookup_insert_eq. split; [done|].
    split; [intros id' Hne; by rewrite lookup_insert_ne|]. split; [done|].
    intros env. rewrite delete_insert_id by done. by destruct m.
Qed.

Lemma RegisterEngine_spec_witness :
  ∃ m', RegisterEngine "sf1" "/usr/bin/stockfish" NewEngineManager_engines = (None, m')
        ∧ GetEngine "sf1" m' = inr (NewEngine "sf1" "/usr/bin/stockfish")
        ∧ fst (RegisterEngine "sf1" "/opt/lc0" m') = Some (ErrAlreadyRegistered "sf1").
Proof.
  destruct (RegisterEngine_spec "sf1" "/usr/bin/stockfish" NewEngineManager_engines)
    as [_ H].
  destruct (H eq_refl) as (m' & H1 & H2 & _ & _ & _).
  exists m'. split; [exact H1|]. split; [exact H2|].
  destruct (RegisterEngine_spec "sf1" "/opt/lc0" m') as [H3 _].
  rewrite H3; [done|]. unfold GetEngine in H2.
  destruct (Manager.engines m' !! "sf1"); [by eexists|done].
Defined.

(** X21.  [UnregisterEngine] reports an id that is not registered and
    changes nothing.  For a registered id it removes the entry, after
    which [GetEngine] does not find it, leaves the other entries alone,
    and leaves the engine removed stopped: in state Stopped, or None if
    it was never started. *)
Theorem UnregisterEngine_spec env id m :
  (Manager.engines m !! id = None →
   UnregisterEngine env id m = (Some (ErrNotFound id), m, None))
  ∧ (∀ e, Manager.engines m !! id = Some e →
     ∃ m', UnregisterEngine env id m = (None, m', Some (snd (Stop env e)))
           ∧ GetEngine id m' = inl (ErrNotFound id)
           ∧ (∀ id', id' ≠ id → GetEngine id' m' = GetEngine id' m)
           ∧ (State (snd (Stop env e)) = EngineStateNone
              ∨ State (snd (Stop env e)) = EngineStateStopped)).
Proof.
  unfold UnregisterEngine, GetEngine, State. split; [by intros ->|].
  intros e ->. eexists. split.
  - f_equal. f_equal. unfold Stop.
    destruct (Engine.state e); done.
  - cbn [Manager.engines]. rewrite lookup_delete_eq. split; [done|].
    split; [intros id' Hne; by rewrite lookup_delete_ne|].
    unfold Stop. destruct (Engine.state e) eqn:Hs; cbn; rewrite ?Hs; auto.
Qed.

Lemma UnregisterEngine_spec_witness :
  let m := Manager.mk {[ "sf" := thinkingEngine ]} false in
  ∃ m', UnregisterEngine (mkStopEnv true true) "sf" m
        = (None, m', Some (snd (Stop (mkStopEnv true true) thinkingEngine)))
        ∧ GetEngine "sf" m' = inl (ErrNotFound "sf").
Proof.
  intros m. destruct (UnregisterEngine_spec (mkStopEnv true true) "sf" m) as [_ H].
  destruct (H thinkingEngine) as (m' & H1 & H2 & _); [by vm_compute|].
  by exists m'.
Defined.

Section Identity.

Implicit Types (e : Engine.t).

Lemma sendCommand_ID wok cmd e : Engine.ID (snd (sendCommand wok cmd e)) = Engine.ID e.
Proof. unfold sendCommand. by destruct (Engine.stdin e), wok. Qed.

Lemma Stop_ID env e : Engine.ID (snd (Stop env e)) = Engine.ID e.
Proof.
  unfold Stop. destruct (_ || _); [done|]. cbn [snd].
  cbn [setState Engine.set_state Engine.ID Engine.set_cancelled].
  destruct (exitedInGrace env); [|destruct (Engine.spawned _)];
    cbn [Engine.set_killed Engine.ID]; apply sendCommand_ID.
Qed.

Lemma initUCILoop_ID : ∀ events e, Engine.ID (snd (initUCILoop events e)) = Engine.ID e.
Proof.
  induction events as [|ev rest IH]; intros e; [done|].
  destruct ev as [line| | |]; try done.
  destruct line; cbn [initUCILoop]; try done; by rewrite IH.
Qed.

Lemma Start_ID env e : Engine.ID (snd (Start env e)) = Engine.ID e.
Proof.
  unfold Start. destruct (_ && _); [done|].
  destruct (stdinPipeOk env); cbn [negb]; [|done].
  destruct (stdoutPipeOk env); cbn [negb]; [|done].
  destruct (processStartOk env); cbn [negb]; [|done].
  unfold initUCI. set (e0 := Engine.set_spawned true _).
  pose proof (sendCommand_ID (uciWriteOk env) "uci" e0) as H0.
  destruct (sendCommand (uciWriteOk env) "uci" e0) as [[err|] e1]; cbn [snd] in *.
  - by rewrite Stop_ID, H0.
  - pose proof (initUCILoop_ID (handshake env) e1) as H1.
    destruct (initUCILoop (handshake env) e1) as [[err|] e2]; cbn [snd] in *.
    + by rewrite Stop_ID, H1, H0.
    + by rewrite H1, H0.
Qed.

Lemma SetPosition_ID wok fen moves e :
  Engine.ID (snd (SetPosition wok fen moves e)) = Engine.ID e.
Proof. unfold SetPosition. destruct (negb _); [done|apply sendCommand_ID]. Qed.

Lemma Go_ID wok params e : Engine.ID (snd (Go wok params e)) = Engine.ID e.
Proof. unfold Go. destruct (negb _); [done|]. by rewrite sendCommand_ID. Qed.

Lemma StopSearch_ID wok e : Engine.ID (snd (StopSearch wok e)) = Engine.ID e.
Proof. unfold StopSearch. destruct (_ && _); [done|apply sendCommand_ID]. Qed.

End Identity.

Lemma wellKeyed_store id e m :
  wellKeyed m → Engine.ID e = id → wellKeyed (Manager.store id e m).
Proof.
  intros Hm He id' e'. cbn. destruct (decide (id = id')) as [<-|Hne].
  - rewrite lookup_insert_eq. by intros [= <-].
  - rewrite lookup_insert_ne by done. apply Hm.
Qed.

Lemma startAnalysisLoop_keys posOk goOk fen moves params : ∀ ids i m,
  wellKeyed m → wellKeyed (snd (startAnalysisLoop posOk goOk fen moves params i ids m)).
Proof.
  induction ids as [|id rest IH]; intros i m Hm; [done|]. cbn [startAnalysisLoop].
  unfold GetEngine. destruct (Manager.engines m !! id) as [e|] eqn:He; [|done].
  destruct (negb _); [done|].
  pose proof (SetPosition_ID (posOk i) fen moves e) as H1.
  destruct (SetPosition (posOk i) fen moves e) as [[err|] e1]; cbn [snd] in *.
  { apply wellKeyed_store; [done|]. rewrite H1. by apply Hm. }
  pose proof (Go_ID (goOk i) params e1) as H2.
  destruct (Go (goOk i) params e1) as [[err|] e2]; cbn [snd] in *.
  { apply wellKeyed_store; [done|]. rewrite H2, H1. by apply Hm. }
  apply IH. apply wellKeyed_store; [done|]. rewrite H2, H1. by apply Hm.
Qed.

Lemma stopAnalysisLoop_keys wok : ∀ ids i lastErr m,
  wellKeyed m → wellKeyed (snd (stopAnalysisLoop wok i ids lastErr m)).
Proof.
  induction ids as [|id rest IH]; intros i lastErr m Hm; [done|].
  cbn [stopAnalysisLoop]. unfold GetEngine.
  destruct (Manager.engines m !! id) as [e|] eqn:He; [|by apply IH].
  pose proof (StopSearch_ID (wok i) e) as H1.
  destruct (StopSearch (wok i) e) as [[err|] e1]; cbn [snd] in *;
    (apply IH, wellKeyed_store; [done|]; rewrite H1; by apply Hm).
Qed.

(** X22.  Every engine of the table is registered under its own [ID]:
    this holds of the empty table and is kept by every operation of the
    manager. *)
Theorem manager_keys_engines_by_ID :
  wellKeyed NewEngineManager_engines
  ∧ (∀ id binaryPath m, wellKeyed m → wellKeyed (snd (RegisterEngine id binaryPath m)))
  ∧ (∀ env id m, wellKeyed m → wellKeyed (snd (fst (UnregisterEngine env id m))))
  ∧ (∀ env id m, wellKeyed m → wellKeyed (snd (StartEngine env id m)))
  ∧ (∀ env id m, wellKeyed m → wellKeyed (snd (StopEngine env id m)))
  ∧ (∀ posOk goOk fen moves ids params m,
       wellKeyed m → wellKeyed (snd (StartAnalysis posOk goOk fen moves ids params m)))
  ∧ (∀ wok ids m, wellKeyed m → wellKeyed (snd (StopAnalysis wok ids m)))
  ∧ (∀ env m, wellKeyed m → wellKeyed (StopAll env m))
  ∧ (∀ env m, wellKeyed m → wellKeyed (Shutdown env m)).
Proof.
  assert (Hall : ∀ env m, wellKeyed m → wellKeyed (StopAll env m)).
  { intros env m Hm id e'. cbn. rewrite map_lookup_imap.
    destruct (Manager.engines m !! id) as [e|] eqn:He; [|done]. cbn.
    intros [= <-]. rewrite Stop_ID. by apply Hm. }
  split; [by intros id e|].
  split.
  { intros id path m Hm. unfold RegisterEngine.
    destruct (Manager.engines m !! id); [done|]. by apply wellKeyed_store. }
  split.
  { intros env id m Hm. unfold UnregisterEngine.
    destruct (Manager.engines m !! id); [|done]. cbv zeta. cbn [fst snd].
    intros id' e'. cbn [Manager.engines]. destruct (decide (id = id')) as [<-|Hne].
    - by rewrite lookup_delete_eq.
    - rewrite lookup_delete_ne by done. apply Hm. }
  split.
  { intros env id m Hm. unfold StartEngine, GetEngine.
    destruct (Manager.engines m !! id) as [e|] eqn:He; [|done].
    pose proof (Start_ID (withParent (Manager.ctxDone m) env) e) as H1.
    destruct (Start _ e) as [[err|] e1]; cbn [snd] in *;
      (apply wellKeyed_store; [done|]; rewrite H1; by apply Hm). }
  split.
  { intros env id m Hm. unfold StopEngine, GetEngine.
    destruct (Manager.engines m !! id) as [e|] eqn:He; [|done].
    pose proof (Stop_ID env e) as H1.
    destruct (Stop env e) as [err e1]; cbn [snd] in *.
    apply wellKeyed_store; [done|]. rewrite H1. by apply Hm. }
  split; [intros; by apply startAnalysisLoop_keys|].
  split; [intros; by apply stopAnalysisLoop_keys|].
  split; [done|].
  intros env m Hm. by apply (Hall env m).
Qed.

Lemma manager_keys_engines_by_ID_witness :
  wellKeyed (snd (StartEngine stubEnv "sf"
                    (snd (RegisterEngine "sf" "/usr/bin/stockfish"
                            NewEngineManager_engines)))).
Proof.
  destruct manager_keys_engines_by_ID as (H0 & H1 & _ & H2 & _).
  apply H2, H1, H0.
Defined.

(** X23.  [ListEngines] returns one summary per registered engine: as
    many summaries as entries, no id twice, the ids being exactly those
    registered, and each summary showing the name, the binary path and
    the state of the engine registered under its id. *)
Theorem ListEngines_one_per_engine m :
  wellKeyed m →
  NoDup (EngineInfo.ID <$> ListEngines m)
  ∧ length (ListEngines m) = size (Manager.engines m)
  ∧ (∀ id, id ∈ (EngineInfo.ID <$> ListEngines m) ↔ is_Some (Manager.engines m !! id))
  ∧ (∀ info, info ∈ ListEngines m →
       ∃ e, Manager.engines m !! EngineInfo.ID info = Some e
            ∧ EngineInfo.Name info = Engine.Name e
            ∧ EngineInfo.BinaryPath info = Engine.BinaryPath e
            ∧ EngineInfo.State info = EngineState_String (State e)).
Proof.
  intros Hm. unfold ListEngines.
  assert (Hids : EngineInfo.ID <$>
                   ((λ e, EngineInfo.mk (Engine.ID e) (Engine.Name e) (Engine.Author e)
                            (Engine.BinaryPath e) (EngineState_String (State e)))
                    <$> (snd <$> map_to_list (Manager.engines m)))
                 = fst <$> map_to_list (Manager.engines m)).
  { rewrite <- !list_fmap_compose. apply list_fmap_ext.
    intros i [id e] Hi. cbn. apply Hm.
    apply elem_of_map_to_list. by eapply list_elem_of_lookup_2. }
  rewrite Hids. split; [apply NoDup_fst_map_to_list|].
  split; [by rewrite !length_fmap, length_map_to_list|].
  split.
  - intros id. rewrite list_elem_of_fmap. split.
    + intros ([id' e] & -> & Hin%elem_of_map_to_list). by eexists.
    + intros [e He]. exists (id, e). split; [done|]. by apply elem_of_map_to_list.
  - intros info (e & -> & Hin)%list_elem_of_fmap.
    apply list_elem_of_fmap in Hin as ([id e'] & -> & Hin%elem_of_map_to_list).
    cbn in *. exists e'. rewrite (Hm id e' Hin). done.
Qed.

Lemma ListEngines_one_per_engine_witness :
  let m := snd (RegisterEngine "sf" "/usr/bin/stockfish" NewEngineManager_engines) in
  length (ListEngines m) = 1%nat ∧ "sf" ∈ (EngineInfo.ID <$> ListEngines m).
Proof.
  intros m.
  destruct (ListEngines_one_per_engine m) as (_ & H1 & H2 & _).
  - intros id e.
    change (Manager.engines m)
      with (<["sf" := NewEngine "sf" "/usr/bin/stockfish"]> (∅ : gmap string Engine.t)).
    intros [[<- <-]|[_ H]]%lookup_insert_Some; [done|]. by rewrite lookup_empty in H.
  - split; [exact H1|]. apply H2. eexists. reflexivity.
Defined.

Lemma searching_spec fen moves params e :
  readyToSearch e →
  SetPosition true fen moves e = (None, snd (SetPosition true fen moves e))
  ∧ State (snd (SetPosition true fen moves e)) = EngineStateReady
  ∧ Go true params (snd (SetPosition true fen moves e))
    = (None, searching fen moves params e)
  ∧ State (searching fen moves params e) = EngineStateThinking
  ∧ Engine.stdin (searching fen moves params e)
    = (λ w, (w ++ [BuildPositionCommand fen moves; BuildGoCommand params])%list)
      <$> Engine.stdin e.
Proof.
  unfold readyToSearch, searching, State. intros [Hst [w Hw]].
  unfold SetPosition, Go, State.
  generalize (BuildPositionCommand fen moves) (BuildGoCommand params).
  intros pos go. rewrite Hst.
  rewrite bool_decide_eq_true_2 by done. cbn [negb].
  assert (Hsc : sendCommand true pos e
                = (None, Engine.set_stdin (Some (w ++ [pos])%list) e))
    by (unfold sendCommand; by rewrite Hw).
  rewrite !Hsc. cbn [fst snd Engine.state Engine.set_stdin]. rewrite Hst.
  rewrite bool_decide_eq_true_2 by done. cbn [negb].
  unfold sendCommand. cbn. rewrite Hw. cbn. by rewrite <- app_assoc.
Qed.

Lemma startAnalysisLoop_all fen moves params : ∀ ids i m,
  NoDup ids →
  (∀ id, id ∈ ids → ∃ e, Manager.engines m !! id = Some e ∧ readyToSearch e) →
  let r := startAnalysisLoop (λ _, true) (λ _, true) fen moves params i ids m in
  fst r = None
  ∧ (∀ id, id ∈ ids →
       Manager.engines (snd r) !! id
       = searching fen moves params <$> Manager.engines m !! id)
  ∧ (∀ id, id ∉ ids → Manager.engines (snd r) !! id = Manager.engines m !! id)
  ∧ Manager.ctxDone (snd r) = Manager.ctxDone m.
Proof.
  induction ids as [|id rest IH]; intros i m Hnd Hready; cbv zeta.
  { cbn. split; [done|]. split; [by intros id ?%elem_of_nil|done]. }
  apply NoDup_cons in Hnd as [Hnotin Hnd]. cbn [startAnalysisLoop].
  destruct (Hready id) as (e & He & Hr); [by left|].
  unfold GetEngine. rewrite He.
  destruct (searching_spec fen moves params e Hr) as (Hp & Hps & Hg & Hgs & Hw).
  destruct Hr as [Hst _]. rewrite Hst, bool_decide_eq_true_2 by done. cbn [negb].
  rewrite Hp, Hg.
  set (m1 := Manager.store id (searching fen moves params e) m).
  destruct (IH (S i) m1 Hnd) as (H1 & H2 & H3 & H4).
  { intros id' Hin. destruct (Hready id') as (e' & He' & Hr'); [by right|].
    exists e'. split; [|done]. unfold m1. cbn.
    rewrite lookup_insert_ne; [done|]. intros ->. done. }
  split; [done|]. split; [|split; [|done]].
  - intros id' [->|Hin]%elem_of_cons.
    + rewrite H3 by done. unfold m1. cbn. by rewrite lookup_insert_eq, He.
    + rewrite H2 by done. unfold m1. cbn.
      rewrite lookup_insert_ne; [done|]. intros ->. done.
  - intros id' Hni. apply not_elem_of_cons in Hni as [Hne Hni].
    rewrite H3 by done. unfold m1. cbn. by rewrite lookup_insert_ne.
Qed.

Lemma startAnalysisLoop_app posOk goOk fen moves params : ∀ pre rest i m,
  startAnalysisLoop posOk goOk fen moves params i (pre ++ rest) m
  = match startAnalysisLoop posOk goOk fen moves params i pre m with
    | (None, m') =>
        startAnalysisLoop posOk goOk fen moves params (i + length pre) rest m'
    | r => r
    end.
Proof.
  induction pre as [|id pre IH]; intros rest i m.
  { cbn. by rewrite Nat.add_0_r. }
  cbn [app startAnalysisLoop length].
  destruct (GetEngine id m) as [err|e]; [done|].
  destruct (negb _); [done|].
  destruct (SetPosition _ _ _ _) as [[err|] e1]; [done|].
  destruct (Go _ _ _) as [[err|] e2]; [done|].
  rewrite IH. by replace (S i + length pre)%nat with (i + S (length pre))%nat by lia.
Qed.

(** X24.  [StartAnalysis] on distinct ids, all registered, Ready and with
    an open pipe, every write succeeding: it returns no error, every
    engine named is left in state Thinking with the position line and
    then the go line appended to its pipe, and the engines not named are
    untouched. *)
Theorem StartAnalysis_all_ready fen moves ids params m :
  NoDup ids →
  (∀ id, id ∈ ids → ∃ e, Manager.engines m !! id = Some e ∧ readyToSearch e) →
  let r := StartAnalysis (λ _, true) (λ _, true) fen moves ids params m in
  fst r = None
  ∧ (∀ id e, id ∈ ids → Manager.engines m !! id = Some e →
       ∃ e', Manager.engines (snd r) !! id = Some e'
             ∧ State e' = EngineStateThinking
             ∧ Engine.stdin e'
               = (λ w, (w ++ [BuildPositionCommand fen moves;
                              BuildGoCommand params])%list) <$> Engine.stdin e)
  ∧ (∀ id, id ∉ ids → Manager.engines (snd r) !! id = Manager.engines m !! id).
Proof.
  intros Hnd Hready. cbv zeta. unfold StartAnalysis.
  destruct (startAnalysisLoop_all fen moves params ids 0 m Hnd Hready)
    as (H1 & H2 & H3 & _).
  split; [done|]. split; [|done].
  intros id e Hin He. rewrite H2, He by done. eexists. split; [done|].
  destruct (Hready id Hin) as (e0 & He0 & Hr). rewrite He in He0.
  injection He0 as <-.
  by destruct (searching_spec fen moves params e Hr) as (_ & _ & _ & ? & ?).
Qed.

Lemma StartAnalysis_all_ready_witness :
  let m := Manager.mk {[ "sf" := readyEngine ]} false in
  fst (StartAnalysis (λ _, true) (λ _, true) "" ["e2e4"] ["sf"] ponderParams m) = None
  ∧ ∃ e', Manager.engines
            (snd (StartAnalysis (λ _, true) (λ _, true) "" ["e2e4"] ["sf"]
                    ponderParams m)) !! "sf" = Some e'
          ∧ State e' = EngineStateThinking
          ∧ Engine.stdin e'
            = Some ["uci"; "position startpos moves e2e4"; "go ponder"].
Proof.
  intros m.
  destruct (StartAnalysis_all_ready "" ["e2e4"] ["sf"] ponderParams m)
    as (H1 & H2 & _).
  - repeat constructor. by intros ?%elem_of_nil.
  - intros id ->%list_elem_of_singleton. exists readyEngine.
    split; [reflexivity|]. split; [reflexivity|by eexists].
  - split; [exact H1|].
    apply (H2 "sf" readyEngine); [by apply list_elem_of_singleton|reflexivity].
Defined.

(** X25.  [StartAnalysis] stops at the first id that is not registered or
    whose engine is not Ready and returns the error for it; the engines
    before it stay as they were started (nothing is rolled back), and
    the ids after it are not looked at.  An id given twice fails at its
    second occurrence, its engine being Thinking by then. *)
Theorem StartAnalysis_no_rollback posOk goOk fen moves pre id post params m :
  fst (StartAnalysis posOk goOk fen moves pre params m) = None →
  id ∈ pre
  ∨ (match GetEngine id (snd (StartAnalysis posOk goOk fen moves pre params m)) with
     | inl _ => True
     | inr e => State e ≠ EngineStateReady
     end) →
  let r := StartAnalysis posOk goOk fen moves (pre ++ id :: post) params m in
  snd r = snd (StartAnalysis posOk goOk fen moves pre params m)
  ∧ fst r
    = Some (match GetEngine id (snd r) with
            | inl err => err
            | inr e => ErrEngineNotReady id (State e)
            end)
  ∧ (id ∈ pre → fst r = Some (ErrEngineNotReady id EngineStateThinking)).
Proof.
  unfold StartAnalysis. intros Hpre Hid. cbv zeta.
  rewrite startAnalysisLoop_app.
  destruct (startAnalysisLoop posOk goOk fen moves params 0 pre m)
    as [[err|] m1] eqn:Hloop; [done|]. cbn [fst snd] in *.
  cbn [startAnalysisLoop].
  assert (Hthink : id ∈ pre →
    ∃ e, Manager.engines m1 !! id = Some e ∧ State e = EngineStateThinking).
  { clear Hid. revert Hloop. clear Hpre. generalize 0%nat. revert m.
    induction pre as [|id0 pre IH]; intros m i Hloop Hin; [by apply elem_of_nil in Hin|].
    cbn [startAnalysisLoop] in Hloop. unfold GetEngine in Hloop.
    destruct (Manager.engines m !! id0) as [e|] eqn:He; [|done].
    destruct (negb _) eqn:Hrdy; [done|].
    destruct (SetPosition (posOk i) fen moves e) as [[err|] e1] eqn:Hp; [done|].
    destruct (Go (goOk i) params e1) as [[err|] e2] eqn:Hg; [done|].
    destruct (decide (id ∈ pre)) as [Hin'|Hni]; [by eapply IH|].
    apply elem_of_cons in Hin as [->|?]; [|done].
    assert (He2 : State e2 = EngineStateThinking).
    { unfold Go in Hg. cbv zeta in Hg.
      destruct (negb (bool_decide (State e1 = EngineStateReady))); [done|].
      unfold State.
      pose proof (sendCommand_state (goOk i) (BuildGoCommand params)
                    (setState EngineStateThinking e1)) as (Hs & _).
      rewrite Hg in Hs. exact Hs. }
    assert (Hkeep : ∀ ids j m0 m2,
      id0 ∉ ids → startAnalysisLoop posOk goOk fen moves params j ids m0 = (None, m2) →
      Manager.engines m2 !! id0 = Manager.engines m0 !! id0).
    { clear. induction ids as [|x ids IHk]; intros j m0 m2 Hni; cbn [startAnalysisLoop].
      - by intros [= <-].
      - apply not_elem_of_cons in Hni as [Hne Hni]. unfold GetEngine.
        destruct (Manager.engines m0 !! x); [|done].
        destruct (negb _); [done|].
        destruct (SetPosition _ _ _ _) as [[?|] ?]; [done|].
        destruct (Go _ _ _) as [[?|] ?]; [done|].
        intros H. rewrite (IHk _ _ _ Hni H). cbn. by rewrite lookup_insert_ne. }
    rewrite (Hkeep _ _ _ _ Hni Hloop). cbn. rewrite lookup_insert_eq. by eexists. }
  unfold GetEngine in *. destruct (Manager.engines m1 !! id) as [e|] eqn:He.
  - assert (Hnr : State e ≠ EngineStateReady).
    { destruct Hid as [Hin|Hnr]; [|done].
      destruct (Hthink Hin) as (e' & [= <-] & ->). done. }
    rewrite bool_decide_eq_false_2 by done. cbn [negb fst snd]. rewrite He.
    split; [done|]. split; [done|].
    intros Hin. destruct (Hthink Hin) as (e' & [= <-] & ->). done.
  - cbn [fst snd]. rewrite He. split; [done|]. split; [done|].
    intros Hin. by destruct (Hthink Hin) as (e' & [=] & _).
Qed.

Lemma StartAnalysis_no_rollback_witness :
  let m := Manager.mk {[ "sf" := readyEngine ]} false in
  let r := StartAnalysis (λ _, true) (λ _, true) "" [] ["sf"; "sf"] ponderParams m in
  fst r = Some (ErrEngineNotReady "sf" EngineStateThinking)
  ∧ snd r = snd (StartAnalysis (λ _, true) (λ _, true) "" [] ["sf"] ponderParams m).
Proof.
  intros m r.
  destruct (StartAnalysis_no_rollback (λ _, true) (λ _, true) "" [] ["sf"] "sf" []
              ponderParams m) as (H1 & _ & H3);
    [reflexivity|left; by apply list_elem_of_singleton|].
  split; [apply H3; by apply list_elem_of_singleton|exact H1].
Defined.

Lemma Stop_final env e :
  Engine.state (snd (Stop env e)) = EngineStateNone
  ∨ Engine.state (snd (Stop env e)) = EngineStateStopped.
Proof. unfold Stop. destruct (Engine.state e) eqn:Hs; cbn; rewrite ?Hs; auto. Qed.

Lemma Stop_noop env e :
  Engine.state e = EngineStateNone ∨ Engine.state e = EngineStateStopped →
  Stop env e = (None, e).
Proof. intros [H|H]; unfold Stop; by rewrite H. Qed.

(** X26.  [StopAll] calls [Stop] on every engine of the table, after
    which each is in state Stopped or None; a second [StopAll] changes
    nothing.  [Shutdown] does the same and cancels the manager's
    context, and [StartAnalysis] on a non-empty list of ids fails
    afterwards. *)
Theorem StopAll_stops_every_engine env m :
  (∀ id, Manager.engines (StopAll env m) !! id
         = (λ e, snd (Stop (env id) e)) <$> Manager.engines m !! id)
  ∧ (∀ id e, Manager.engines (StopAll env m) !! id = Some e →
       State e = EngineStateNone ∨ State e = EngineStateStopped)
  ∧ (∀ env', StopAll env' (StopAll env m) = StopAll env m)
  ∧ Manager.engines (Shutdown env m) = Manager.engines (StopAll env m)
  ∧ Manager.ctxDone (Shutdown env m) = true
  ∧ (∀ posOk goOk fen moves id ids params,
       fst (StartAnalysis posOk goOk fen moves (id :: ids) params (Shutdown env m))
       ≠ None).
Proof.
  assert (Hlook : ∀ env0 m0 id, Manager.engines (StopAll env0 m0) !! id
                  = (λ e, snd (Stop (env0 id) e)) <$> Manager.engines m0 !! id).
  { intros env0 m0 id. cbn. rewrite map_lookup_imap.
    by destruct (Manager.engines m0 !! id). }
  assert (Hfin : ∀ id e, Manager.engines (StopAll env m) !! id = Some e →
                 State e = EngineStateNone ∨ State e = EngineStateStopped).
  { intros id e. rewrite Hlook. destruct (Manager.engines m !! id); [|done].
    intros [= <-]. apply Stop_final. }
  split; [apply Hlook|]. split; [exact Hfin|]. split; [|split; [done|split; [done|]]].
  - intros env'. unfold StopAll. cbn [Manager.engines Manager.ctxDone]. f_equal.
    apply map_eq. intros id. rewrite !map_lookup_imap.
    destruct (Manager.engines m !! id) as [e|]; [|done].
    cbn. by rewrite (Stop_noop _ _ (Stop_final _ _)).
  - intros posOk goOk fen moves id ids params. unfold StartAnalysis.
    cbn [startAnalysisLoop]. unfold GetEngine.
    change (Manager.engines (Shutdown env m)) with (Manager.engines (StopAll env m)).
    destruct (Manager.engines (StopAll env m) !! id) as [e|] eqn:He; [|done].
    destruct (Hfin id e He) as [H|H]; rewrite H; done.
Qed.

Lemma StopAll_stops_every_engine_witness :
  let m := Manager.mk {[ "sf" := thinkingEngine ]} false in
  ∃ e, Manager.engines (StopAll (λ _, mkStopEnv true true) m) !! "sf" = Some e
       ∧ (State e = EngineStateNone ∨ State e = EngineStateStopped).
Proof.
  intros m.
  destruct (StopAll_stops_every_engine (λ _, mkStopEnv true true) m) as (_ & H & _).
  eexists. split; [reflexivity|]. apply (H "sf"). reflexivity.
Defined.

Lemma stopAnalysisLoop_spec wok : ∀ ids i lastErr m,
  NoDup ids →
  let r := stopAnalysisLoop wok i ids lastErr m in
  (∀ k id e, ids !! k = Some id → Manager.engines m !! id = Some e →
     Manager.engines (snd r) !! id = Some (snd (StopSearch (wok (i + k)%nat) e)))
  ∧ (∀ id, id ∉ ids → Manager.engines (snd r) !! id = Manager.engines m !! id)
  ∧ (fst r = None ↔
     lastErr = None
     ∧ ∀ k id, ids !! k = Some id →
         ∃ e, Manager.engines m !! id = Some e
              ∧ fst (StopSearch (wok (i + k)%nat) e) = None).
Proof.
  induction ids as [|id rest IH]; intros i lastErr m Hnd; cbv zeta.
  { cbn. split; [done|]. split; [done|]. split; [by intros ->|by intros [-> _]]. }
  apply NoDup_cons in Hnd as [Hni Hnd]. cbn [stopAnalysisLoop]. unfold GetEngine.
  destruct (Manager.engines m !! id) as [e|] eqn:He.
  - set (m1 := Manager.store id (snd (StopSearch (wok i) e)) m).
    assert (Hm1 : ∀ id', id' ≠ id →
      Manager.engines m1 !! id' = Manager.engines m !! id').
    { intros id' Hne. unfold m1. cbn. by rewrite lookup_insert_ne. }
    assert (Hrest : ∀ k id', rest !! k = Some id' → id' ≠ id).
    { intros k id' Hk ->. apply Hni. by eapply list_elem_of_lookup_2. }
    assert (Hgen : ∀ lastErr',
      let r := stopAnalysisLoop wok (S i) rest lastErr' m1 in
      (∀ k id0 e0, (id :: rest) !! k = Some id0 → Manager.engines m !! id0 = Some e0 →
         Manager.engines (snd r) !! id0 = Some (snd (StopSearch (wok (i + k)%nat) e0)))
      ∧ (∀ id0, id0 ∉ id :: rest →
           Manager.engines (snd r) !! id0 = Manager.engines m !! id0)
      ∧ (fst r = None ↔
         lastErr' = None
         ∧ ∀ k id0, rest !! k = Some id0 →
             ∃ e0, Manager.engines m !! id0 = Some e0
                   ∧ fst (StopSearch (wok (i + S k)%nat) e0) = None)).
    { intros lastErr'. cbv zeta.
      destruct (IH (S i) lastErr' m1 Hnd) as (H1 & H2 & H3).
      split; [|split].
      - intros [|k] id0 e0 Hk He0; cbn in Hk.
        + injection Hk as <-. rewrite H2 by done. unfold m1. cbn.
          rewrite lookup_insert_eq, Nat.add_0_r. congruence.
        + replace (i + S k)%nat with (S i + k)%nat by lia.
          apply H1; [done|]. rewrite Hm1; [done|]. by eapply Hrest.
      - intros id0 [Hne Hni0]%not_elem_of_cons. rewrite H2 by done. by apply Hm1.
      - rewrite H3. split; intros [Hl Hk]; (split; [done|]);
          intros k id0 Hid0; destruct (Hk k id0 Hid0) as (e0 & He0 & Hok);
          exists e0; replace (i + S k)%nat with (S i + k)%nat in * by lia;
          (split; [|done]).
        + rewrite <- Hm1; [done|by eapply Hrest].
        + rewrite Hm1; [done|by eapply Hrest]. }
    destruct (StopSearch (wok i) e) as [[err|] e1] eqn:Hss; cbn [snd] in *; subst m1.
    + destruct (Hgen (Some (ErrOfEngine err))) as (H1 & H2 & H3).
      split; [done|]. split; [done|]. rewrite H3. split; [by intros [? _]|].
      intros [_ Hk]. destruct (Hk 0%nat id eq_refl) as (e0 & He0 & Hok).
      rewrite Nat.add_0_r in Hok. rewrite He in He0. injection He0 as <-.
      by rewrite Hss in Hok.
    + destruct (Hgen lastErr) as (H1 & H2 & H3).
      split; [done|]. split; [done|]. rewrite H3. split.
      * intros [Hl Hk]. split; [done|]. intros [|k] id0 Hid0; cbn in Hid0.
        -- injection Hid0 as <-. exists e. rewrite Nat.add_0_r, Hss. done.
        -- by apply Hk.
      * intros [Hl Hk]. split; [done|]. intros k id0 Hid0. by apply (Hk (S k)).
  - destruct (IH (S i) (Some (ErrNotFound id)) m Hnd) as (H1 & H2 & H3).
    split; [|split].
    + intros [|k] id0 e0 Hk He0; cbn in Hk; [congruence|].
      replace (i + S k)%nat with (S i + k)%nat by lia. by apply H1.
    + intros id0 [Hne Hni0]%not_elem_of_cons. by apply H2.
    + rewrite H3. split; [by intros [? _]|].
      intros [_ Hk]. destruct (Hk 0%nat id eq_refl) as (e0 & He0 & _). congruence.
Qed.

(** X27.  [StopAnalysis] on distinct ids goes through the whole list:
    every registered engine named gets its [StopSearch], whatever
    happened to the ids before it, and the engines not named are
    untouched.  It returns no error exactly when every id is registered
    and every [StopSearch] succeeded. *)
Theorem StopAnalysis_best_effort wok ids m :
  NoDup ids →
  let r := StopAnalysis wok ids m in
  (∀ k id e, ids !! k = Some id → Manager.engines m !! id = Some e →
     Manager.engines (snd r) !! id = Some (snd (StopSearch (wok k) e)))
  ∧ (∀ id, id ∉ ids → Manager.engines (snd r) !! id = Manager.engines m !! id)
  ∧ (fst r = None ↔
     ∀ k id, ids !! k = Some id →
       ∃ e, Manager.engines m !! id = Some e ∧ fst (StopSearch (wok k) e) = None).
Proof.
  intros Hnd. cbv zeta. unfold StopAnalysis.
  destruct (stopAnalysisLoop_spec wok ids 0 None m Hnd) as (H1 & H2 & H3).
  split; [exact H1|]. split; [exact H2|]. rewrite H3. by split; [intros [_ ?]|].
Qed.

Lemma StopAnalysis_best_effort_witness :
  let m := Manager.mk {[ "sf" := thinkingEngine ]} false in
  let r := StopAnalysis (λ _, true) ["ghost"; "sf"] m in
  Manager.engines (snd r) !! "sf" = Some (snd (StopSearch true thinkingEngine))
  ∧ fst r ≠ None.
Proof.
  intros m r.
  destruct (StopAnalysis_best_effort (λ _, true) ["ghost"; "sf"] m) as (H1 & _ & H3).
  - repeat constructor; [|by intros ?%elem_of_nil].
    intros Hin%list_elem_of_singleton. discriminate Hin.
  - split; [by apply (H1 1%nat "sf" thinkingEngine)|].
    intros Hr. destruct H3 as [H3 _].
    destruct (H3 Hr 0%nat "ghost" eq_refl) as (e & He & _).
    by vm_compute in He.
Defined.

Section Stream.

Implicit Types (m : EngineManager.t) (r : GoTime * AnalysisInfo.t)
  (received : list (GoTime * AnalysisInfo.t)).

Lemma emitThrottled_interval now info m :
  EngineManager.throttleInterval (emitThrottled now info m)
  = EngineManager.throttleInterval m.
Proof. unfold emitThrottled. by destruct (shouldEmit now info m). Qed.

Lemma emitThrottled_callback now info m :
  EngineManager.onAnalysis (emitThrottled now info m) = EngineManager.onAnalysis m.
Proof. unfold emitThrottled. by destruct (shouldEmit now info m). Qed.

Lemma emitThrottled_other now info m id :
  AnalysisInfo.EngineID info ≠ id →
  EngineManager.lastEmit (emitThrottled now info m) !! id
  = EngineManager.lastEmit m !! id.
Proof.
  intros Hne. unfold emitThrottled. destruct (shouldEmit now info m); [|done].
  cbn. by rewrite lookup_insert_ne.
Qed.

Lemma shouldEmit_ext now info m m' :
  EngineManager.throttleInterval m = EngineManager.throttleInterval m' →
  EngineManager.lastEmit m !! AnalysisInfo.EngineID info
  = EngineManager.lastEmit m' !! AnalysisInfo.EngineID info →
  shouldEmit now info m = shouldEmit now info m'.
Proof. unfold shouldEmit. by intros -> ->. Qed.

Lemma emissions_ext id : ∀ received m m',
  Forall (λ r, AnalysisInfo.EngineID (snd r) = id) received →
  EngineManager.throttleInterval m = EngineManager.throttleInterval m' →
  EngineManager.lastEmit m !! id = EngineManager.lastEmit m' !! id →
  emissions received m = emissions received m'.
Proof.
  induction received as [|r rest IH]; intros m m' Hall Hint Hlast; [done|].
  apply Forall_cons in Hall as [Hr Hall]. cbn [emissions].
  assert (Hse : shouldEmit (fst r) (snd r) m = shouldEmit (fst r) (snd r) m')
    by (apply shouldEmit_ext; [done|by rewrite Hr]).
  rewrite Hse. f_equal. apply IH; [done|by rewrite !emitThrottled_interval|].
  unfold emitThrottled. rewrite Hse. destruct (shouldEmit _ _ m'); [|done].
  cbn. rewrite Hr, !lookup_insert_eq. done.
Qed.

Lemma emissions_first id : ∀ received m t1 r2 rest',
  EngineManager.lastEmit m !! id = Some t1 →
  filter (λ r, AnalysisInfo.EngineID (snd r) = id) (emissions received m)
  = r2 :: rest' →
  (EngineManager.throttleInterval m ≤ Sub (fst r2) t1)%Z
  ∨ (20 ≤ AnalysisInfo.Depth (snd r2))%Z
  ∨ AnalysisInfo.PV (snd r2) = [].
Proof.
  induction received as [|r rest IH]; intros m t1 r2 rest' Hlast; [done|].
  cbn [emissions]. rewrite filter_app.
  destruct (decide (AnalysisInfo.EngineID (snd r) = id)) as [Hid|Hne].
  - destruct (shouldEmit (fst r) (snd r) m) eqn:Hse.
    + rewrite filter_cons_True by done. cbn [filter app]. intros [= <- _].
      revert Hse. unfold shouldEmit. rewrite Hid, Hlast.
      intros [[H|H]%orb_prop|H]%orb_prop.
      * left. by apply Z.leb_le.
      * right. left. by apply Z.leb_le.
      * right. right. apply Nat.eqb_eq in H. by destruct (AnalysisInfo.PV _).
    + cbn [filter app]. unfold emitThrottled. rewrite Hse. by apply IH.
  - intros H. rewrite <- (emitThrottled_interval (fst r) (snd r) m).
    eapply (IH (emitThrottled (fst r) (snd r) m) t1).
    + by rewrite emitThrottled_other.
    + destruct (shouldEmit (fst r) (snd r) m); [|exact H].
      rewrite filter_cons_False in H by done. exact H.
Qed.

Lemma emissions_gap id : ∀ received m pre r1 r2 post,
  filter (λ r, AnalysisInfo.EngineID (snd r) = id) (emissions received m)
  = (pre ++ r1 :: r2 :: post)%list →
  (EngineManager.throttleInterval m ≤ Sub (fst r2) (fst r1))%Z
  ∨ (20 ≤ AnalysisInfo.Depth (snd r2))%Z
  ∨ AnalysisInfo.PV (snd r2) = [].
Proof.
  induction received as [|r rest IH]; intros m pre r1 r2 post.
  { cbn. by destruct pre. }
  cbn [emissions]. rewrite filter_app.
  rewrite <- (emitThrottled_interval (fst r) (snd r) m).
  destruct (shouldEmit (fst r) (snd r) m) eqn:Hse; [|by apply IH].
  destruct (decide (AnalysisInfo.EngineID (snd r) = id)) as [Hid|Hne].
  - rewrite filter_cons_True by done. cbn [filter app].
    destruct pre as [|p pre]; cbn [app].
    + intros [= <- Hrest]. eapply emissions_first; [|exact Hrest].
      unfold emitThrottled. rewrite Hse. cbn. by rewrite Hid, lookup_insert_eq.
    + intros [= _ Hrest]. by eapply IH.
  - rewrite filter_cons_False by done. by apply IH.
Qed.

Lemma emissions_delivered : ∀ received m,
  EngineManager.onAnalysis m = true →
  EngineManager.delivered (streamAnalysis received m)
  = (EngineManager.delivered m ++ (snd <$> emissions received m))%list.
Proof.
  unfold streamAnalysis.
  induction received as [|r rest IH]; intros m Hcb; cbn [foldl emissions].
  { by rewrite app_nil_r. }
  rewrite IH by (by rewrite emitThrottled_callback).
  unfold emitThrottled at 1. destruct (shouldEmit (fst r) (snd r) m); [|done].
  cbn. rewrite Hcb. by rewrite <- app_assoc.
Qed.

End Stream.

(** X28.  The forwarder, for every sequence of records received: with a
    callback installed the records delivered are those [emitThrottled]
    decided to emit, in order; the interval is not changed; and of two
    consecutive emissions for one engine the second, if its depth is
    below 20 and its principal variation is not empty, comes no sooner
    than the interval after the first. *)
Theorem streamAnalysis_rate_bound received m :
  (EngineManager.onAnalysis m = true →
   EngineManager.delivered (streamAnalysis received m)
   = (EngineManager.delivered m ++ (snd <$> emissions received m))%list)
  ∧ EngineManager.throttleInterval (streamAnalysis received m)
    = EngineManager.throttleInterval m
  ∧ (∀ id pre r1 r2 post,
       filter (λ r, AnalysisInfo.EngineID (snd r) = id) (emissions received m)
       = (pre ++ r1 :: r2 :: post)%list →
       (AnalysisInfo.Depth (snd r2) < 20)%Z →
       AnalysisInfo.PV (snd r2) ≠ [] →
       (EngineManager.throttleInterval m ≤ Sub (fst r2) (fst r1))%Z).
Proof.
  split; [apply emissions_delivered|]. split.
  - unfold streamAnalysis. revert m.
    induction received as [|r rest IH]; intros m; [done|].
    cbn [foldl]. by rewrite IH, emitThrottled_interval.
  - intros id pre r1 r2 post Hf Hd Hpv.
    destruct (emissions_gap id received m pre r1 r2 post Hf) as [H|[H|H]];
      [done|lia|done].
Qed.

Lemma streamAnalysis_rate_bound_witness :
  let info := AnalysisInfo.set_PV ["e2e4"] (AnalysisInfo.set_EngineID "sf" AnalysisInfo.zero) in
  let received := [(0, info); (10 * Millisecond, info); (60 * Millisecond, info)] in
  snd <$> emissions received (SetAnalysisCallback NewEngineManager) = [info; info]
  ∧ (50 * Millisecond ≤ Sub (60 * Millisecond) 0)%Z.
Proof.
  intros info received.
  destruct (streamAnalysis_rate_bound received (SetAnalysisCallback NewEngineManager))
    as (_ & _ & H).
  split; [reflexivity|].
  apply (H "sf" [] (0, info) (60 * Millisecond, info) []); [reflexivity|by vm_compute|done].
Defined.

(** X29.  The throttle is kept per engine: which records of an engine
    are emitted does not depend on the records of the other engines
    received in between. *)
Theorem throttle_per_engine id received m :
  filter (λ r, AnalysisInfo.EngineID (snd r) = id) (emissions received m)
  = emissions (filter (λ r, AnalysisInfo.EngineID (snd r) = id) received) m.
Proof.
  revert m. induction received as [|r rest IH]; intros m; [done|].
  cbn [emissions]. rewrite filter_app, IH.
  destruct (decide (AnalysisInfo.EngineID (snd r) = id)) as [Hid|Hne].
  - rewrite (filter_cons_True _ r rest) by done. cbn [emissions]. f_equal.
    destruct (shouldEmit _ _ m); [by rewrite filter_cons_True|done].
  - rewrite (filter_cons_False _ r rest) by done.
    assert (filter (λ r0, AnalysisInfo.EngineID (snd r0) = id)
              (if shouldEmit (fst r) (snd r) m then [r] else []) = []) as ->
      by (destruct (shouldEmit _ _ m); [by rewrite filter_cons_False|done]).
    cbn [app]. apply (emissions_ext id).
    + apply Forall_forall. by intros x [? _]%list_elem_of_filter.
    + apply emitThrottled_interval.
    + by apply emitThrottled_other.
Qed.

(** X30.  The go line [App.StartAnalysis] has written, for a move time
    of at most 9223372036854 ms: [go infinite] when infinite search is
    asked for or when neither a depth nor a move time is given;
    otherwise [go] with the depth, if positive, and the move time, if
    positive, in milliseconds as given. *)
Theorem App_StartAnalysis_go_line params :
  (AnalysisParams.MoveTime params ≤ 9223372036854)%Z →
  BuildGoCommand (appGoParams params)
  = if AnalysisParams.Infinite params
       || ((AnalysisParams.Depth params =? 0)%Z
           && (AnalysisParams.MoveTime params =? 0)%Z)
    then "go infinite"
    else Join (["go"]
               ++ (if (0 <? AnalysisParams.Depth params)%Z
                   then ["depth"; Itoa (AnalysisParams.Depth params)] else [])
               ++ (if (0 <? AnalysisParams.MoveTime params)%Z
                   then ["movetime"; FormatInt (AnalysisParams.MoveTime params)]
                   else []))%list " ".
Proof.
  destruct params as [fen moves ids inf depth mt]. cbn [AnalysisParams.Infinite
    AnalysisParams.Depth AnalysisParams.MoveTime]. intros Hmt.
  assert (Hms : (0 < mt)%Z → Milliseconds (wrap64 (mt * Millisecond)) = mt
                              ∧ (0 <? wrap64 (mt * Millisecond))%Z = true).
  { intros Hpos. unfold Millisecond.
    assert (wrap64 (mt * 1000000) = (mt * 1000000)%Z) as ->.
    { unfold wrap64. rewrite Z.mod_small; [lia|].
      assert (2 ^ 63 = 9223372036854775808)%Z as -> by reflexivity.
      assert (2 ^ 64 = 18446744073709551616)%Z as -> by reflexivity. lia. }
    split; [unfold Milliseconds; by rewrite Z.quot_mul|].
    apply Z.ltb_lt. lia. }
  unfold BuildGoCommand, appGoParams, goParts.
  cbn [AnalysisParams.Infinite AnalysisParams.Depth AnalysisParams.MoveTime].
  destruct inf; cbn [negb andb orb].
  { by destruct (0 <? mt)%Z. }
  destruct (Z.ltb_spec 0 mt) as [Hpos|Hnp].
  - destruct (Hms Hpos) as [Hq Hlt].
    assert ((mt =? 0)%Z = false) as -> by (apply Z.eqb_neq; lia).
    rewrite andb_false_r.
    cbn [GoParams.Infinite GoParams.Ponder GoParams.Depth GoParams.Nodes
         GoParams.MoveTime GoParams.WhiteTime GoParams.BlackTime GoParams.WhiteInc
         GoParams.BlackInc GoParams.MovesToGo GoParams.SearchMoves].
    rewrite Hlt, Hq. unfold appendIf. cbn [length Nat.ltb Nat.leb].
    change (0 <? 0)%Z with false. change (0 <? 0)%nat with false.
    by destruct (0 <? depth)%Z.
  - destruct (Z.eqb_spec depth 0) as [->|Hd]; cbn [andb].
    + destruct (Z.eqb_spec mt 0) as [->|Hm]; [done|].
      cbn [GoParams.Infinite GoParams.Ponder GoParams.Depth GoParams.Nodes
         GoParams.MoveTime GoParams.WhiteTime GoParams.BlackTime GoParams.WhiteInc
         GoParams.BlackInc GoParams.MovesToGo GoParams.SearchMoves].
      done.
    + cbn [GoParams.Infinite GoParams.Ponder GoParams.Depth GoParams.Nodes
         GoParams.MoveTime GoParams.WhiteTime GoParams.BlackTime GoParams.WhiteInc
         GoParams.BlackInc GoParams.MovesToGo GoParams.SearchMoves].
      unfold appendIf. cbn [length]. change (0 <? 0)%Z with false.
      change (0 <? 0)%nat with false.
      by destruct (0 <? depth)%Z.
Qed.

Lemma App_StartAnalysis_go_line_witness :
  BuildGoCommand (appGoParams (AnalysisParams.mk "" [] ["sf"] false 12 1500))
  = "go depth 12 movetime 1500"
  ∧ BuildGoCommand (appGoParams (AnalysisParams.mk "" [] ["sf"] false 0 0))
    = "go infinite".
Proof.
  split.
  - apply (App_StartAnalysis_go_line (AnalysisParams.mk "" [] ["sf"] false 12 1500)).
    by vm_compute.
  - apply (App_StartAnalysis_go_line (AnalysisParams.mk "" [] ["sf"] false 0 0)).
    by vm_compute.
Defined.
